(** * werewolf-signaling: the room ledger and the real-time signaling hub

    A shallow embedding of the two parts of the server and of the properties
    that its specification states about them.

    - Module [MemoryStore]: the REST-facing room ledger,
      [src/rooms/memoryStore.ts] ([generateRoomId], [createRoom], [joinRoom],
      [getRoomSummary], [hasRoom], [inspectRoom]).
    - Module [Index]: the WebSocket hub of [index.ts] with rooms ([sessions],
      [activeRooms], [detachFromRoom], [attachToRoom], the join, signal and
      chat handlers and the four callbacks of a connection); its text follows
      the ledger in [src/rooms/memoryStore.ts], from line 200 on.
    - Module [Index.Poc]: the first version of the hub, [src/index.ts], which
      has sessions and chat but no rooms.
    - Module [Rest]: the REST routes, which answer from the ledger and count
      the rooms and sessions of the hub.

    Conventions.
    - A JavaScript value that the code inspects dynamically ([typeof], [!v],
      [===]) is a [JsValue]; a value whose type the code has already fixed is
      a Rocq value of that type.
    - Strings are sequences of ASCII characters; [trim] removes the ASCII
      white space of ECMAScript and [toUpperCase] maps [a-z] to [A-Z].
    - A [Map] that the code iterates is a [JsMap.t], an association list in
      insertion order; a [Map] that is only looked up, set and deleted is a
      [gmap].
    - Throwing code lives in the monad [M St], a state monad whose exceptions
      keep the state reached when they were thrown, as in JavaScript.
    - What the runtime decides ([crypto], [Math.random], [Date.now], the state
      of a socket) is an explicit argument of the operation that reads it. *)

From Stdlib Require Import String Ascii ZArith NArith List Lia Bool.
From Stdlib Require Import Floats.PrimFloat.
From stdpp Require Import base option list strings gmap.

(** ** JavaScript values *)

#[local] Set Warnings "-register-all".

Inductive JsValue : Type :=
| JUndefined
| JNull
| JBool (b : bool)
| JNumber (x : float)
| JString (s : string)
| JArray (items : list JsValue)
| JObject (props : list (string * JsValue)).

(** [typeof v] *)
Definition typeof (v : JsValue) : string :=
  match v with
  | JUndefined => "undefined"
  | JNull => "object"
  | JBool _ => "boolean"
  | JNumber _ => "number"
  | JString _ => "string"
  | JArray _ => "object"
  | JObject _ => "object"
  end.

(** [!!v]: [undefined], [null], [false], [0], [NaN] and the empty string are
    falsy, everything else is truthy. *)
Definition truthy (v : JsValue) : bool :=
  match v with
  | JUndefined => false
  | JNull => false
  | JBool b => b
  | JNumber x => negb (PrimFloat.is_zero x || PrimFloat.is_nan x)
  | JString s => negb (String.eqb s "")
  | JArray _ => true
  | JObject _ => true
  end.

(** [v === s] for a string [s]. *)
Definition strict_eq_string (v : JsValue) (s : string) : bool :=
  match v with
  | JString s' => String.eqb s' s
  | _ => false
  end.

(** [v ?? null] *)
Definition nullish_to_null (v : JsValue) : JsValue :=
  match v with
  | JUndefined => JNull
  | _ => v
  end.

(** [o.k] for an object that [JSON.parse] returned: the own property, or
    [undefined].  None of the names the code reads ([type], [roomId],
    [displayName], [role], [hostToken], [targetClientId], [payload], [text],
    [messageId]) is inherited from a prototype, so an array has none of them. *)
Fixpoint own_property (props : list (string * JsValue)) (k : string) : JsValue :=
  match props with
  | [] => JUndefined
  | (k', v) :: rest => if String.eqb k' k then v else own_property rest k
  end.

Definition property (o : JsValue) (k : string) : JsValue :=
  match o with
  | JObject props => own_property props k
  | _ => JUndefined
  end.

(** ** Strings: [trim] and [toUpperCase] *)

Definition isWhiteSpace (c : ascii) : bool :=
  let n := N_of_ascii c in
  ((9 <=? n) && (n <=? 13) || (n =? 32))%N.

Definition upperChar (c : ascii) : ascii :=
  let n := N_of_ascii c in
  if ((97 <=? n) && (n <=? 122))%N then ascii_of_N (n - 32) else c.

Definition lowerChar (c : ascii) : ascii :=
  let n := N_of_ascii c in
  if ((65 <=? n) && (n <=? 90))%N then ascii_of_N (n + 32) else c.

Fixpoint trimStart (s : string) : string :=
  match s with
  | EmptyString => EmptyString
  | String c rest => if isWhiteSpace c then trimStart rest else s
  end.

Fixpoint trimEnd (s : string) : string :=
  match s with
  | EmptyString => EmptyString
  | String c rest =>
      match trimEnd rest with
      | EmptyString => if isWhiteSpace c then EmptyString else String c EmptyString
      | kept => String c kept
      end
  end.

Definition trim (s : string) : string := trimEnd (trimStart s).

Fixpoint toUpperCase (s : string) : string :=
  match s with
  | EmptyString => EmptyString
  | String c rest => String (upperChar c) (toUpperCase rest)
  end.

(** ** Facts about [trim] and [toUpperCase] *)

Section StringFacts.

Definition noWhiteSpace (s : string) : Prop :=
  Forall (fun c => isWhiteSpace c = false) (list_ascii_of_string s).

Definition allWhiteSpace (s : string) : Prop :=
  Forall (fun c => isWhiteSpace c = true) (list_ascii_of_string s).

Lemma trimStart_noWhiteSpace s : noWhiteSpace s -> trimStart s = s.
Proof.
  destruct s as [|c rest]; [reflexivity|].
  unfold noWhiteSpace; simpl. intros H. inversion H as [|? ? Hc _]; subst.
  now rewrite Hc.
Qed.

Lemma trimEnd_noWhiteSpace s : noWhiteSpace s -> trimEnd s = s.
Proof.
  unfold noWhiteSpace. induction s as [|c rest IH]; [reflexivity|].
  simpl. intros H. inversion H as [|? ? Hc Hrest]; subst.
  rewrite (IH Hrest), Hc. now destruct rest.
Qed.

Lemma trim_noWhiteSpace s : noWhiteSpace s -> trim s = s.
Proof.
  intros H. unfold trim. rewrite (trimStart_noWhiteSpace _ H).
  now apply trimEnd_noWhiteSpace.
Qed.

Lemma trimStart_padding pad s :
  allWhiteSpace pad -> trimStart (String.append pad s) = trimStart s.
Proof.
  unfold allWhiteSpace. induction pad as [|c rest IH]; [reflexivity|].
  simpl. intros H. inversion H as [|? ? Hc Hrest]; subst.
  rewrite Hc. now apply IH.
Qed.

Lemma trimStart_allWhiteSpace pad : allWhiteSpace pad -> trimStart pad = EmptyString.
Proof.
  unfold allWhiteSpace. induction pad as [|c rest IH]; [reflexivity|].
  simpl. intros H. inversion H as [|? ? Hc Hrest]; subst.
  rewrite Hc. now apply IH.
Qed.

Lemma trimEnd_allWhiteSpace pad : allWhiteSpace pad -> trimEnd pad = EmptyString.
Proof.
  unfold allWhiteSpace. induction pad as [|c rest IH]; [reflexivity|].
  simpl. intros H. inversion H as [|? ? Hc Hrest]; subst.
  now rewrite (IH Hrest), Hc.
Qed.

Lemma trimEnd_padding s pad :
  noWhiteSpace s -> allWhiteSpace pad -> trimEnd (String.append s pad) = s.
Proof.
  unfold noWhiteSpace. induction s as [|c rest IH]; simpl.
  - intros _. apply trimEnd_allWhiteSpace.
  - intros H Hpad. inversion H as [|? ? Hc Hrest]; subst.
    rewrite (IH Hrest Hpad), Hc. now destruct rest.
Qed.

Lemma trim_padding padL s padR :
  allWhiteSpace padL -> noWhiteSpace s -> allWhiteSpace padR ->
  trim (String.append padL (String.append s padR)) = s.
Proof.
  intros HL Hs HR. unfold trim. rewrite (trimStart_padding _ _ HL).
  destruct s as [|c rest].
  - change (String.append EmptyString padR) with padR.
    now rewrite (trimStart_allWhiteSpace _ HR).
  - assert (Hc : isWhiteSpace c = false) by (inversion Hs; assumption).
    change (String.append (String c rest) padR) with (String c (String.append rest padR)).
    cbn [trimStart]. rewrite Hc.
    change (String c (String.append rest padR)) with (String.append (String c rest) padR).
    now apply trimEnd_padding.
Qed.

End StringFacts.

(** ** Insertion-ordered maps *)

Module JsMap.

(** The entries of a [Map], oldest first. *)
Abbreviation t V := (list (string * V)).

Section Operations.
Context {V : Type}.

Definition empty : t V := [].

Fixpoint get (k : string) (m : t V) : option V :=
  match m with
  | [] => None
  | (k', v) :: rest => if String.eqb k' k then Some v else get k rest
  end.

(** [m.set(k, v)]: a present key keeps its place, a new key goes last. *)
Fixpoint set (k : string) (v : V) (m : t V) : t V :=
  match m with
  | [] => [(k, v)]
  | (k', v') :: rest =>
      if String.eqb k' k then (k, v) :: rest else (k', v') :: set k v rest
  end.

Definition delete (k : string) (m : t V) : t V :=
  List.filter (fun e => negb (String.eqb (fst e) k)) m.

Definition size (m : t V) : nat := length m.

Definition keys (m : t V) : list string := map fst m.

Definition values (m : t V) : list V := map snd m.

End Operations.

Section Facts.
Context {V : Type}.
Implicit Types (k : string) (v : V) (m : t V).

Lemma get_set_eq k v m : get k (set k v m) = Some v.
Proof.
  induction m as [|[k' v'] rest IH]; simpl.
  - now rewrite String.eqb_refl.
  - destruct (String.eqb k' k) eqn:E; simpl.
    + now rewrite String.eqb_refl.
    + now rewrite E.
Qed.

Lemma get_set_ne k k' v m : k <> k' -> get k' (set k v m) = get k' m.
Proof.
  intros Hne. induction m as [|[k0 v0] rest IH]; simpl.
  - apply String.eqb_neq in Hne. now rewrite Hne.
  - destruct (String.eqb k0 k) eqn:E; simpl.
    + apply String.eqb_eq in E. subst k0.
      apply String.eqb_neq in Hne. now rewrite Hne.
    + now rewrite IH.
Qed.

Lemma get_delete_eq k m : get k (delete k m) = None.
Proof.
  unfold delete. induction m as [|[k' v'] rest IH]; [reflexivity|].
  simpl. destruct (String.eqb k' k) eqn:E; simpl.
  - exact IH.
  - now rewrite E.
Qed.

Lemma get_delete_ne k k' m : k <> k' -> get k' (delete k m) = get k' m.
Proof.
  intros Hne. unfold delete. induction m as [|[k0 v0] rest IH]; [reflexivity|].
  simpl. destruct (String.eqb k0 k) eqn:E; simpl.
  - apply String.eqb_eq in E. subst k0.
    apply String.eqb_neq in Hne. now rewrite Hne.
  - now rewrite IH.
Qed.

Lemma set_nonempty k v m : set k v m <> [].
Proof. destruct m as [|[k' v'] rest]; simpl; [|destruct (String.eqb k' k)]; discriminate. Qed.

Lemma get_Some_In k v m : get k m = Some v -> In (k, v) m.
Proof.
  induction m as [|[k' v'] rest IH]; simpl; [discriminate|].
  destruct (String.eqb k' k) eqn:E.
  - apply String.eqb_eq in E. intros [= ->]. left. now subst.
  - intros H. right. now apply IH.
Qed.

Lemma get_None_keys k m : get k m = None <-> ~ In k (keys m).
Proof.
  unfold keys. induction m as [|[k' v'] rest IH]; simpl; [tauto|].
  destruct (String.eqb k' k) eqn:E.
  - apply String.eqb_eq in E. split; [discriminate|]. intros H. exfalso. apply H. now left.
  - apply String.eqb_neq in E. rewrite IH. tauto.
Qed.

Lemma In_get k v m : NoDup (keys m) -> In (k, v) m -> get k m = Some v.
Proof.
  unfold keys. induction m as [|[k' v'] rest IH]; simpl; [contradiction|].
  intros Hnd Hin. apply NoDup_cons in Hnd as [Hk' Hnd].
  destruct Hin as [[= -> ->]|Hin].
  - now rewrite String.eqb_refl.
  - destruct (String.eqb k' k) eqn:E; [|now apply IH].
    apply String.eqb_eq in E. subst k'. exfalso. apply Hk'.
    apply list_elem_of_In. apply in_map_iff. now exists (k, v).
Qed.

Lemma keys_delete k m :
  keys (delete k m) = List.filter (fun k' => negb (String.eqb k' k)) (keys m).
Proof.
  unfold keys, delete. induction m as [|[k' v'] rest IH]; [reflexivity|].
  simpl. destruct (String.eqb k' k); simpl; now rewrite IH.
Qed.

Lemma keys_set k v m :
  keys (set k v m) = match get k m with Some _ => keys m | None => keys m ++ [k] end.
Proof.
  unfold keys. induction m as [|[k' v'] rest IH]; [reflexivity|]. simpl.
  destruct (String.eqb k' k) eqn:E; simpl.
  - apply String.eqb_eq in E. now subst.
  - rewrite IH. now destruct (get k rest).
Qed.

Lemma NoDup_keys_delete k m : NoDup (keys m) -> NoDup (keys (delete k m)).
Proof.
  rewrite keys_delete, !NoDup_ListNoDup. apply List.NoDup_filter.
Qed.

Lemma NoDup_keys_set k v m : NoDup (keys m) -> NoDup (keys (set k v m)).
Proof.
  intros Hnd. rewrite keys_set. destruct (get k m) eqn:E; [exact Hnd|].
  apply NoDup_app. split; [exact Hnd|]. split; [|apply NoDup_singleton].
  intros k' Hin Hin'. apply list_elem_of_singleton in Hin'. subst k'.
  apply get_None_keys in E. apply E. now apply list_elem_of_In.
Qed.

Lemma delete_empty k m : delete k m = [] -> forall k', k' <> k -> get k' m = None.
Proof.
  intros Hdel k' Hne. rewrite <- (get_delete_ne k k' m) by congruence. now rewrite Hdel.
Qed.

Lemma In_delete k k' v m : In (k', v) (delete k m) <-> In (k', v) m /\ k' <> k.
Proof.
  unfold delete. rewrite filter_In. simpl.
  rewrite negb_true_iff, String.eqb_neq. tauto.
Qed.

End Facts.

End JsMap.

(** ** Exceptions and the state monad that carries them *)

Inductive Exn : Type :=
| SyntaxError
| SendFailure
| RoomNotFoundError (roomId : JsValue)
| InvalidHostTokenError
| Error (message : string).

Inductive Res (St A : Type) : Type :=
| Ret (a : A) (st : St)
| Throw (e : Exn) (st : St).

Arguments Ret {St A} a st.
Arguments Throw {St A} e st.

Definition M (St A : Type) : Type := St -> Res St A.

Definition ret {St A : Type} (a : A) : M St A := fun st => Ret a st.

Definition throw {St A : Type} (e : Exn) : M St A := fun st => Throw e st.

Definition bind {St A B : Type} (m : M St A) (k : A -> M St B) : M St B :=
  fun st =>
    match m st with
    | Ret a st' => k a st'
    | Throw e st' => Throw e st'
    end.

(** [try { body } catch (e) { handler }] *)
Definition try_catch {St A : Type} (body : M St A) (handler : Exn -> M St A) : M St A :=
  fun st =>
    match body st with
    | Ret a st' => Ret a st'
    | Throw e st' => handler e st'
    end.

Definition gets {St A : Type} (f : St -> A) : M St A := fun st => Ret (f st) st.

Definition modify {St : Type} (f : St -> St) : M St unit := fun st => Ret tt (f st).

(** [for (const x of xs) { body x }] *)
Fixpoint for_of {St X : Type} (xs : list X) (body : X -> M St unit) : M St unit :=
  match xs with
  | [] => ret tt
  | x :: rest => bind (body x) (fun _ => for_of rest body)
  end.

Declare Scope js_scope.
Delimit Scope js_scope with js.
Notation "x <- m ;; k" := (bind m (fun x => k))
  (at level 100, m at next level, right associativity) : js_scope.
Notation "m ;; k" := (bind m (fun _ => k))
  (at level 100, right associativity) : js_scope.

Definition state_of {St A : Type} (r : Res St A) : St :=
  match r with
  | Ret _ st => st
  | Throw _ st => st
  end.

Definition returns {St A : Type} (r : Res St A) : bool :=
  match r with
  | Ret _ _ => true
  | Throw _ _ => false
  end.

Inductive ParticipantRole : Type := host | guest.

(** Two expressions that both source files use on what a client sent. *)

(** [typeof v === "string" && v.trim().length > 0 ? v.trim() : null] *)
Definition trimmedOrNull (v : JsValue) : option string :=
  match v with
  | JString s => if (0 <? String.length (trim s))%nat then Some (trim s) else None
  | _ => None
  end.

(** [v === "host" ? "host" : "guest"] *)
Definition roleOf (v : JsValue) : ParticipantRole :=
  if strict_eq_string v "host" then host else guest.

(** [!!s] for [s : string | null] *)
Definition truthyString (s : option string) : bool :=
  match s with
  | Some s' => negb (String.eqb s' "")
  | None => false
  end.

(** * The room ledger: [src/rooms/memoryStore.ts] *)

Module MemoryStore.

Local Open Scope js_scope.

Record RoomParticipant : Type := {
  rp_participantId : string;
  rp_displayName : option string;
  rp_role : ParticipantRole;
  rp_joinedAt : Z;
}.

Record CreateRoomResult : Type := {
  cr_roomId : string;
  cr_hostToken : string;
  cr_createdAt : Z;
}.

(** [JoinRoomOptions]: the fields are read dynamically, an absent field is
    [JUndefined]. *)
Record JoinRoomOptions : Type := {
  jo_displayName : JsValue;
  jo_role : JsValue;
  jo_hostToken : JsValue;
}.

Record JoinRoomResult : Type := {
  jr_roomId : string;
  jr_participantId : string;
  jr_role : ParticipantRole;
  jr_displayName : option string;
  jr_joinedAt : Z;
}.

Record RoomRecord : Type := {
  rr_id : string;
  rr_createdAt : Z;
  rr_hostToken : string;
  rr_participants : JsMap.t RoomParticipant;
}.

(** The private field [#rooms] is the whole state of an [InMemoryRoomStore]. *)
Abbreviation Store := (gmap string RoomRecord).

(** What one call reads from the runtime: [random attempts index] is the
    number that [crypto.getRandomValues] (or the [Math.random] fallback)
    leaves in [randomBytes[index]] during attempt [attempts]; [makeId] is the
    result of the call [makeId()]; [now] is [Date.now()]. *)
Record Env : Type := {
  random : nat -> nat -> N;
  makeId : string;
  now : Z;
}.

Definition ROOM_ID_ALPHABET : string := "ABCDEFGHJKMNPQRSTUVWXYZ23456789".
Definition ROOM_ID_LENGTH : nat := 6.

Definition normalizeRoomId (value : string) : string := toUpperCase (trim value).

(** An element of a [Uint32Array] holds its value modulo [2^32]. *)
Definition Uint32 (x : N) : N := (x mod 2 ^ 32)%N.

(** [ROOM_ID_ALPHABET[i]] appended to a string ([undefined] would be appended
    as the text "undefined"). *)
Definition alphabetAt (i : N) : string :=
  match String.get (N.to_nat i) ROOM_ID_ALPHABET with
  | Some c => String c EmptyString
  | None => "undefined"
  end.

(** The second inner loop of [generateRoomId]: one code from [randomBytes]. *)
Definition sampleCode (randomBytes : nat -> N) : string :=
  fold_left
    (fun code index =>
       let randomValue := (Uint32 (randomBytes index) mod N.of_nat (String.length ROOM_ID_ALPHABET))%N in
       String.append code (alphabetAt randomValue))
    (seq 0 ROOM_ID_LENGTH) EmptyString.

(** The loop [for (attempts = 0; attempts < 20; attempts += 1)], with
    [remaining = 20 - attempts]. *)
Fixpoint generateRoomId_loop (existingIds : gset string) (rnd : nat -> nat -> N)
    (attempts remaining : nat) : Exn + string :=
  match remaining with
  | O => inl (Error "Failed to allocate a unique room id")
  | S remaining' =>
      let normalized := normalizeRoomId (sampleCode (rnd attempts)) in
      if bool_decide (normalized ∈ existingIds)
      then generateRoomId_loop existingIds rnd (S attempts) remaining'
      else inr normalized
  end.

Definition generateRoomId (existingIds : gset string) (rnd : nat -> nat -> N) : Exn + string :=
  generateRoomId_loop existingIds rnd 0 20.

Definition createRoom (env : Env) : M Store CreateRoomResult :=
  ids <- gets (fun rooms : Store => dom rooms) ;;
  match generateRoomId ids (random env) with
  | inl e => throw e
  | inr roomId =>
      let hostToken := makeId env in
      let createdAt := now env in
      modify (fun rooms : Store =>
                <[roomId := {| rr_id := roomId; rr_createdAt := createdAt;
                               rr_hostToken := hostToken;
                               rr_participants := JsMap.empty |}]> rooms) ;;
      ret {| cr_roomId := roomId; cr_hostToken := hostToken; cr_createdAt := createdAt |}
  end.

(** [room.participants.set(participant.participantId, participant)] *)
Definition addParticipant (room : RoomRecord) (participant : RoomParticipant) : RoomRecord :=
  {| rr_id := rr_id room; rr_createdAt := rr_createdAt room; rr_hostToken := rr_hostToken room;
     rr_participants :=
       JsMap.set (rp_participantId participant) participant (rr_participants room) |}.

Definition joinRoom (roomIdRaw : JsValue) (options : JoinRoomOptions) (env : Env)
    : M Store JoinRoomResult :=
  match roomIdRaw with
  | JString raw =>
      if (String.length (trim raw) =? 0)%nat then throw (RoomNotFoundError roomIdRaw) else
      let roomId := normalizeRoomId raw in
      found <- gets (fun rooms : Store => rooms !! roomId) ;;
      match found with
      | None => throw (RoomNotFoundError (JString roomId))
      | Some room =>
          let role := roleOf (jo_role options) in
          let displayName := trimmedOrNull (jo_displayName options) in
          match role with
          | host =>
              if negb (truthy (jo_hostToken options))
                 || negb (strict_eq_string (jo_hostToken options) (rr_hostToken room))
              then throw InvalidHostTokenError
              else ret tt
          | guest => ret tt
          end ;;
          let participantId := makeId env in
          let joinedAt := now env in
          let participant :=
            {| rp_participantId := participantId; rp_displayName := displayName;
               rp_role := role; rp_joinedAt := joinedAt |} in
          modify (fun rooms : Store => <[roomId := addParticipant room participant]> rooms) ;;
          ret {| jr_roomId := roomId; jr_participantId := participantId; jr_role := role;
                 jr_displayName := displayName; jr_joinedAt := joinedAt |}
      end
  | _ => throw (RoomNotFoundError roomIdRaw)
  end.

(** A sequence of [createRoom] calls on one store, one [Env] per call; a call
    that throws leaves its exception in the list and the next call goes on. *)
Fixpoint createRooms (envs : list Env) (rooms : Store) : list (Exn + CreateRoomResult) * Store :=
  match envs with
  | [] => ([], rooms)
  | env :: rest =>
      match createRoom env rooms with
      | Ret r rooms' => let (rs, final) := createRooms rest rooms' in (inr r :: rs, final)
      | Throw e rooms' => let (rs, final) := createRooms rest rooms' in (inl e :: rs, final)
      end
  end.

(** The room codes that a list of results returned. *)
Definition returnedIds (results : list (Exn + CreateRoomResult)) : list string :=
  omap (fun r => match r with inr c => Some (cr_roomId c) | inl _ => None end) results.



(** ** Room codes *)

Definition alphabetChars : list ascii := list_ascii_of_string ROOM_ID_ALPHABET.

(** A room code: [ROOM_ID_LENGTH] characters of [ROOM_ID_ALPHABET]. *)
Definition isRoomCode (s : string) : Prop :=
  String.length s = ROOM_ID_LENGTH /\ Forall (fun c => In c alphabetChars) (list_ascii_of_string s).

Lemma alphabetChars_plain c :
  In c alphabetChars -> isWhiteSpace c = false /\ upperChar c = c /\ upperChar (lowerChar c) = c
                        /\ isWhiteSpace (lowerChar c) = false.
Proof.
  unfold alphabetChars. simpl. intros H.
  repeat (destruct H as [<-|H]; [repeat split; reflexivity|]). contradiction.
Qed.

Lemma alphabet_noWhiteSpace s :
  Forall (fun c => In c alphabetChars) (list_ascii_of_string s) -> noWhiteSpace s.
Proof.
  unfold noWhiteSpace. intros H. eapply Forall_impl; [exact H|].
  intros c Hc. now apply alphabetChars_plain.
Qed.

Lemma alphabet_toUpperCase s :
  Forall (fun c => In c alphabetChars) (list_ascii_of_string s) -> toUpperCase s = s.
Proof.
  induction s as [|c rest IH]; [reflexivity|]. simpl. intros H.
  inversion H as [|? ? Hc Hrest]; subst.
  rewrite (IH Hrest). now destruct (alphabetChars_plain c Hc) as (_ & -> & _).
Qed.

Lemma normalizeRoomId_code s :
  Forall (fun c => In c alphabetChars) (list_ascii_of_string s) -> normalizeRoomId s = s.
Proof.
  intros H. unfold normalizeRoomId.
  rewrite (trim_noWhiteSpace _ (alphabet_noWhiteSpace _ H)).
  now apply alphabet_toUpperCase.
Qed.

Lemma alphabetAt_char (i : N) :
  (i < 31)%N -> exists c, alphabetAt i = String c EmptyString /\ In c alphabetChars.
Proof.
  intros Hi. unfold alphabetAt.
  assert (Hn : (N.to_nat i < 31)%nat) by lia.
  generalize dependent (N.to_nat i). intros n Hn.
  do 31 (destruct n as [|n]; [eexists; split; [reflexivity|simpl; tauto]|]).
  lia.
Qed.

(** The index that [randomBytes[index] % ROOM_ID_ALPHABET.length] computes. *)
Definition alphabetIndex (randomBytes : nat -> N) (index : nat) : N :=
  (Uint32 (randomBytes index) mod N.of_nat (String.length ROOM_ID_ALPHABET))%N.

Lemma alphabetIndex_bound randomBytes index : (alphabetIndex randomBytes index < 31)%N.
Proof. unfold alphabetIndex. apply N.mod_upper_bound. discriminate. Qed.

Lemma sampleCode_unfold randomBytes :
  sampleCode randomBytes =
    String.append (String.append (String.append (String.append (String.append (String.append
      EmptyString
      (alphabetAt (alphabetIndex randomBytes 0))) (alphabetAt (alphabetIndex randomBytes 1)))
      (alphabetAt (alphabetIndex randomBytes 2))) (alphabetAt (alphabetIndex randomBytes 3)))
      (alphabetAt (alphabetIndex randomBytes 4))) (alphabetAt (alphabetIndex randomBytes 5)).
Proof. reflexivity. Qed.

Lemma sampleCode_isRoomCode (randomBytes : nat -> N) : isRoomCode (sampleCode randomBytes).
Proof.
  rewrite sampleCode_unfold.
  destruct (alphabetAt_char _ (alphabetIndex_bound randomBytes 0)) as (c0 & -> & H0).
  destruct (alphabetAt_char _ (alphabetIndex_bound randomBytes 1)) as (c1 & -> & H1).
  destruct (alphabetAt_char _ (alphabetIndex_bound randomBytes 2)) as (c2 & -> & H2).
  destruct (alphabetAt_char _ (alphabetIndex_bound randomBytes 3)) as (c3 & -> & H3).
  destruct (alphabetAt_char _ (alphabetIndex_bound randomBytes 4)) as (c4 & -> & H4).
  destruct (alphabetAt_char _ (alphabetIndex_bound randomBytes 5)) as (c5 & -> & H5).
  split; [reflexivity|]. cbv [String.append list_ascii_of_string].
  repeat (constructor; [assumption|]). constructor.
Qed.

Lemma normalizeRoomId_sampleCode randomBytes :
  normalizeRoomId (sampleCode randomBytes) = sampleCode randomBytes.
Proof. apply normalizeRoomId_code, sampleCode_isRoomCode. Qed.

(** ** [generateRoomId] *)

(** The code sampled at attempt [attempts]. *)
Definition candidate (rnd : nat -> nat -> N) (attempts : nat) : string :=
  normalizeRoomId (sampleCode (rnd attempts)).

Lemma generateRoomId_loop_spec existingIds rnd remaining : forall attempts,
  match generateRoomId_loop existingIds rnd attempts remaining with
  | inr roomId =>
      exists k, (k < remaining)%nat /\ roomId = candidate rnd (attempts + k)
                /\ (roomId ∉ existingIds)
                /\ forall j, (j < k)%nat -> candidate rnd (attempts + j) ∈ existingIds
  | inl e =>
      e = Error "Failed to allocate a unique room id"
      /\ forall j, (j < remaining)%nat -> candidate rnd (attempts + j) ∈ existingIds
  end.
Proof.
  induction remaining as [|remaining IH]; intros attempts; simpl.
  - split; [reflexivity|]. intros j Hj. lia.
  - fold (candidate rnd attempts). case_bool_decide as Hin.
    + specialize (IH (S attempts)).
      destruct (generateRoomId_loop existingIds rnd (S attempts) remaining) as [e|roomId].
      * destruct IH as [-> IH]. split; [reflexivity|]. intros [|j] Hj.
        -- now rewrite Nat.add_0_r.
        -- replace (attempts + S j)%nat with (S attempts + j)%nat by lia. apply IH. lia.
      * destruct IH as (k & Hk & -> & Hfresh & Hbefore). exists (S k).
        split; [lia|]. split; [f_equal; lia|]. split.
        -- replace (attempts + S k)%nat with (S attempts + k)%nat by lia. exact Hfresh.
        -- intros [|j] Hj; [now rewrite Nat.add_0_r|].
           replace (attempts + S j)%nat with (S attempts + j)%nat by lia. apply Hbefore. lia.
    + exists 0%nat. rewrite Nat.add_0_r. split; [lia|]. split; [reflexivity|].
      split; [exact Hin|]. intros j Hj. lia.
Qed.

(** The room that [createRoom] stores. *)
Definition freshRoom (roomId : string) (env : Env) : RoomRecord :=
  {| rr_id := roomId; rr_createdAt := now env; rr_hostToken := makeId env;
     rr_participants := JsMap.empty |}.

Lemma createRoom_run env (rooms : Store) :
  match generateRoomId (dom rooms) (random env) with
  | inl e => createRoom env rooms = Throw e rooms
  | inr roomId =>
      createRoom env rooms =
        Ret {| cr_roomId := roomId; cr_hostToken := makeId env; cr_createdAt := now env |}
            (<[roomId := freshRoom roomId env]> rooms)
  end.
Proof.
  unfold createRoom, bind, gets, modify, ret, throw.
  destruct (generateRoomId (dom rooms) (random env)); reflexivity.
Qed.

Lemma createRoom_returns env (rooms rooms' : Store) r :
  createRoom env rooms = Ret r rooms' ->
  isRoomCode (cr_roomId r) /\ (cr_roomId r ∉ dom rooms) /\ dom rooms' = {[cr_roomId r]} ∪ dom rooms.
Proof.
  pose proof (createRoom_run env rooms) as Hrun.
  pose proof (generateRoomId_loop_spec (dom rooms) (random env) 20 0) as Hgen.
  fold (generateRoomId (dom rooms) (random env)) in Hgen.
  destruct (generateRoomId (dom rooms) (random env)) as [e|roomId].
  - rewrite Hrun. discriminate.
  - rewrite Hrun. intros [= <- <-]. simpl.
    destruct Hgen as (k & _ & Hid & Hfresh & _).
    split; [|split; [exact Hfresh|apply dom_insert_L]].
    rewrite Hid. unfold candidate. rewrite normalizeRoomId_sampleCode.
    apply sampleCode_isRoomCode.
Qed.

Lemma createRoom_throws env (rooms rooms' : Store) e :
  createRoom env rooms = Throw e rooms' -> rooms' = rooms.
Proof.
  pose proof (createRoom_run env rooms) as Hrun.
  destruct (generateRoomId (dom rooms) (random env)); rewrite Hrun; [|discriminate].
  now intros [= _ <-].
Qed.

Lemma createRooms_spec envs : forall rooms : Store,
  let ids := returnedIds (fst (createRooms envs rooms)) in
  NoDup ids /\ (forall roomId, roomId ∈ ids -> isRoomCode roomId /\ roomId ∉ dom rooms).
Proof.
  induction envs as [|env rest IH]; intros rooms; simpl.
  - split; [constructor|]. intros roomId H; inversion H.
  - destruct (createRoom env rooms) as [r rooms'|e rooms'] eqn:Hcall.
    + specialize (IH rooms'). destruct (createRooms rest rooms') as [rs final]. simpl in *.
      destruct IH as (Hnd & Hcodes).
      destruct (createRoom_returns _ _ _ _ Hcall) as (Hcode & Hfresh & Hdom').
      split.
      * constructor; [|exact Hnd]. intros Hin. apply Hcodes in Hin as [_ Hin].
        apply Hin. rewrite Hdom'. apply elem_of_union. left. now apply elem_of_singleton.
      * intros roomId Hin. apply elem_of_cons in Hin as [->|Hin]; [now split|].
        apply Hcodes in Hin as [? Hin]. split; [assumption|].
        intros Hold. apply Hin. rewrite Hdom'. apply elem_of_union. now right.
    + specialize (IH rooms'). destruct (createRooms rest rooms') as [rs final]. simpl in *.
      apply createRoom_throws in Hcall as ->. exact IH.
Qed.

(** ** [joinRoom] *)

(** The participant that a successful [joinRoom] creates. *)
Definition newParticipant (options : JoinRoomOptions) (env : Env) (role : ParticipantRole)
    : RoomParticipant :=
  {| rp_participantId := makeId env; rp_displayName := trimmedOrNull (jo_displayName options);
     rp_role := role; rp_joinedAt := now env |}.

(** What a successful [joinRoom] returns. *)
Definition joinResult (roomId : string) (options : JoinRoomOptions) (env : Env)
    (role : ParticipantRole) : JoinRoomResult :=
  {| jr_roomId := roomId; jr_participantId := makeId env; jr_role := role;
     jr_displayName := trimmedOrNull (jo_displayName options); jr_joinedAt := now env |}.

(** The host-token test of [joinRoom]: [!token || token !== room.hostToken]. *)
Definition tokenRejected (token : JsValue) (room : RoomRecord) : bool :=
  negb (truthy token) || negb (strict_eq_string token (rr_hostToken room)).

Lemma trim_length_nonzero s : trim s <> EmptyString -> (String.length (trim s) =? 0)%nat = false.
Proof. destruct (trim s); [congruence|reflexivity]. Qed.

Lemma joinRoom_found (rooms : Store) raw room options env :
  trim raw <> EmptyString ->
  rooms !! normalizeRoomId raw = Some room ->
  joinRoom (JString raw) options env rooms =
    match roleOf (jo_role options) with
    | host =>
        if tokenRejected (jo_hostToken options) room
        then Throw InvalidHostTokenError rooms
        else Ret (joinResult (normalizeRoomId raw) options env host)
                 (<[normalizeRoomId raw := addParticipant room (newParticipant options env host)]> rooms)
    | guest =>
        Ret (joinResult (normalizeRoomId raw) options env guest)
            (<[normalizeRoomId raw := addParticipant room (newParticipant options env guest)]> rooms)
    end.
Proof.
  intros Hraw Hroom. unfold joinRoom, bind, gets, modify, ret, throw.
  rewrite (trim_length_nonzero _ Hraw), Hroom.
  destruct (roleOf (jo_role options)); [|reflexivity].
  unfold tokenRejected. now destruct (negb _ || negb _).
Qed.

Lemma joinRoom_not_found (rooms : Store) roomIdRaw options env :
  match roomIdRaw with
  | JString raw => trim raw = EmptyString \/ rooms !! normalizeRoomId raw = None
  | _ => True
  end ->
  exists roomId, joinRoom roomIdRaw options env rooms = Throw (RoomNotFoundError roomId) rooms.
Proof.
  intros H. unfold joinRoom, bind, gets, throw.
  destruct roomIdRaw as [| | | |raw| |]; try (eexists; reflexivity).
  destruct (String.length (trim raw) =? 0)%nat eqn:Hlen; [eexists; reflexivity|].
  destruct H as [H|H].
  - rewrite H in Hlen. discriminate.
  - rewrite H. eexists; reflexivity.
Qed.

Lemma joinRoom_missing (rooms : Store) raw options env :
  trim raw <> EmptyString -> rooms !! normalizeRoomId raw = None ->
  joinRoom (JString raw) options env rooms
  = Throw (RoomNotFoundError (JString (normalizeRoomId raw))) rooms.
Proof.
  intros Hraw Hnone. unfold joinRoom, bind, gets, throw.
  now rewrite (trim_length_nonzero _ Hraw), Hnone.
Qed.

Lemma joinRoom_blank (rooms : Store) raw options env :
  trim raw = EmptyString ->
  joinRoom (JString raw) options env rooms = Throw (RoomNotFoundError (JString raw)) rooms.
Proof. intros Hraw. unfold joinRoom, throw. now rewrite Hraw. Qed.

Lemma tokenRejected_iff token room :
  rr_hostToken room <> EmptyString ->
  tokenRejected token room = false <-> token = JString (rr_hostToken room).
Proof.
  intros Hne. unfold tokenRejected. split.
  - intros H. apply orb_false_elim in H as [_ H]. apply negb_false_iff in H.
    destruct token; try discriminate. simpl in H. apply String.eqb_eq in H. now subst.
  - intros ->. simpl. rewrite String.eqb_refl.
    apply String.eqb_neq in Hne. now rewrite Hne.
Qed.

Lemma roleOf_guest v : v <> JString "host" -> roleOf v = guest.
Proof.
  intros Hv. unfold roleOf. destruct v; try reflexivity. simpl.
  destruct (String.eqb s "host") eqn:E; [|reflexivity].
  apply String.eqb_eq in E. congruence.
Qed.

(** ** Casings of a room code *)

(** [recase mask s] writes the character at position [i] of [s] in lower case
    when [mask] says so: every casing of [s] is a [recase mask s]. *)
Fixpoint recase (mask : list bool) (s : string) : string :=
  match s, mask with
  | String c rest, lower :: mask' =>
      String (if lower then lowerChar c else c) (recase mask' rest)
  | _, _ => s
  end.

Lemma recase_noWhiteSpace s : forall mask,
  Forall (fun c => In c alphabetChars) (list_ascii_of_string s) -> noWhiteSpace (recase mask s).
Proof.
  unfold noWhiteSpace. induction s as [|c rest IH]; intros mask H.
  - destruct mask; constructor.
  - inversion H as [|? ? Hc Hrest]; subst.
    destruct (alphabetChars_plain c Hc) as (Hw & _ & _ & Hlw).
    destruct mask as [|lower mask]; simpl.
    + constructor; [exact Hw|]. eapply Forall_impl; [exact Hrest|].
      intros c' Hc'. now apply alphabetChars_plain.
    + constructor; [now destruct lower|]. now apply IH.
Qed.

Lemma recase_toUpperCase s : forall mask,
  Forall (fun c => In c alphabetChars) (list_ascii_of_string s) ->
  toUpperCase (recase mask s) = s.
Proof.
  induction s as [|c rest IH]; intros mask H.
  - now destruct mask.
  - inversion H as [|? ? Hc Hrest]; subst.
    destruct (alphabetChars_plain c Hc) as (_ & Hu & Hlu & _).
    destruct mask as [|lower mask]; simpl.
    + rewrite Hu. f_equal. now apply alphabet_toUpperCase.
    + rewrite (IH mask Hrest). now destruct lower; rewrite ?Hu, ?Hlu.
Qed.

Lemma normalizeRoomId_recase code mask padL padR :
  Forall (fun c => In c alphabetChars) (list_ascii_of_string code) ->
  allWhiteSpace padL -> allWhiteSpace padR ->
  trim (String.append padL (String.append (recase mask code) padR)) = recase mask code
  /\ normalizeRoomId (String.append padL (String.append (recase mask code) padR)) = code.
Proof.
  intros Hcode HL HR.
  assert (Ht : trim (String.append padL (String.append (recase mask code) padR)) = recase mask code).
  { apply trim_padding; [exact HL| |exact HR]. now apply recase_noWhiteSpace. }
  split; [exact Ht|]. unfold normalizeRoomId. rewrite Ht. now apply recase_toUpperCase.
Qed.

Lemma toUpperCase_empty s : toUpperCase s = EmptyString -> s = EmptyString.
Proof. now destruct s. Qed.

(** ** The properties of the ledger *)

(** C2. On an existing room whose token is not the empty string, a [joinRoom]
    with role exactly "host" returns exactly when the supplied token is the
    room's token, storing a host participant; with any other token (another
    string, the empty string, [null], absent) it throws
    [InvalidHostTokenError] and the store is unchanged.  With role "guest",
    [null] or absent the call returns whatever the token is. *)
Theorem joinRoom_host_token (rooms : Store) raw room options env :
  rooms !! normalizeRoomId raw = Some room ->
  trim raw <> EmptyString ->
  rr_hostToken room <> EmptyString ->
  (jo_role options = JString "host" ->
     (returns (joinRoom (JString raw) options env rooms) = true
        <-> jo_hostToken options = JString (rr_hostToken room))
     /\ (jo_hostToken options = JString (rr_hostToken room) ->
           joinRoom (JString raw) options env rooms =
             Ret (joinResult (normalizeRoomId raw) options env host)
                 (<[normalizeRoomId raw := addParticipant room (newParticipant options env host)]> rooms))
     /\ (jo_hostToken options <> JString (rr_hostToken room) ->
           joinRoom (JString raw) options env rooms = Throw InvalidHostTokenError rooms))
  /\ (jo_role options = JString "guest" \/ jo_role options = JUndefined \/ jo_role options = JNull ->
        joinRoom (JString raw) options env rooms =
          Ret (joinResult (normalizeRoomId raw) options env guest)
              (<[normalizeRoomId raw := addParticipant room (newParticipant options env guest)]> rooms)).
Proof.
  intros Hroom Hraw Htoken.
  pose proof (joinRoom_found rooms raw room options env Hraw Hroom) as Hrun.
  pose proof (tokenRejected_iff (jo_hostToken options) room Htoken) as Hiff.
  split.
  - intros Hrole. rewrite Hrole in Hrun. change (roleOf (JString "host")) with host in Hrun.
    destruct (tokenRejected (jo_hostToken options) room) eqn:Hrej; rewrite Hrun.
    + assert (Hne : jo_hostToken options <> JString (rr_hostToken room)).
      { intros Heq. apply Hiff in Heq. discriminate. }
      repeat split; try (intros; congruence). simpl. intros; discriminate.
    + assert (Heq : jo_hostToken options = JString (rr_hostToken room)) by now apply Hiff.
      repeat split; try (intros; congruence).
  - intros Hrole. rewrite Hrun.
    now destruct Hrole as [->| [->| ->]].
Qed.

(** A room whose token were the empty string would accept no host at all:
    the test [!options.hostToken] rejects the empty token before comparing. *)
Remark joinRoom_empty_room_token (rooms : Store) raw room options env :
  rooms !! normalizeRoomId raw = Some room -> trim raw <> EmptyString ->
  rr_hostToken room = EmptyString -> jo_role options = JString "host" ->
  joinRoom (JString raw) options env rooms = Throw InvalidHostTokenError rooms.
Proof.
  intros Hroom Hraw Htoken Hrole.
  rewrite (joinRoom_found rooms raw room options env Hraw Hroom), Hrole.
  change (roleOf (JString "host")) with host.
  unfold tokenRejected. rewrite Htoken.
  destruct (jo_hostToken options) as [| | | |s| |]; simpl; rewrite ?orb_true_r; try reflexivity.
  now destruct (String.eqb s "").
Qed.

Definition exampleRoom : RoomRecord :=
  {| rr_id := "AB23CD"; rr_createdAt := 1000; rr_hostToken := "t1"; rr_participants := JsMap.empty |}.

Definition exampleStore : Store := <["AB23CD" := exampleRoom]> ∅.

Definition exampleEnv : Env := {| random := fun _ _ => 0%N; makeId := "p1"; now := 2000 |}.

Definition hostOptions (token : JsValue) : JoinRoomOptions :=
  {| jo_displayName := JString " Alex "; jo_role := JString "host"; jo_hostToken := token |}.

Lemma joinRoom_host_token_witness :
  returns (joinRoom (JString " ab23cd ") (hostOptions (JString "t1")) exampleEnv exampleStore) = true
  /\ joinRoom (JString " ab23cd ") (hostOptions (JString "")) exampleEnv exampleStore
     = Throw InvalidHostTokenError exampleStore
  /\ joinRoom (JString " ab23cd ") (hostOptions JNull) exampleEnv exampleStore
     = Throw InvalidHostTokenError exampleStore.
Proof.
  assert (Hroom : exampleStore !! normalizeRoomId " ab23cd " = Some exampleRoom) by reflexivity.
  assert (Hraw : trim " ab23cd " <> EmptyString) by discriminate.
  assert (Htoken : rr_hostToken exampleRoom <> EmptyString) by discriminate.
  split; [|split].
  - apply (joinRoom_host_token exampleStore " ab23cd " exampleRoom (hostOptions (JString "t1"))
             exampleEnv Hroom Hraw Htoken); reflexivity.
  - apply (joinRoom_host_token exampleStore " ab23cd " exampleRoom (hostOptions (JString ""))
             exampleEnv Hroom Hraw Htoken); [reflexivity|discriminate].
  - apply (joinRoom_host_token exampleStore " ab23cd " exampleRoom (hostOptions JNull)
             exampleEnv Hroom Hraw Htoken); [reflexivity|discriminate].
Defined.

(** Two runs of [createRoom] on a store that holds "AAAAAA": the first sample
    collides and the second is returned; twenty colliding samples throw. *)
Example createRoom_samples_again :
  let rooms : Store := <["AAAAAA" := freshRoom "AAAAAA" exampleEnv]> ∅ in
  let env := {| random := fun attempts _ => N.of_nat attempts; makeId := "t2"; now := 3000 |} in
  createRoom env rooms
  = Ret {| cr_roomId := "BBBBBB"; cr_hostToken := "t2"; cr_createdAt := 3000 |}
        (<["BBBBBB" := freshRoom "BBBBBB" env]> rooms)
  /\ createRoom exampleEnv rooms = Throw (Error "Failed to allocate a unique room id") rooms.
Proof. split; vm_compute; reflexivity. Qed.

(** C3. Whatever the random source returns, the room codes that a sequence of
    [createRoom] calls on one store returns are pairwise distinct, they are
    room codes (six characters of the alphabet) and none of them was already
    in the store.  A call whose sample collides samples again: it returns the
    first of its twenty samples that is not a key of the store, and when all
    twenty collide it throws the allocation error and stores nothing. *)
Theorem createRoom_ids_distinct :
  (forall (envs : list Env) (rooms : Store),
     let ids := returnedIds (fst (createRooms envs rooms)) in
     NoDup ids /\ forall roomId, roomId ∈ ids -> isRoomCode roomId /\ roomId ∉ dom rooms)
  /\ (forall (env : Env) (rooms : Store) (k : nat),
        (k < 20)%nat ->
        candidate (random env) k ∉ dom rooms ->
        (forall j, (j < k)%nat -> candidate (random env) j ∈ dom rooms) ->
        createRoom env rooms =
          Ret {| cr_roomId := candidate (random env) k; cr_hostToken := makeId env;
                 cr_createdAt := now env |}
              (<[candidate (random env) k := freshRoom (candidate (random env) k) env]> rooms))
  /\ (forall (env : Env) (rooms : Store),
        (forall j, (j < 20)%nat -> candidate (random env) j ∈ dom rooms) ->
        createRoom env rooms = Throw (Error "Failed to allocate a unique room id") rooms).
Proof.
  split; [exact createRooms_spec|]. split.
  - intros env rooms k Hk Hfresh Hbefore.
    pose proof (createRoom_run env rooms) as Hrun.
    pose proof (generateRoomId_loop_spec (dom rooms) (random env) 20 0) as Hgen.
    fold (generateRoomId (dom rooms) (random env)) in Hgen.
    destruct (generateRoomId (dom rooms) (random env)) as [e|roomId].
    + destruct Hgen as [_ Hall]. exfalso. apply Hfresh. now apply (Hall k).
    + destruct Hgen as (k' & Hk' & Hid & Hfresh' & Hbefore'). simpl in *.
      assert (k' = k) as ->.
      { destruct (Nat.lt_trichotomy k' k) as [Hlt|[Heq|Hgt]]; [|exact Heq|].
        - exfalso. apply Hfresh'. rewrite Hid. now apply Hbefore.
        - exfalso. apply Hfresh. now apply Hbefore'. }
      now rewrite Hrun, Hid.
  - intros env rooms Hall.
    pose proof (createRoom_run env rooms) as Hrun.
    pose proof (generateRoomId_loop_spec (dom rooms) (random env) 20 0) as Hgen.
    fold (generateRoomId (dom rooms) (random env)) in Hgen.
    destruct (generateRoomId (dom rooms) (random env)) as [e|roomId].
    + destruct Hgen as [-> _]. exact Hrun.
    + destruct Hgen as (k & Hk & Hid & Hfresh & _). exfalso. apply Hfresh. rewrite Hid.
      now apply Hall.
Qed.

(** C8. A [joinRoom] whose room id is not a string, or is a string whose
    trimmed, upper-cased form is not a key of the store, or is empty once
    trimmed, throws [RoomNotFoundError] and leaves the store as it was.  The
    id reaches the store only through [normalizeRoomId]: two ids with the
    same normal form get the same answer, and every casing of the code of an
    existing room, with white space around it or not, finds that room. *)
Theorem joinRoom_room_not_found :
  (forall (rooms : Store) roomIdRaw options env,
     match roomIdRaw with
     | JString raw => rooms !! normalizeRoomId raw = None \/ trim raw = EmptyString
     | _ => True
     end ->
     exists roomId, joinRoom roomIdRaw options env rooms = Throw (RoomNotFoundError roomId) rooms)
  /\ (forall (rooms : Store) raw raw' options env,
        normalizeRoomId raw = normalizeRoomId raw' ->
        trim raw <> EmptyString -> trim raw' <> EmptyString ->
        joinRoom (JString raw) options env rooms = joinRoom (JString raw') options env rooms)
  /\ (forall (rooms : Store) code room mask padL padR options env,
        rooms !! code = Some room -> isRoomCode code ->
        allWhiteSpace padL -> allWhiteSpace padR ->
        joinRoom (JString (String.append padL (String.append (recase mask code) padR))) options env rooms
        = joinRoom (JString code) options env rooms
        /\ forall roomId, joinRoom (JString code) options env rooms
                          <> Throw (RoomNotFoundError roomId) rooms).
Proof.
  split; [|split].
  - intros rooms roomIdRaw options env H. apply joinRoom_not_found.
    destruct roomIdRaw; try exact I. tauto.
  - intros rooms raw raw' options env Hnorm Hraw Hraw'.
    destruct (rooms !! normalizeRoomId raw) as [room|] eqn:Hroom.
    + rewrite (joinRoom_found rooms raw room options env Hraw Hroom).
      rewrite Hnorm in Hroom.
      now rewrite (joinRoom_found rooms raw' room options env Hraw' Hroom), Hnorm.
    + rewrite (joinRoom_missing rooms raw options env Hraw Hroom).
      rewrite Hnorm in Hroom.
      now rewrite (joinRoom_missing rooms raw' options env Hraw' Hroom), Hnorm.
  - intros rooms code room mask padL padR options env Hroom [Hlen Hcode] HL HR.
    destruct (normalizeRoomId_recase code mask padL padR Hcode HL HR) as [Htrim Hnorm].
    assert (Hne : code <> EmptyString) by (intros ->; discriminate).
    assert (Hraw : trim (String.append padL (String.append (recase mask code) padR)) <> EmptyString).
    { intros Hempty. apply Hne. rewrite <- Hnorm. unfold normalizeRoomId. now rewrite Hempty. }
    assert (Hcodenorm : normalizeRoomId code = code) by now apply normalizeRoomId_code.
    assert (Hcodetrim : trim code <> EmptyString).
    { rewrite (trim_noWhiteSpace _ (alphabet_noWhiteSpace _ Hcode)). exact Hne. }
    assert (Hroom' := Hroom). rewrite <- Hnorm in Hroom. rewrite <- Hcodenorm in Hroom'.
    rewrite (joinRoom_found rooms _ room options env Hraw Hroom).
    rewrite (joinRoom_found rooms _ room options env Hcodetrim Hroom').
    rewrite Hnorm, Hcodenorm. split; [reflexivity|].
    intros roomId. destruct (roleOf (jo_role options)); [|discriminate].
    destruct (tokenRejected (jo_hostToken options) room); discriminate.
Qed.

(** The ids "ab23cd", " Ab23Cd " and "AB23CD" name one room; "zzzzzz", the
    empty id and a number name none. *)
Example joinRoom_casings :
  let guestOptions := {| jo_displayName := JNull; jo_role := JNull; jo_hostToken := JNull |} in
  joinRoom (JString "ab23cd") guestOptions exampleEnv exampleStore
  = joinRoom (JString "AB23CD") guestOptions exampleEnv exampleStore
  /\ joinRoom (JString " Ab23Cd ") guestOptions exampleEnv exampleStore
     = joinRoom (JString "AB23CD") guestOptions exampleEnv exampleStore
  /\ returns (joinRoom (JString "AB23CD") guestOptions exampleEnv exampleStore) = true
  /\ joinRoom (JString "zzzzzz") guestOptions exampleEnv exampleStore
     = Throw (RoomNotFoundError (JString "ZZZZZZ")) exampleStore
  /\ joinRoom (JString "") guestOptions exampleEnv exampleStore
     = Throw (RoomNotFoundError (JString "")) exampleStore
  /\ joinRoom (JNumber PrimFloat.one) guestOptions exampleEnv exampleStore
     = Throw (RoomNotFoundError (JNumber PrimFloat.one)) exampleStore.
Proof. repeat split; vm_compute; reflexivity. Qed.

(** C10. On an existing room, a [joinRoom] whose role option is anything but
    the string "host" ([null], absent, "admin", a number, ...) does not look
    at the host token: whatever the token is, the call returns, and the
    participant it stores has the role [guest]. *)
Theorem joinRoom_other_role_is_guest (rooms : Store) raw room options env :
  rooms !! normalizeRoomId raw = Some room ->
  trim raw <> EmptyString ->
  jo_role options <> JString "host" ->
  exists rooms' room',
    joinRoom (JString raw) options env rooms
      = Ret (joinResult (normalizeRoomId raw) options env guest) rooms'
    /\ rooms' = <[normalizeRoomId raw := room']> rooms
    /\ room' = addParticipant room (newParticipant options env guest)
    /\ JsMap.get (makeId env) (rr_participants room') = Some (newParticipant options env guest)
    /\ rp_role (newParticipant options env guest) = guest.
Proof.
  intros Hroom Hraw Hrole. do 2 eexists.
  rewrite (joinRoom_found rooms raw room options env Hraw Hroom), (roleOf_guest _ Hrole).
  repeat split. simpl. apply JsMap.get_set_eq.
Qed.

Definition adminOptions : JoinRoomOptions :=
  {| jo_displayName := JUndefined; jo_role := JString "admin"; jo_hostToken := JString "wrong" |}.

Lemma joinRoom_other_role_is_guest_witness :
  exists rooms' room',
    joinRoom (JString "AB23CD") adminOptions exampleEnv exampleStore
      = Ret (joinResult "AB23CD" adminOptions exampleEnv guest) rooms'
    /\ rooms' = <["AB23CD" := room']> exampleStore
    /\ room' = addParticipant exampleRoom (newParticipant adminOptions exampleEnv guest)
    /\ JsMap.get "p1" (rr_participants room') = Some (newParticipant adminOptions exampleEnv guest)
    /\ rp_role (newParticipant adminOptions exampleEnv guest) = guest.
Proof.
  apply (joinRoom_other_role_is_guest exampleStore "AB23CD" exampleRoom adminOptions exampleEnv).
  - reflexivity.
  - discriminate.
  - discriminate.
Defined.

(** * The rest of the ledger: lookups, and what every call keeps *)

Record RoomSummary : Type := {
  rs_roomId : string;
  rs_createdAt : Z;
  rs_participants : list RoomParticipant;
}.

(** The copy that [getRoomSummary] makes of a participant. *)
Definition copyParticipant (participant : RoomParticipant) : RoomParticipant :=
  {| rp_participantId := rp_participantId participant;
     rp_displayName := rp_displayName participant;
     rp_role := rp_role participant;
     rp_joinedAt := rp_joinedAt participant |}.

Definition getRoomSummary (roomIdRaw : string) : M Store RoomSummary :=
  let roomId := normalizeRoomId roomIdRaw in
  found <- gets (fun rooms : Store => rooms !! roomId) ;;
  match found with
  | None => throw (RoomNotFoundError (JString roomId))
  | Some room =>
      ret {| rs_roomId := roomId; rs_createdAt := rr_createdAt room;
             rs_participants := map copyParticipant (JsMap.values (rr_participants room)) |}
  end.

Definition hasRoom (roomIdRaw : JsValue) : M Store bool :=
  match roomIdRaw with
  | JString raw =>
      let roomId := normalizeRoomId raw in
      gets (fun rooms : Store => bool_decide (is_Some (rooms !! roomId)))
  | _ => ret false
  end.

(** [this.#rooms.get(roomId) ?? null] *)
Definition inspectRoom (roomIdRaw : string) : M Store (option RoomRecord) :=
  let roomId := normalizeRoomId roomIdRaw in
  gets (fun rooms : Store => rooms !! roomId).

(** ** The stores that calls can build *)

Inductive Call : Type :=
| CreateRoom (env : Env)
| JoinRoom (roomIdRaw : JsValue) (options : JoinRoomOptions) (env : Env).

(** The store after a call, whether it returned or threw. *)
Definition perform (c : Call) (rooms : Store) : Store :=
  match c with
  | CreateRoom env => state_of (createRoom env rooms)
  | JoinRoom roomIdRaw options env => state_of (joinRoom roomIdRaw options env rooms)
  end.

(** The stores of a process: the empty store of the constructor, and what
    any sequence of [createRoom] and [joinRoom] calls makes of it. *)
Inductive built : Store -> Prop :=
| built_new : built ∅
| built_call rooms c : built rooms -> built (perform c rooms).

Fixpoint performAll (calls : list Call) (rooms : Store) : Store :=
  match calls with
  | [] => rooms
  | c :: rest => performAll rest (perform c rooms)
  end.

Lemma performAll_built calls : forall rooms : Store, built rooms -> built (performAll calls rooms).
Proof.
  induction calls as [|c rest IH]; intros rooms H; simpl; [exact H|].
  apply IH. now constructor.
Qed.

(** What every built store satisfies: a room is stored under its own id,
    which is a room code, and a participant under its own id, once. *)
Record StoreInv (rooms : Store) : Prop := {
  sinv_id : forall k room, rooms !! k = Some room -> rr_id room = k;
  sinv_code : forall k room, rooms !! k = Some room -> isRoomCode k;
  sinv_keys : forall k room, rooms !! k = Some room -> NoDup (JsMap.keys (rr_participants room));
  sinv_participant : forall k room pid p,
    rooms !! k = Some room -> JsMap.get pid (rr_participants room) = Some p ->
    rp_participantId p = pid;
}.

Lemma joinRoom_state (rooms : Store) roomIdRaw options env :
  state_of (joinRoom roomIdRaw options env rooms) = rooms
  \/ exists raw room role,
       roomIdRaw = JString raw /\ trim raw <> EmptyString
       /\ rooms !! normalizeRoomId raw = Some room
       /\ joinRoom roomIdRaw options env rooms
          = Ret (joinResult (normalizeRoomId raw) options env role)
                (<[normalizeRoomId raw := addParticipant room (newParticipant options env role)]> rooms).
Proof.
  destruct roomIdRaw as [| | | |raw| |]; try (left; reflexivity).
  destruct (decide (trim raw = EmptyString)) as [Hblank|Hraw].
  { left. now rewrite joinRoom_blank. }
  destruct (rooms !! normalizeRoomId raw) as [room|] eqn:Hroom.
  2:{ left. now rewrite joinRoom_missing. }
  rewrite (joinRoom_found rooms raw room options env Hraw Hroom).
  destruct (roleOf (jo_role options)).
  - destruct (tokenRejected (jo_hostToken options) room); [now left|].
    right. exists raw, room, host. repeat split; assumption.
  - right. exists raw, room, guest. repeat split; assumption.
Qed.

Lemma createRoom_state env (rooms : Store) :
  state_of (createRoom env rooms) = rooms
  \/ exists roomId,
       isRoomCode roomId /\ rooms !! roomId = None
       /\ createRoom env rooms
          = Ret {| cr_roomId := roomId; cr_hostToken := makeId env; cr_createdAt := now env |}
                (<[roomId := freshRoom roomId env]> rooms).
Proof.
  pose proof (createRoom_run env rooms) as Hrun.
  destruct (generateRoomId (dom rooms) (random env)) as [e|roomId].
  - left. now rewrite Hrun.
  - right. exists roomId.
    destruct (createRoom_returns _ _ _ _ Hrun) as (Hcode & Hfresh & _). simpl in *.
    split; [exact Hcode|]. split; [now apply not_elem_of_dom|exact Hrun].
Qed.

Lemma StoreInv_perform c (rooms : Store) : StoreInv rooms -> StoreInv (perform c rooms).
Proof.
  intros HI. destruct c as [env|roomIdRaw options env]; simpl.
  - destruct (createRoom_state env rooms) as [->|(roomId & Hcode & Hfresh & ->)]; [exact HI|].
    simpl. destruct HI as [H1 H2 H3 H4]. constructor.
    + intros k room Hk. apply lookup_insert_Some in Hk as [[<- <-]|[_ Hk]]; [reflexivity|].
      now apply H1.
    + intros k room Hk. apply lookup_insert_Some in Hk as [[<- <-]|[_ Hk]]; [exact Hcode|].
      now apply (H2 k room).
    + intros k room Hk. apply lookup_insert_Some in Hk as [[<- <-]|[_ Hk]]; [constructor|].
      now apply (H3 k).
    + intros k room pid p Hk. apply lookup_insert_Some in Hk as [[<- <-]|[_ Hk]];
        [discriminate|]. now apply (H4 k room).
  - destruct (joinRoom_state rooms roomIdRaw options env)
      as [->|(raw & room & role & -> & Hraw & Hroom & ->)]; [exact HI|].
    simpl. destruct HI as [H1 H2 H3 H4]. constructor.
    + intros k room' Hk. apply lookup_insert_Some in Hk as [[<- <-]|[_ Hk]]; [|now apply H1].
      simpl. now apply H1.
    + intros k room' Hk. apply lookup_insert_Some in Hk as [[<- <-]|[_ Hk]];
        [now apply (H2 (normalizeRoomId raw) room)|now apply (H2 k room')].
    + intros k room' Hk. apply lookup_insert_Some in Hk as [[<- <-]|[_ Hk]]; [|now apply (H3 k)].
      simpl. apply JsMap.NoDup_keys_set. now apply (H3 (normalizeRoomId raw) room Hroom).
    + intros k room' pid p Hk. apply lookup_insert_Some in Hk as [[<- <-]|[_ Hk]];
        [|now apply (H4 k room')].
      simpl. destruct (String.eqb_spec (makeId env) pid) as [<-|Hne].
      * rewrite JsMap.get_set_eq. now intros [= <-].
      * rewrite JsMap.get_set_ne by exact Hne. now apply (H4 (normalizeRoomId raw) room).
Qed.

Lemma built_StoreInv (rooms : Store) : built rooms -> StoreInv rooms.
Proof.
  induction 1 as [|rooms c Hbuilt IH].
  - constructor; intros *; rewrite lookup_empty; discriminate.
  - now apply StoreInv_perform.
Qed.

(** ** Nothing is ever removed from the ledger *)

(** [room'] is [room] later on: the same id, creation time and token, and
    the same participants in the same order, followed by those who joined
    since (a participant may have been replaced by one of the same id). *)
Definition grownFrom (room room' : RoomRecord) : Prop :=
  rr_id room' = rr_id room
  /\ rr_createdAt room' = rr_createdAt room
  /\ rr_hostToken room' = rr_hostToken room
  /\ exists later, JsMap.keys (rr_participants room')
                   = JsMap.keys (rr_participants room) ++ later.

Lemma grownFrom_refl room : grownFrom room room.
Proof. repeat split. exists []. now rewrite app_nil_r. Qed.

Lemma grownFrom_trans room1 room2 room3 :
  grownFrom room1 room2 -> grownFrom room2 room3 -> grownFrom room1 room3.
Proof.
  intros (Hi & Hc & Ht & l1 & Hk) (Hi' & Hc' & Ht' & l2 & Hk').
  repeat split; try congruence. exists (l1 ++ l2). now rewrite Hk', Hk, app_assoc.
Qed.

Lemma grownFrom_addParticipant room participant :
  grownFrom room (addParticipant room participant).
Proof.
  repeat split. simpl. rewrite JsMap.keys_set.
  destruct (JsMap.get (rp_participantId participant) (rr_participants room)).
  - exists []. now rewrite app_nil_r.
  - now exists [rp_participantId participant].
Qed.

Lemma perform_keeps c (rooms : Store) k room :
  rooms !! k = Some room ->
  exists room', perform c rooms !! k = Some room' /\ grownFrom room room'.
Proof.
  intros Hk. destruct c as [env|roomIdRaw options env]; simpl.
  - destruct (createRoom_state env rooms) as [->|(roomId & _ & Hfresh & ->)].
    + exists room. split; [exact Hk|apply grownFrom_refl].
    + exists room. split; [|apply grownFrom_refl]. simpl.
      rewrite lookup_insert_ne; [exact Hk|]. intros ->. congruence.
  - destruct (joinRoom_state rooms roomIdRaw options env)
      as [->|(raw & target & role & -> & Hraw & Hroom & ->)].
    + exists room. split; [exact Hk|apply grownFrom_refl].
    + simpl. destruct (decide (normalizeRoomId raw = k)) as [<-|Hne].
      * rewrite lookup_insert_eq. eexists. split; [reflexivity|].
        assert (target = room) as -> by congruence. apply grownFrom_addParticipant.
      * rewrite lookup_insert_ne by exact Hne. exists room.
        split; [exact Hk|apply grownFrom_refl].
Qed.

(** Whatever calls follow, with whatever arguments and whatever the runtime
    returns, a room of the store stays in the store under its code, with the
    id, the creation time and the host token it had, and with its
    participants in the order they had, the later ones after them: no call
    removes or replaces a room, and none removes or reorders a participant. *)
Theorem ledger_never_forgets calls : forall (rooms : Store) k room,
  rooms !! k = Some room ->
  exists room', performAll calls rooms !! k = Some room' /\ grownFrom room room'.
Proof.
  induction calls as [|c rest IH]; intros rooms k room Hk; simpl.
  - exists room. split; [exact Hk|apply grownFrom_refl].
  - destruct (perform_keeps c rooms k room Hk) as (room1 & Hk1 & Hgrow1).
    destruct (IH _ k room1 Hk1) as (room2 & Hk2 & Hgrow2).
    exists room2. split; [exact Hk2|]. now apply (grownFrom_trans room room1 room2).
Qed.

Definition guestOptions : JoinRoomOptions :=
  {| jo_displayName := JString "Sam"; jo_role := JUndefined; jo_hostToken := JUndefined |}.

Definition collidingEnv : Env :=
  {| random := fun _ _ => 12%N; makeId := "p2"; now := 4000 |}.

Lemma ledger_never_forgets_witness :
  exists room',
    performAll [JoinRoom (JString "ab23cd") guestOptions exampleEnv;
                CreateRoom collidingEnv;
                JoinRoom (JString "AB23CD ") (hostOptions (JString "t1")) collidingEnv;
                JoinRoom (JString "AB23CD") (hostOptions (JString "guess")) exampleEnv]
      exampleStore !! "AB23CD" = Some room'
    /\ grownFrom exampleRoom room'.
Proof. apply (ledger_never_forgets _ exampleStore "AB23CD" exampleRoom). reflexivity. Defined.

(** ** The lookups agree *)

Lemma getRoomSummary_run (rooms : Store) raw :
  getRoomSummary raw rooms
  = match rooms !! normalizeRoomId raw with
    | Some room =>
        Ret {| rs_roomId := normalizeRoomId raw; rs_createdAt := rr_createdAt room;
               rs_participants := map copyParticipant (JsMap.values (rr_participants room)) |}
            rooms
    | None => Throw (RoomNotFoundError (JString (normalizeRoomId raw))) rooms
    end.
Proof.
  unfold getRoomSummary, bind, gets, ret, throw. now destruct (rooms !! normalizeRoomId raw).
Qed.

Lemma built_no_blank_key (rooms : Store) raw :
  built rooms -> trim raw = EmptyString -> rooms !! normalizeRoomId raw = None.
Proof.
  intros Hbuilt Hblank. unfold normalizeRoomId. rewrite Hblank. simpl.
  destruct (rooms !! EmptyString) as [room|] eqn:Hk; [|reflexivity].
  destruct (sinv_code rooms (built_StoreInv rooms Hbuilt) _ _ Hk) as [Hlen _]. discriminate.
Qed.

(** In a store that calls have built, the four ways of looking a room up
    agree on every string, in every casing: [hasRoom] is true exactly when
    [getRoomSummary] returns, when [inspectRoom] is not [null], and when
    [joinRoom] does not throw [RoomNotFoundError]; and [hasRoom] is false on
    what is not a string.  No lookup changes the store. *)
Theorem lookups_agree (rooms : Store) :
  built rooms ->
  (forall v, (forall s, v <> JString s) -> hasRoom v rooms = Ret false rooms)
  /\ forall raw, exists found : bool,
       hasRoom (JString raw) rooms = Ret found rooms
       /\ (found = true <-> exists summary, getRoomSummary raw rooms = Ret summary rooms)
       /\ (found = false <-> exists roomId,
             getRoomSummary raw rooms = Throw (RoomNotFoundError roomId) rooms)
       /\ (found = true <-> exists room, inspectRoom raw rooms = Ret (Some room) rooms)
       /\ (forall options env,
             found = false <-> exists roomId,
               joinRoom (JString raw) options env rooms = Throw (RoomNotFoundError roomId) rooms).
Proof.
  intros Hbuilt. split.
  { intros v Hv. destruct v; try reflexivity. now destruct (Hv s). }
  intros raw. exists (bool_decide (is_Some (rooms !! normalizeRoomId raw))).
  split; [reflexivity|]. rewrite getRoomSummary_run. unfold inspectRoom, gets.
  destruct (rooms !! normalizeRoomId raw) as [room|] eqn:Hroom.
  - rewrite bool_decide_eq_true_2 by eauto.
    split; [split; eauto|]. split; [split; [discriminate|intros [? ?]; discriminate]|].
    split; [split; eauto|].
    intros options env. split; [discriminate|]. intros [roomId Hthrow]. exfalso.
    assert (Hraw : trim raw <> EmptyString).
    { intros Hblank. rewrite (built_no_blank_key rooms raw Hbuilt Hblank) in Hroom. discriminate. }
    rewrite (joinRoom_found rooms raw room options env Hraw Hroom) in Hthrow.
    destruct (roleOf (jo_role options)); [|discriminate].
    destruct (tokenRejected (jo_hostToken options) room); discriminate.
  - rewrite bool_decide_eq_false_2 by (intros [? ?]; discriminate).
    split; [split; [discriminate|intros [? ?]; discriminate]|].
    split; [split; eauto|]. split; [split; [discriminate|intros [? [=]]]|].
    intros options env. split; [|reflexivity]. intros _.
    apply joinRoom_not_found. now right.
Qed.

Definition builtExample : Store :=
  performAll [CreateRoom exampleEnv; JoinRoom (JString "aaaaaa") guestOptions exampleEnv] ∅.

Lemma builtExample_built : built builtExample.
Proof. apply performAll_built. constructor. Qed.

Lemma lookups_agree_witness :
  (forall v, (forall s, v <> JString s) -> hasRoom v builtExample = Ret false builtExample)
  /\ forall raw, exists found : bool,
       hasRoom (JString raw) builtExample = Ret found builtExample
       /\ (found = true <-> exists summary, getRoomSummary raw builtExample = Ret summary builtExample)
       /\ (found = false <-> exists roomId,
             getRoomSummary raw builtExample = Throw (RoomNotFoundError roomId) builtExample)
       /\ (found = true <-> exists room, inspectRoom raw builtExample = Ret (Some room) builtExample)
       /\ (forall options env,
             found = false <-> exists roomId,
               joinRoom (JString raw) options env builtExample
               = Throw (RoomNotFoundError roomId) builtExample).
Proof. apply (lookups_agree builtExample). exact builtExample_built. Defined.

(** Outside the built stores the lookups can disagree: were a room stored
    under the empty code, [hasRoom] would find it for a blank id that
    [joinRoom] refuses. *)
Example lookups_disagree_on_blank_key :
  let rooms : Store := <["" := freshRoom "" exampleEnv]> ∅ in
  hasRoom (JString " ") rooms = Ret true rooms
  /\ joinRoom (JString " ") guestOptions exampleEnv rooms
     = Throw (RoomNotFoundError (JString " ")) rooms.
Proof. split; vm_compute; reflexivity. Qed.

(** ** The roster that [getRoomSummary] returns *)

(** The participants of a room as [getRoomSummary] lists them. *)
Definition roster (room : RoomRecord) : list RoomParticipant :=
  map copyParticipant (JsMap.values (rr_participants room)).

Lemma copyParticipant_id p : copyParticipant p = p.
Proof. now destruct p. Qed.

Lemma values_set_new {V : Type} k (v : V) (m : JsMap.t V) :
  JsMap.get k m = None -> JsMap.values (JsMap.set k v m) = JsMap.values m ++ [v].
Proof.
  unfold JsMap.values. induction m as [|[k' v'] rest IH]; simpl; [reflexivity|].
  destruct (String.eqb k' k); [discriminate|]. intros H. simpl. now rewrite IH.
Qed.

Lemma values_set_old {V : Type} k (v old : V) (m : JsMap.t V) :
  JsMap.get k m = Some old ->
  exists before after,
    JsMap.values m = before ++ old :: after
    /\ JsMap.values (JsMap.set k v m) = before ++ v :: after.
Proof.
  unfold JsMap.values. induction m as [|[k' v'] rest IH]; simpl; [discriminate|].
  destruct (String.eqb k' k).
  - intros [= ->]. now exists [], (map snd rest).
  - intros H. destruct (IH H) as (before & after & H1 & H2).
    exists (v' :: before), after. simpl. now rewrite H1, H2.
Qed.

(** After a [joinRoom] that returned, [getRoomSummary] of the same id
    returns the creation time of the room and a roster that holds the new
    participant with the id, role, display name and time that [joinRoom]
    returned.  When the new id was not in the room, the roster is the roster
    of before followed by the new participant: the roster is in join order.
    When [makeId] repeated the id of a participant, the new participant takes
    the place of that one and the roster keeps its length. *)
Theorem summary_after_join (rooms rooms' : Store) raw room options env result :
  rooms !! normalizeRoomId raw = Some room ->
  joinRoom (JString raw) options env rooms = Ret result rooms' ->
  let joiner := {| rp_participantId := jr_participantId result;
                   rp_displayName := jr_displayName result;
                   rp_role := jr_role result; rp_joinedAt := jr_joinedAt result |} in
  exists summary,
    getRoomSummary raw rooms' = Ret summary rooms'
    /\ rs_roomId summary = jr_roomId result
    /\ rs_createdAt summary = rr_createdAt room
    /\ In joiner (rs_participants summary)
    /\ (JsMap.get (jr_participantId result) (rr_participants room) = None ->
          rs_participants summary = roster room ++ [joiner])
    /\ (forall old, JsMap.get (jr_participantId result) (rr_participants room) = Some old ->
          exists before after,
            roster room = before ++ old :: after
            /\ rs_participants summary = before ++ joiner :: after).
Proof.
  intros Hroom Hjoin. cbv zeta.
  assert (Hraw : trim raw <> EmptyString).
  { intros Hblank. rewrite (joinRoom_blank rooms raw options env Hblank) in Hjoin. discriminate. }
  rewrite (joinRoom_found rooms raw room options env Hraw Hroom) in Hjoin.
  assert (Hres : exists role,
            result = joinResult (normalizeRoomId raw) options env role
            /\ rooms' = <[normalizeRoomId raw :=
                           addParticipant room (newParticipant options env role)]> rooms).
  { destruct (roleOf (jo_role options)).
    - destruct (tokenRejected (jo_hostToken options) room); [discriminate|].
      injection Hjoin as <- <-. now exists host.
    - injection Hjoin as <- <-. now exists guest. }
  destruct Hres as (role & -> & ->). clear Hjoin. simpl.
  change {| rp_participantId := makeId env;
            rp_displayName := trimmedOrNull (jo_displayName options);
            rp_role := role; rp_joinedAt := now env |} with (newParticipant options env role).
  rewrite getRoomSummary_run, lookup_insert_eq. eexists. split; [reflexivity|]. simpl.
  split; [reflexivity|]. split; [reflexivity|].
  unfold roster. rewrite !(map_ext _ _ copyParticipant_id), !map_id.
  split; [|split].
  - apply in_map_iff. exists (makeId env, newParticipant options env role).
    split; [reflexivity|]. apply JsMap.get_Some_In. apply JsMap.get_set_eq.
  - intros Hnew. now apply values_set_new.
  - intros old Hold. now apply values_set_old.
Qed.

Lemma summary_after_join_witness :
  exists summary,
    getRoomSummary " ab23cd"
      (state_of (joinRoom (JString "AB23CD") guestOptions exampleEnv exampleStore))
    = Ret summary (state_of (joinRoom (JString "AB23CD") guestOptions exampleEnv exampleStore))
    /\ rs_roomId summary = "AB23CD"
    /\ rs_createdAt summary = 1000%Z
    /\ rs_participants summary
       = [{| rp_participantId := "p1"; rp_displayName := Some "Sam"; rp_role := guest;
             rp_joinedAt := 2000 |}].
Proof.
  destruct (summary_after_join exampleStore
              (state_of (joinRoom (JString "AB23CD") guestOptions exampleEnv exampleStore))
              " ab23cd" exampleRoom guestOptions exampleEnv
              (joinResult "AB23CD" guestOptions exampleEnv guest) eq_refl eq_refl)
    as (summary & Hget & Hid & Hat & _ & Hnew & _).
  exists summary. split; [exact Hget|]. split; [exact Hid|]. split; [exact Hat|].
  now rewrite (Hnew eq_refl).
Defined.

(** ** From [createRoom] to [joinRoom] *)

(** What [createRoom] returns opens the room it made: in the store it
    leaves, the code it returned names a room in every casing, with the
    creation time it returned and nobody in it; joining that room as host
    with the token it returned returns a host, and with any other token
    throws [InvalidHostTokenError] and stores nothing.  ([makeId] is taken to
    return a token that is not empty.) *)
Theorem create_then_join env (rooms rooms' : Store) created mask padL padR :
  createRoom env rooms = Ret created rooms' ->
  makeId env <> EmptyString ->
  allWhiteSpace padL -> allWhiteSpace padR ->
  let given := String.append padL (String.append (recase mask (cr_roomId created)) padR) in
  getRoomSummary given rooms'
  = Ret {| rs_roomId := cr_roomId created; rs_createdAt := cr_createdAt created;
           rs_participants := [] |} rooms'
  /\ hasRoom (JString given) rooms' = Ret true rooms'
  /\ forall options env',
       jo_role options = JString "host" ->
       (jo_hostToken options = JString (cr_hostToken created) ->
          exists result rooms'',
            joinRoom (JString given) options env' rooms' = Ret result rooms''
            /\ jr_roomId result = cr_roomId created /\ jr_role result = host)
       /\ (jo_hostToken options <> JString (cr_hostToken created) ->
             joinRoom (JString given) options env' rooms' = Throw InvalidHostTokenError rooms').
Proof.
  intros Hcreate Htoken HL HR. cbv zeta.
  destruct (createRoom_returns _ _ _ _ Hcreate) as ([Hlen Hcode] & _ & _).
  pose proof (createRoom_run env rooms) as Hrun.
  destruct (generateRoomId (dom rooms) (random env)) as [e|roomId];
    rewrite Hrun in Hcreate; [discriminate|].
  injection Hcreate as <- <-. cbn [cr_roomId cr_hostToken cr_createdAt] in *.
  destruct (normalizeRoomId_recase roomId mask padL padR Hcode HL HR) as [Htrim Hnorm].
  set (given := String.append padL (String.append (recase mask roomId) padR)) in *.
  assert (Hroom : (<[roomId := freshRoom roomId env]> rooms) !! normalizeRoomId given
                  = Some (freshRoom roomId env)).
  { rewrite Hnorm. apply lookup_insert_eq. }
  assert (Hraw : trim given <> EmptyString).
  { rewrite Htrim. intros Hempty.
    assert (Hup : toUpperCase (recase mask roomId) = roomId) by now apply recase_toUpperCase.
    rewrite Hempty in Hup. simpl in Hup. rewrite <- Hup in Hlen. discriminate Hlen. }
  split; [|split].
  - now rewrite getRoomSummary_run, Hroom, Hnorm.
  - unfold hasRoom, gets. rewrite Hroom. now rewrite bool_decide_eq_true_2 by eauto.
  - intros options env' Hrole.
    rewrite (joinRoom_found _ given _ options env' Hraw Hroom), Hrole.
    change (roleOf (JString "host")) with host.
    pose proof (tokenRejected_iff (jo_hostToken options) (freshRoom roomId env) Htoken) as Hiff.
    simpl in Hiff. split.
    + intros Hgiven. apply Hiff in Hgiven. rewrite Hgiven. do 2 eexists.
      split; [reflexivity|]. simpl. now rewrite Hnorm.
    + intros Hother. destruct (tokenRejected (jo_hostToken options) (freshRoom roomId env)) eqn:E;
        [reflexivity|]. exfalso. apply Hother. now apply Hiff.
Qed.

Lemma create_then_join_witness :
  let rooms' := state_of (createRoom collidingEnv exampleStore) in
  getRoomSummary " pppppp " rooms'
  = Ret {| rs_roomId := "PPPPPP"; rs_createdAt := 4000; rs_participants := [] |} rooms'
  /\ hasRoom (JString " pppppp ") rooms' = Ret true rooms'
  /\ forall options env',
       jo_role options = JString "host" ->
       (jo_hostToken options = JString "p2" ->
          exists result rooms'',
            joinRoom (JString " pppppp ") options env' rooms' = Ret result rooms''
            /\ jr_roomId result = "PPPPPP" /\ jr_role result = host)
       /\ (jo_hostToken options <> JString "p2" ->
             joinRoom (JString " pppppp ") options env' rooms' = Throw InvalidHostTokenError rooms').
Proof.
  apply (create_then_join collidingEnv exampleStore
           (state_of (createRoom collidingEnv exampleStore))
           {| cr_roomId := "PPPPPP"; cr_hostToken := "p2"; cr_createdAt := 4000 |}
           [true; true; true; true; true; true] " " " ").
  - reflexivity.
  - discriminate.
  - repeat constructor.
  - repeat constructor.
Defined.

End MemoryStore.

(** * The real-time hub: the WebSocket part of [index.ts] *)

Module Index.

Local Open Scope js_scope.

(** A socket ([WSContext<WebSocket>]) is known by the handle that the
    transport gave it; a session object by its address in the heap. *)
Definition Socket : Type := nat.
Definition Ref : Type := nat.

Record ParticipantSummary : Type := {
  ps_clientId : string;
  ps_displayName : option string;
  ps_role : ParticipantRole;
}.

Inductive OutgoingServerMessage : Type :=
| WelcomeEvent (clientId : string)
| RoomStateEvent (participants : list ParticipantSummary)
| UserJoinedEvent (participant : ParticipantSummary)
| UserLeftEvent (clientId : string)
| SignalRelayEvent (from : string) (payload : JsValue)
| ChatEvent (clientId text messageId : string) (timestamp : Z).

Record ClientSession : Type := {
  id : string;
  socket : Socket;
  roomId : option string;
  displayName : option string;
  role : ParticipantRole;
}.

(** The two global maps and the session objects they share.  [sessions] and
    the rooms of [activeRooms] hold references into [heap]: a write to a
    session is seen through every map that holds it.  [next] is the first
    address not yet given out.  [wire] lists, oldest first, the frames that
    [socket.send] accepted. *)
Record World : Type := {
  heap : Ref -> ClientSession;
  next : Ref;
  sessions : gmap string Ref;
  activeRooms : gmap string (JsMap.t Ref);
  wire : list (Socket * OutgoingServerMessage);
}.

Inductive ReadyState : Type := CONNECTING | OPEN | CLOSING | CLOSED.

(** What a handler reads from the runtime while it runs: the state of every
    socket, whether [socket.send] throws on it, the result of [makeId()] and
    of [Date.now()]. *)
Record Runtime : Type := {
  readyState : Socket -> ReadyState;
  sendThrows : Socket -> bool;
  makeId : string;
  now : Z;
}.

Definition with_heap (h : Ref -> ClientSession) (w : World) : World :=
  {| heap := h; next := next w; sessions := sessions w; activeRooms := activeRooms w;
     wire := wire w |}.

Definition with_sessions (m : gmap string Ref) (w : World) : World :=
  {| heap := heap w; next := next w; sessions := m; activeRooms := activeRooms w;
     wire := wire w |}.

Definition with_activeRooms (m : gmap string (JsMap.t Ref)) (w : World) : World :=
  {| heap := heap w; next := next w; sessions := sessions w; activeRooms := m;
     wire := wire w |}.

(** Frames appended to the wire. *)
Definition emit (frames : list (Socket * OutgoingServerMessage)) (w : World) : World :=
  {| heap := heap w; next := next w; sessions := sessions w; activeRooms := activeRooms w;
     wire := wire w ++ frames |}.

(** A write to the object at [r]. *)
Definition store (r : Ref) (f : ClientSession -> ClientSession) (h : Ref -> ClientSession)
    : Ref -> ClientSession :=
  fun r' => if Nat.eqb r' r then f (h r') else h r'.

Definition set_roomId (v : option string) (s : ClientSession) : ClientSession :=
  {| id := id s; socket := socket s; roomId := v; displayName := displayName s; role := role s |}.

Definition set_displayName (v : option string) (s : ClientSession) : ClientSession :=
  {| id := id s; socket := socket s; roomId := roomId s; displayName := v; role := role s |}.

Definition set_role (v : ParticipantRole) (s : ClientSession) : ClientSession :=
  {| id := id s; socket := socket s; roomId := roomId s; displayName := displayName s; role := v |}.

(** [session.field], [session.field = v] and [new] in the monad. *)
Definition read (session : Ref) : M World ClientSession := gets (fun w => heap w session).

Definition write (session : Ref) (f : ClientSession -> ClientSession) : M World unit :=
  modify (fun w => with_heap (store session f (heap w)) w).

Definition alloc (s : ClientSession) : M World Ref :=
  fun w => Ret (next w)
               {| heap := store (next w) (fun _ => s) (heap w); next := S (next w);
                  sessions := sessions w; activeRooms := activeRooms w; wire := wire w |}.

(** [socket.send(JSON.stringify(payload))] *)
Definition socket_send (rt : Runtime) (sock : Socket) (payload : OutgoingServerMessage)
    : M World unit :=
  if sendThrows rt sock then throw SendFailure else modify (emit [(sock, payload)]).

Definition sendJson (rt : Runtime) (sock : Socket) (payload : OutgoingServerMessage)
    : M World unit :=
  match readyState rt sock with
  | OPEN => try_catch (socket_send rt sock payload) (fun error => ret tt)
  | _ => ret tt
  end.

(** [exclude && clientId === exclude] *)
Definition excluded (exclude : option string) (clientId : string) : bool :=
  match exclude with
  | Some x => truthyString exclude && String.eqb clientId x
  | None => false
  end.

(** The room id is the [roomId] of a session as the callers pass it:
    [activeRooms.get(null)] finds no room. *)
Definition broadcastToRoom (rt : Runtime) (room_id : option string)
    (payload : OutgoingServerMessage) (exclude : option string) : M World unit :=
  found <- gets (fun w => room_id ≫= (fun r => activeRooms w !! r)) ;;
  match found with
  | None => ret tt
  | Some room =>
      for_of room (fun entry =>
        let (clientId, session) := (entry : string * Ref) in
        if excluded exclude clientId then ret tt
        else s <- read session ;; sendJson rt (socket s) payload)
  end.

Definition detachFromRoom (rt : Runtime) (session : Ref) : M World unit :=
  s <- read session ;;
  if negb (truthyString (roomId s)) then ret tt else
  found <- gets (fun w => roomId s ≫= (fun r => activeRooms w !! r)) ;;
  match found, roomId s with
  | Some room, Some current =>
      let room' := JsMap.delete (id s) room in
      modify (fun w => with_activeRooms (<[current := room']> (activeRooms w)) w) ;;
      (if (JsMap.size room' =? 0)%nat
       then modify (fun w => with_activeRooms (delete current (activeRooms w)) w)
       else ret tt) ;;
      broadcastToRoom rt (roomId s) (UserLeftEvent (id s)) (Some (id s)) ;;
      write session (set_roomId None)
  | _, _ => write session (set_roomId None)
  end.

Definition attachToRoom (session : Ref) (room_id : string) : M World unit :=
  let normalizedId := toUpperCase (trim room_id) in
  found <- gets (fun w => activeRooms w !! normalizedId) ;;
  let room := match found with Some room => room | None => JsMap.empty end in
  s <- read session ;;
  modify (fun w => with_activeRooms (<[normalizedId := JsMap.set (id s) session room]> (activeRooms w)) w) ;;
  write session (set_roomId (Some normalizedId)).

Definition summary (s : ClientSession) : ParticipantSummary :=
  {| ps_clientId := id s; ps_displayName := displayName s; ps_role := role s |}.

(** The loop of [handleJoinMessage] that fills [otherParticipants]. *)
Definition others (h : Ref -> ClientSession) (self : string) (room : JsMap.t Ref)
    : list ParticipantSummary :=
  flat_map (fun entry : string * Ref =>
              let (clientId, member) := entry in
              if String.eqb clientId self then [] else [summary (h member)])
           room.

Definition handleJoinMessage (rt : Runtime) (session : Ref) (message : JsValue) : M World unit :=
  match property message "roomId" with
  | JString room_id =>
      if negb (truthy (JString room_id)) then ret tt else
      let role := roleOf (property message "role") in
      let displayName := trimmedOrNull (property message "displayName") in
      s <- read session ;;
      let wasInRoom := roomId s in
      (if truthyString wasInRoom then detachFromRoom rt session else ret tt) ;;
      write session (set_displayName displayName) ;;
      write session (set_role role) ;;
      attachToRoom session room_id ;;
      s <- read session ;;
      room <- gets (fun w => roomId s ≫= (fun r => activeRooms w !! r)) ;;
      otherParticipants <-
        gets (fun w => match room with
                       | Some members => others (heap w) (id s) members
                       | None => []
                       end) ;;
      sendJson rt (socket s) (RoomStateEvent otherParticipants) ;;
      broadcastToRoom rt (roomId s) (UserJoinedEvent (summary s)) (Some (id s))
  | _ => ret tt
  end.

(** [room.get(v)] for a value [v] of any type: the keys are strings. *)
Definition getByValue (v : JsValue) (room : JsMap.t Ref) : option Ref :=
  match v with
  | JString k => JsMap.get k room
  | _ => None
  end.

Definition handleSignalMessage (rt : Runtime) (session : Ref) (message : JsValue) : M World unit :=
  s <- read session ;;
  if negb (truthyString (roomId s)) || negb (truthy (property message "targetClientId"))
  then ret tt else
  found <- gets (fun w => roomId s ≫= (fun r => activeRooms w !! r)) ;;
  match found with
  | None => ret tt
  | Some room =>
      match getByValue (property message "targetClientId") room with
      | None => ret tt
      | Some target =>
          t <- read target ;;
          sendJson rt (socket t)
            (SignalRelayEvent (id s) (nullish_to_null (property message "payload")))
      end
  end.

Definition handleChatMessage (rt : Runtime) (session : Ref) (message : JsValue) : M World unit :=
  s <- read session ;;
  match property message "text" with
  | JString text =>
      if negb (truthyString (roomId s)) then ret tt else
      let messageId :=
        match property message "messageId" with
        | JString supplied => if truthy (JString supplied) then supplied else makeId rt
        | _ => makeId rt
        end in
      broadcastToRoom rt (roomId s) (ChatEvent (id s) text messageId (now rt)) None
  | _ => ret tt
  end.

(** An inbound frame, as [JSON.parse] reads its text: [None] when it throws. *)
Definition Frame : Type := option JsValue.

Definition JSON_parse (data : Frame) : M World JsValue :=
  match data with
  | Some v => ret v
  | None => throw SyntaxError
  end.

Definition onOpen (rt : Runtime) (clientId : string) (ws : Socket) : M World unit :=
  session <- alloc {| id := clientId; socket := ws; roomId := None; displayName := None;
                      role := guest |} ;;
  modify (fun w => with_sessions (<[clientId := session]> (sessions w)) w) ;;
  sendJson rt ws (WelcomeEvent clientId).

Definition onMessage (rt : Runtime) (clientId : string) (data : Frame) : M World unit :=
  found <- gets (fun w => sessions w !! clientId) ;;
  match found with
  | None => ret tt
  | Some session =>
      parsed <- try_catch (payload <- JSON_parse data ;; ret (Some payload))
                          (fun error => ret None) ;;
      match parsed with
      | None => ret tt
      | Some payload =>
          if negb (truthy payload) || negb (String.eqb (typeof payload) "object") then ret tt else
          let type := property payload "type" in
          if strict_eq_string type "join" then handleJoinMessage rt session payload
          else if strict_eq_string type "signal" then handleSignalMessage rt session payload
          else if strict_eq_string type "chat" then handleChatMessage rt session payload
          else ret tt
      end
  end.

Definition onClose (rt : Runtime) (clientId : string) : M World unit :=
  found <- gets (fun w => sessions w !! clientId) ;;
  match found with
  | Some session =>
      detachFromRoom rt session ;;
      modify (fun w => with_sessions (delete clientId (sessions w)) w)
  | None => ret tt
  end.

(** [onError] then closes the socket with code 1011 inside a [try]; that acts
    on the transport only. *)
Definition onError (rt : Runtime) (clientId : string) : M World unit :=
  found <- gets (fun w => sessions w !! clientId) ;;
  match found with
  | Some session =>
      detachFromRoom rt session ;;
      modify (fun w => with_sessions (delete clientId (sessions w)) w)
  | None => ret tt
  end.

(** ** The hub as a transition system *)

Inductive Event : Type :=
| Open (clientId : string) (ws : Socket)
| Message (clientId : string) (data : Frame)
| Close (clientId : string)
| Failure (clientId : string).

Definition handle (rt : Runtime) (ev : Event) : M World unit :=
  match ev with
  | Open clientId ws => onOpen rt clientId ws
  | Message clientId data => onMessage rt clientId data
  | Close clientId => onClose rt clientId
  | Failure clientId => onError rt clientId
  end.

Definition blank : ClientSession :=
  {| id := ""; socket := 0; roomId := None; displayName := None; role := guest |}.

(** The state of a process that has just started. *)
Definition initial : World :=
  {| heap := fun _ => blank; next := 0; sessions := ∅; activeRooms := ∅; wire := [] |}.

(** What the transport and [makeId] guarantee when a connection opens: its
    identity is not the identity of a connection that is still registered,
    and its socket is its own. *)
Definition admissible (w : World) (ev : Event) : Prop :=
  match ev with
  | Open clientId ws =>
      sessions w !! clientId = None
      /\ forall c a, sessions w !! c = Some a -> socket (heap w a) <> ws
  | _ => True
  end.

Inductive reachable : World -> Prop :=
| reachable_initial : reachable initial
| reachable_step w rt ev :
    reachable w -> admissible w ev -> reachable (state_of (handle rt ev w)).

(** A run: the events of a list, one after the other, each with the runtime
    it meets. *)
Fixpoint run (evs : list (Runtime * Event)) (w : World) : World :=
  match evs with
  | [] => w
  | (rt, ev) :: rest => run rest (state_of (handle rt ev w))
  end.


(** ** The first version of the hub: [src/index.ts] as one room

    The file [src/index.ts] of the repository is the hub before rooms: a
    session is an identity and a socket, a chat message goes to every
    session, and no other message type exists.  Its [onMessage] has the same
    parsing and the same message id as the hub with rooms. *)

Module Poc.

Record ClientSession : Type := {
  id : string;
  socket : Socket;
}.

Record World : Type := {
  sessions : JsMap.t ClientSession;
  wire : list (Socket * OutgoingServerMessage);
}.

Definition emit (frames : list (Socket * OutgoingServerMessage)) (w : World) : World :=
  {| sessions := sessions w; wire := wire w ++ frames |}.

Definition socket_send (rt : Runtime) (sock : Socket) (payload : OutgoingServerMessage)
    : M World unit :=
  if sendThrows rt sock then throw SendFailure else modify (emit [(sock, payload)]).

Definition sendJson (rt : Runtime) (sock : Socket) (payload : OutgoingServerMessage)
    : M World unit :=
  match readyState rt sock with
  | OPEN => try_catch (socket_send rt sock payload) (fun error => ret tt)
  | _ => ret tt
  end.

Definition broadcast (rt : Runtime) (payload : OutgoingServerMessage) : M World unit :=
  clients <- gets (fun w => JsMap.values (sessions w)) ;;
  for_of clients (fun client => sendJson rt (socket client) payload).

Definition JSON_parse (data : Frame) : M World JsValue :=
  match data with
  | Some v => ret v
  | None => throw SyntaxError
  end.

Definition onOpen (rt : Runtime) (clientId : string) (ws : Socket) : M World unit :=
  modify (fun w => {| sessions := JsMap.set clientId {| id := clientId; socket := ws |} (sessions w);
                      wire := wire w |}) ;;
  sendJson rt ws (WelcomeEvent clientId).

Definition onMessage (rt : Runtime) (clientId : string) (data : Frame) : M World unit :=
  parsed <- try_catch (payload <- JSON_parse data ;; ret (Some payload))
                      (fun error => ret None) ;;
  match parsed with
  | None => ret tt
  | Some payload =>
      if negb (truthy payload)
         || negb (strict_eq_string (property payload "type") "chat")
         || negb (String.eqb (typeof (property payload "text")) "string")
      then ret tt else
      match property payload "text" with
      | JString text =>
          let messageId :=
            match property payload "messageId" with
            | JString supplied => if truthy (JString supplied) then supplied else makeId rt
            | _ => makeId rt
            end in
          broadcast rt (ChatEvent clientId text messageId (now rt))
      | _ => ret tt
      end
  end.

Definition onClose (clientId : string) : M World unit :=
  modify (fun w => {| sessions := JsMap.delete clientId (sessions w); wire := wire w |}).

(** [onError] then closes the socket inside a [try]. *)
Definition onError (clientId : string) : M World unit := onClose clientId.

End Poc.

(** ** What each operation does to the world *)

(** A socket accepts a frame when it is open and [send] does not throw. *)
Definition accepts (rt : Runtime) (sock : Socket) : bool :=
  match readyState rt sock with
  | OPEN => negb (sendThrows rt sock)
  | _ => false
  end.

(** The frames that [sendJson] puts on the wire, for one socket and for the
    sockets of a list of sessions. *)
Definition frame (rt : Runtime) (sock : Socket) (payload : OutgoingServerMessage)
    : list (Socket * OutgoingServerMessage) :=
  if accepts rt sock then [(sock, payload)] else [].

Definition deliveries (rt : Runtime) (h : Ref -> ClientSession) (payload : OutgoingServerMessage)
    (targets : list Ref) : list (Socket * OutgoingServerMessage) :=
  flat_map (fun target => frame rt (socket (h target)) payload) targets.

(** The sessions that a broadcast addresses. *)
Definition recipients (exclude : option string) (room : JsMap.t Ref) : list Ref :=
  map snd (List.filter (fun entry => negb (excluded exclude (fst entry))) room).

(** The room under a code, empty when there is none. *)
Definition roomOf (w : World) (room_id : option string) : JsMap.t Ref :=
  default [] (room_id ≫= (fun r => activeRooms w !! r)).

Ltac run_M := unfold bind, gets, modify, ret, throw, read, write, try_catch; simpl.

Lemma emit_nil w : emit [] w = w.
Proof. destruct w. unfold emit. simpl. now rewrite app_nil_r. Qed.

Lemma emit_emit f1 f2 w : emit f2 (emit f1 w) = emit (f1 ++ f2) w.
Proof. unfold emit. simpl. now rewrite app_assoc. Qed.

Lemma sendJson_run rt sock payload w :
  sendJson rt sock payload w = Ret tt (emit (frame rt sock payload) w).
Proof.
  unfold sendJson, frame, accepts, socket_send.
  destruct (readyState rt sock); run_M; rewrite ?emit_nil; try reflexivity.
  destruct (sendThrows rt sock); run_M; now rewrite ?emit_nil.
Qed.

Lemma broadcast_loop rt payload exclude (room : JsMap.t Ref) : forall w,
  for_of room (fun entry =>
     let (clientId, session) := (entry : string * Ref) in
     if excluded exclude clientId then ret tt
     else bind (read session) (fun s => sendJson rt (socket s) payload)) w
  = Ret tt (emit (deliveries rt (heap w) payload (recipients exclude room)) w).
Proof.
  induction room as [|[clientId session] rest IH]; intros w.
  - simpl. unfold ret. now rewrite emit_nil.
  - unfold recipients. cbn [for_of List.filter fst]. unfold bind at 1.
    destruct (excluded exclude clientId); cbn [negb].
    + unfold ret. apply IH.
    + unfold bind, read, gets. rewrite sendJson_run, IH.
      cbn [map snd deliveries flat_map]. now rewrite emit_emit.
Qed.

Lemma broadcastToRoom_run rt room_id payload exclude w :
  broadcastToRoom rt room_id payload exclude w
  = Ret tt (emit (deliveries rt (heap w) payload (recipients exclude (roomOf w room_id))) w).
Proof.
  unfold broadcastToRoom, roomOf. unfold bind at 1. unfold gets.
  destruct (room_id ≫= _) as [room|]; simpl.
  - apply broadcast_loop.
  - unfold ret. now rewrite emit_nil.
Qed.

(** The directory after [clientId] has left the room [room] under [current]. *)
Definition leave (current clientId : string) (room : JsMap.t Ref)
    (rooms : gmap string (JsMap.t Ref)) : gmap string (JsMap.t Ref) :=
  let room' := JsMap.delete clientId room in
  if (JsMap.size room' =? 0)%nat then delete current (<[current := room']> rooms)
  else <[current := room']> rooms.

(** The world that [detachFromRoom] leaves. *)
Definition detached (rt : Runtime) (session : Ref) (w : World) : World :=
  let s := heap w session in
  match roomId s with
  | Some current =>
      if String.eqb current "" then w else
      match activeRooms w !! current with
      | None => with_heap (store session (set_roomId None) (heap w)) w
      | Some room =>
          with_heap (store session (set_roomId None) (heap w))
            (emit (deliveries rt (heap w) (UserLeftEvent (id s))
                     (map snd (JsMap.delete (id s) room)))
                  (with_activeRooms (leave current (id s) room (activeRooms w)) w))
      end
  | None => w
  end.

Lemma recipients_delete clientId (room : JsMap.t Ref) :
  recipients (Some clientId) (JsMap.delete clientId room) = map snd (JsMap.delete clientId room).
Proof.
  unfold recipients, JsMap.delete.
  induction room as [|[k a] rest IH]; [reflexivity|]. simpl.
  destruct (String.eqb k clientId) eqn:E; simpl; [exact IH|].
  rewrite E, andb_false_r. simpl. now f_equal.
Qed.

Lemma truthyString_Some r : truthyString (Some r) = negb (String.eqb r "").
Proof. reflexivity. Qed.

Lemma detachFromRoom_run rt session w :
  detachFromRoom rt session w = Ret tt (detached rt session w).
Proof.
  unfold detachFromRoom, detached. unfold bind at 1. unfold read, gets.
  destruct (roomId (heap w session)) as [current|] eqn:Hroom; [|reflexivity].
  rewrite truthyString_Some, negb_involutive.
  destruct (String.eqb current "") eqn:Hblank; [reflexivity|].
  unfold bind at 1. simpl.
  destruct (activeRooms w !! current) as [room|] eqn:Hfound; [|reflexivity].
  unfold bind at 1. unfold modify at 1. unfold bind at 1. unfold leave. cbv zeta.
  destruct (JsMap.size (JsMap.delete (id (heap w session)) room) =? 0)%nat eqn:Hsize.
  - unfold modify at 1. unfold bind at 1. rewrite broadcastToRoom_run.
    unfold write, modify, roomOf. simpl.
    rewrite lookup_delete_eq. simpl.
    apply Nat.eqb_eq in Hsize. unfold JsMap.size in Hsize.
    apply length_zero_iff_nil in Hsize. rewrite Hsize. reflexivity.
  - unfold ret at 1. unfold bind at 1. rewrite broadcastToRoom_run.
    unfold write, modify, roomOf. simpl.
    rewrite lookup_insert_eq. simpl. now rewrite recipients_delete.
Qed.

(** The world that [attachToRoom] leaves. *)
Definition attached (session : Ref) (room_id : string) (w : World) : World :=
  let normalizedId := toUpperCase (trim room_id) in
  with_heap (store session (set_roomId (Some normalizedId)) (heap w))
    (with_activeRooms
       (<[normalizedId := JsMap.set (id (heap w session)) session
                            (default JsMap.empty (activeRooms w !! normalizedId))]>
          (activeRooms w)) w).

Lemma attachToRoom_run session room_id w :
  attachToRoom session room_id w = Ret tt (attached session room_id w).
Proof.
  unfold attachToRoom, attached. run_M.
  now destruct (activeRooms w !! toUpperCase (trim room_id)).
Qed.

(** The world in which [handleJoinMessage] attaches the session: the old room
    left, the display name and the role written. *)
Definition prepared (rt : Runtime) (session : Ref) (message : JsValue) (w : World) : World :=
  let w1 := if truthyString (roomId (heap w session)) then detached rt session w else w in
  with_heap (store session (set_role (roleOf (property message "role")))
               (store session (set_displayName (trimmedOrNull (property message "displayName")))
                  (heap w1))) w1.

(** The world that [handleJoinMessage] leaves when the room id is a string
    that is not empty. *)
Definition joined (rt : Runtime) (session : Ref) (message : JsValue) (room_id : string)
    (w : World) : World :=
  let w3 := attached session room_id (prepared rt session message w) in
  let s := heap w3 session in
  emit (frame rt (socket s) (RoomStateEvent (others (heap w3) (id s) (roomOf w3 (roomId s))))
        ++ deliveries rt (heap w3) (UserJoinedEvent (summary s))
             (recipients (Some (id s)) (roomOf w3 (roomId s))))
       w3.

Lemma handleJoinMessage_run rt session message w :
  handleJoinMessage rt session message w =
    Ret tt match property message "roomId" with
           | JString room_id =>
               if String.eqb room_id "" then w else joined rt session message room_id w
           | _ => w
           end.
Proof.
  unfold handleJoinMessage.
  destruct (property message "roomId") as [| | | |room_id| |]; try reflexivity.
  cbn [truthy]. rewrite negb_involutive.
  destruct (String.eqb room_id "") eqn:Hblank; [reflexivity|].
  unfold bind at 1. unfold read at 1, gets at 1. unfold bind at 1.
  assert (Hdetach :
    (if truthyString (roomId (heap w session)) then detachFromRoom rt session else ret tt) w
    = Ret tt (if truthyString (roomId (heap w session)) then detached rt session w else w)).
  { destruct (truthyString (roomId (heap w session))); [apply detachFromRoom_run|reflexivity]. }
  rewrite Hdetach. clear Hdetach.
  unfold bind at 1. unfold write at 1, modify at 1.
  unfold bind at 1. unfold write at 1, modify at 1.
  unfold bind at 1. rewrite attachToRoom_run.
  fold (prepared rt session message w).
  unfold bind at 1. unfold read at 1, gets at 1.
  unfold bind at 1. unfold gets at 1.
  unfold bind at 1. unfold gets at 1.
  unfold bind at 1. rewrite sendJson_run, broadcastToRoom_run, emit_emit.
  unfold joined, roomOf. cbv zeta. cbn [heap emit activeRooms].
  destruct (roomId _ ≫= _); reflexivity.
Qed.

(** The frames of [handleSignalMessage]. *)
Definition signalFrames (rt : Runtime) (session : Ref) (message : JsValue) (w : World)
    : list (Socket * OutgoingServerMessage) :=
  let s := heap w session in
  if negb (truthyString (roomId s)) || negb (truthy (property message "targetClientId"))
  then []
  else match getByValue (property message "targetClientId") (roomOf w (roomId s)) with
       | None => []
       | Some target =>
           frame rt (socket (heap w target))
             (SignalRelayEvent (id s) (nullish_to_null (property message "payload")))
       end.

Lemma getByValue_nil v : getByValue v [] = None.
Proof. now destruct v. Qed.

Lemma handleSignalMessage_run rt session message w :
  handleSignalMessage rt session message w = Ret tt (emit (signalFrames rt session message w) w).
Proof.
  unfold handleSignalMessage, signalFrames, roomOf. unfold bind at 1. unfold read at 1, gets at 1.
  cbv zeta.
  destruct (negb (truthyString (roomId (heap w session))) || _).
  { unfold ret. now rewrite emit_nil. }
  unfold bind at 1. unfold gets at 1.
  destruct (roomId (heap w session) ≫= _) as [room|]; simpl.
  - destruct (getByValue (property message "targetClientId") room) as [target|].
    + unfold bind, read, gets. apply sendJson_run.
    + unfold ret. now rewrite emit_nil.
  - unfold ret. now rewrite getByValue_nil, emit_nil.
Qed.

(** The message id of a chat event: the one supplied when it is a string
    that is not empty, a new one otherwise. *)
Definition chatMessageId (rt : Runtime) (message : JsValue) : string :=
  match property message "messageId" with
  | JString supplied => if truthy (JString supplied) then supplied else makeId rt
  | _ => makeId rt
  end.

(** The frames of [handleChatMessage]. *)
Definition chatFrames (rt : Runtime) (session : Ref) (message : JsValue) (w : World)
    : list (Socket * OutgoingServerMessage) :=
  let s := heap w session in
  match property message "text" with
  | JString text =>
      if negb (truthyString (roomId s)) then []
      else deliveries rt (heap w) (ChatEvent (id s) text (chatMessageId rt message) (now rt))
             (map snd (roomOf w (roomId s)))
  | _ => []
  end.

Lemma recipients_all (room : JsMap.t Ref) : recipients None room = map snd room.
Proof.
  unfold recipients. f_equal. induction room as [|e rest IH]; [reflexivity|].
  simpl. f_equal. exact IH.
Qed.

Lemma handleChatMessage_run rt session message w :
  handleChatMessage rt session message w = Ret tt (emit (chatFrames rt session message w) w).
Proof.
  unfold handleChatMessage, chatFrames. unfold bind at 1. unfold read at 1, gets at 1.
  cbv zeta.
  destruct (property message "text"); try (unfold ret; now rewrite emit_nil).
  destruct (negb (truthyString (roomId (heap w session)))).
  { unfold ret. now rewrite emit_nil. }
  rewrite broadcastToRoom_run, recipients_all. reflexivity.
Qed.

(** The world after [onOpen] has registered the new session. *)
Definition registered (clientId : string) (ws : Socket) (w : World) : World :=
  {| heap := store (next w)
               (fun _ => {| id := clientId; socket := ws; roomId := None; displayName := None;
                            role := guest |}) (heap w);
     next := S (next w);
     sessions := <[clientId := next w]> (sessions w);
     activeRooms := activeRooms w;
     wire := wire w |}.

Lemma onOpen_run rt clientId ws w :
  onOpen rt clientId ws w
  = Ret tt (emit (frame rt ws (WelcomeEvent clientId)) (registered clientId ws w)).
Proof.
  unfold onOpen. unfold bind at 1. unfold alloc. unfold bind at 1. unfold modify at 1.
  now rewrite sendJson_run.
Qed.

(** The world after [onClose] or [onError]. *)
Definition closed (rt : Runtime) (clientId : string) (w : World) : World :=
  match sessions w !! clientId with
  | Some session =>
      with_sessions (delete clientId (sessions (detached rt session w))) (detached rt session w)
  | None => w
  end.

Lemma onClose_run rt clientId w : onClose rt clientId w = Ret tt (closed rt clientId w).
Proof.
  unfold onClose, closed. unfold bind at 1. unfold gets at 1.
  destruct (sessions w !! clientId) as [session|]; [|reflexivity].
  unfold bind. now rewrite detachFromRoom_run.
Qed.

Lemma onError_run rt clientId w : onError rt clientId w = Ret tt (closed rt clientId w).
Proof.
  unfold onError, closed. unfold bind at 1. unfold gets at 1.
  destruct (sessions w !! clientId) as [session|]; [|reflexivity].
  unfold bind. now rewrite detachFromRoom_run.
Qed.

(** The world after [onMessage]. *)
Definition received (rt : Runtime) (clientId : string) (data : Frame) (w : World) : World :=
  match sessions w !! clientId, data with
  | Some session, Some payload =>
      if negb (truthy payload) || negb (String.eqb (typeof payload) "object") then w
      else if strict_eq_string (property payload "type") "join" then
        match property payload "roomId" with
        | JString room_id =>
            if String.eqb room_id "" then w else joined rt session payload room_id w
        | _ => w
        end
      else if strict_eq_string (property payload "type") "signal" then
        emit (signalFrames rt session payload w) w
      else if strict_eq_string (property payload "type") "chat" then
        emit (chatFrames rt session payload w) w
      else w
  | _, _ => w
  end.

Lemma onMessage_run rt clientId data w :
  onMessage rt clientId data w = Ret tt (received rt clientId data w).
Proof.
  unfold onMessage, received. unfold bind at 1. unfold gets at 1.
  destruct (sessions w !! clientId) as [session|]; [|reflexivity].
  destruct data as [payload|]; [|reflexivity].
  unfold bind at 1. unfold try_catch, JSON_parse, bind, ret. 
  destruct (negb (truthy payload) || _); [reflexivity|].
  destruct (strict_eq_string (property payload "type") "join"); [apply handleJoinMessage_run|].
  destruct (strict_eq_string (property payload "type") "signal"); [apply handleSignalMessage_run|].
  destruct (strict_eq_string (property payload "type") "chat"); [apply handleChatMessage_run|].
  reflexivity.
Qed.

(** The world after an event. *)
Definition after (rt : Runtime) (ev : Event) (w : World) : World :=
  match ev with
  | Open clientId ws => emit (frame rt ws (WelcomeEvent clientId)) (registered clientId ws w)
  | Message clientId data => received rt clientId data w
  | Close clientId => closed rt clientId w
  | Failure clientId => closed rt clientId w
  end.

Lemma handle_run rt ev w : handle rt ev w = Ret tt (after rt ev w).
Proof.
  destruct ev; simpl.
  - apply onOpen_run.
  - apply onMessage_run.
  - apply onClose_run.
  - apply onError_run.
Qed.

(** ** The invariant of the reachable worlds *)

(** What every reachable world satisfies.  [inv_live] is about the rooms
    whose code is not the empty string: a room under the empty code (a join
    whose room id is white space only creates it) is outside of it. *)
Record Inv (w : World) : Prop := {
  inv_registered : forall c a,
    sessions w !! c = Some a -> (a < next w)%nat /\ id (heap w a) = c;
  inv_sockets : forall c1 a1 c2 a2,
    sessions w !! c1 = Some a1 -> sessions w !! c2 = Some a2 ->
    socket (heap w a1) = socket (heap w a2) -> c1 = c2;
  inv_rooms : forall r room,
    activeRooms w !! r = Some room -> NoDup (JsMap.keys room) /\ room <> [];
  inv_member : forall r room c a,
    activeRooms w !! r = Some room -> JsMap.get c room = Some a ->
    (a < next w)%nat /\ id (heap w a) = c;
  inv_live : forall r room c a,
    r <> "" -> activeRooms w !! r = Some room -> JsMap.get c room = Some a ->
    sessions w !! c = Some a /\ roomId (heap w a) = Some r;
  inv_in_room : forall c a r,
    sessions w !! c = Some a -> roomId (heap w a) = Some r ->
    exists room, activeRooms w !! r = Some room /\ JsMap.get c room = Some a;
}.

Lemma store_same a f h : store a f h a = f (h a).
Proof. unfold store. now rewrite Nat.eqb_refl. Qed.

Lemma store_other a a' f h : a' <> a -> store a f h a' = h a'.
Proof. intros H. unfold store. apply Nat.eqb_neq in H. now rewrite H. Qed.

Lemma store_id a a' f h : (forall s, id (f s) = id s) -> id (store a f h a') = id (h a').
Proof. intros H. unfold store. now destruct (Nat.eqb a' a). Qed.

Lemma store_socket a a' f h :
  (forall s, socket (f s) = socket s) -> socket (store a f h a') = socket (h a').
Proof. intros H. unfold store. now destruct (Nat.eqb a' a). Qed.

Lemma store_roomId a a' f h :
  (forall s, roomId (f s) = roomId s) -> roomId (store a f h a') = roomId (h a').
Proof. intros H. unfold store. now destruct (Nat.eqb a' a). Qed.

(** Two registered sessions are one when they have one address. *)
Lemma registered_inj w c c' a : Inv w -> sessions w !! c = Some a -> sessions w !! c' = Some a -> c = c'.
Proof.
  intros HI H H'. apply (inv_registered w HI) in H as [_ H], H' as [_ H']. congruence.
Qed.

Lemma Inv_same w w' :
  heap w' = heap w -> next w' = next w -> sessions w' = sessions w ->
  activeRooms w' = activeRooms w -> Inv w -> Inv w'.
Proof.
  destruct w, w'. simpl. intros -> -> -> -> [H1 H2 H3 H4 H5 H6]. now constructor.
Qed.

Lemma Inv_emit frames w : Inv w -> Inv (emit frames w).
Proof. now apply Inv_same. Qed.

(** A write that keeps the identity, the socket and the room of a session. *)
Lemma Inv_write a f w :
  (forall s, id (f s) = id s) -> (forall s, socket (f s) = socket s) ->
  (forall s, roomId (f s) = roomId s) ->
  Inv w -> Inv (with_heap (store a f (heap w)) w).
Proof.
  intros Hid Hsock Hroom [H1 H2 H3 H4 H5 H6]. constructor; simpl.
  - intros c a' Hc. rewrite (store_id _ _ _ _ Hid). now apply H1.
  - intros c1 a1 c2 a2 Hc1 Hc2. rewrite !(store_socket _ _ _ _ Hsock). now apply H2.
  - exact H3.
  - intros r room c a' Hr Hc. rewrite (store_id _ _ _ _ Hid). now apply (H4 r room).
  - intros r room c a' Hne Hr Hc. rewrite (store_roomId _ _ _ _ Hroom). now apply (H5 r room).
  - intros c a' r Hc. rewrite (store_roomId _ _ _ _ Hroom). now apply H6.
Qed.

Lemma Inv_initial : Inv initial.
Proof.
  constructor; simpl; intros *; try rewrite lookup_empty; discriminate.
Qed.

Lemma Inv_registered clientId ws w :
  Inv w -> sessions w !! clientId = None ->
  (forall c a, sessions w !! c = Some a -> socket (heap w a) <> ws) ->
  Inv (registered clientId ws w).
Proof.
  intros [H1 H2 H3 H4 H5 H6] Hfresh Hws. constructor; simpl.
  - intros c a Hc. destruct (decide (clientId = c)) as [->|Hne].
    + rewrite lookup_insert_eq in Hc. injection Hc as <-. rewrite store_same. split; [lia|reflexivity].
    + rewrite lookup_insert_ne in Hc by exact Hne. destruct (H1 c a Hc) as [Hlt Hid].
      rewrite store_other by lia. split; [lia|exact Hid].
  - intros c1 a1 c2 a2 Hc1 Hc2.
    destruct (decide (clientId = c1)) as [E1|Hne1]; destruct (decide (clientId = c2)) as [E2|Hne2].
    + congruence.
    + subst c1. rewrite lookup_insert_eq in Hc1. rewrite lookup_insert_ne in Hc2 by exact Hne2.
      injection Hc1 as <-. destruct (H1 c2 a2 Hc2) as [Hlt _].
      rewrite store_same, store_other by lia. simpl. intros Heq. exfalso.
      now apply (Hws c2 a2 Hc2).
    + subst c2. rewrite lookup_insert_ne in Hc1 by exact Hne1. rewrite lookup_insert_eq in Hc2.
      injection Hc2 as <-. destruct (H1 c1 a1 Hc1) as [Hlt _].
      rewrite store_same, store_other by lia. simpl. intros Heq. exfalso.
      now apply (Hws c1 a1 Hc1).
    + rewrite lookup_insert_ne in Hc1 by exact Hne1. rewrite lookup_insert_ne in Hc2 by exact Hne2.
      destruct (H1 c1 a1 Hc1) as [Hlt1 _], (H1 c2 a2 Hc2) as [Hlt2 _].
      rewrite !store_other by lia. now apply H2.
  - exact H3.
  - intros r room c a Hr Hc. destruct (H4 r room c a Hr Hc) as [Hlt Hid].
    rewrite store_other by lia. split; [lia|exact Hid].
  - intros r room c a Hne Hr Hc. destruct (H5 r room c a Hne Hr Hc) as [Hs Hroom].
    destruct (H1 c a Hs) as [Hlt _]. rewrite store_other by lia.
    split; [|exact Hroom]. rewrite lookup_insert_ne; [exact Hs|]. intros ->. congruence.
  - intros c a r Hc. destruct (decide (clientId = c)) as [->|Hne].
    + rewrite lookup_insert_eq in Hc. injection Hc as <-. rewrite store_same. discriminate.
    + rewrite lookup_insert_ne in Hc by exact Hne. destruct (H1 c a Hc) as [Hlt _].
      rewrite store_other by lia. now apply H6.
Qed.

Lemma Inv_unregistered clientId session w :
  Inv w -> sessions w !! clientId = Some session ->
  truthyString (roomId (heap w session)) = false ->
  Inv (with_sessions (delete clientId (sessions w)) w).
Proof.
  intros [H1 H2 H3 H4 H5 H6] Hc Hout. constructor; simpl.
  - intros c a Hd. apply lookup_delete_Some in Hd as [_ Hd]. now apply H1.
  - intros c1 a1 c2 a2 Hd1 Hd2. apply lookup_delete_Some in Hd1 as [_ Hd1], Hd2 as [_ Hd2].
    now apply H2.
  - exact H3.
  - exact H4.
  - intros r room c a Hne Hr Hm. destruct (H5 r room c a Hne Hr Hm) as [Hs Hroom].
    split; [|exact Hroom]. rewrite lookup_delete_ne; [exact Hs|]. intros ->.
    assert (a = session) as -> by congruence. rewrite Hroom in Hout. simpl in Hout.
    apply negb_false_iff, String.eqb_eq in Hout. contradiction.
  - intros c a r Hd. apply lookup_delete_Some in Hd as [_ Hd]. now apply H6.
Qed.

Lemma lookup_leave_eq r c (room : JsMap.t Ref) rooms :
  leave r c room rooms !! r
  = match JsMap.delete c room with [] => None | _ :: _ => Some (JsMap.delete c room) end.
Proof.
  unfold leave, JsMap.size. cbv zeta. destruct (JsMap.delete c room) as [|e rest]; simpl.
  - apply lookup_delete_eq.
  - apply lookup_insert_eq.
Qed.

Lemma lookup_leave_ne r r' c (room : JsMap.t Ref) rooms :
  r' <> r -> leave r c room rooms !! r' = rooms !! r'.
Proof.
  intros Hne. unfold leave. cbv zeta. destruct (JsMap.size _ =? 0)%nat.
  - rewrite lookup_delete_ne by congruence. apply lookup_insert_ne. congruence.
  - apply lookup_insert_ne. congruence.
Qed.

Lemma lookup_leave_Some r r' c (room room' : JsMap.t Ref) rooms :
  leave r c room rooms !! r' = Some room' ->
  (r' = r /\ room' = JsMap.delete c room /\ room' <> []) \/ (r' <> r /\ rooms !! r' = Some room').
Proof.
  destruct (decide (r' = r)) as [->|Hne].
  - rewrite lookup_leave_eq. destruct (JsMap.delete c room) as [|e rest] eqn:E; [discriminate|].
    intros [= <-]. left. repeat split. discriminate.
  - rewrite lookup_leave_ne by exact Hne. intros H. now right.
Qed.

Lemma get_delete_Some {V : Type} k k' (v : V) m :
  JsMap.get k' (JsMap.delete k m) = Some v -> k' <> k /\ JsMap.get k' m = Some v.
Proof.
  intros H. destruct (String.eqb_spec k k') as [->|Hne].
  - rewrite JsMap.get_delete_eq in H. discriminate.
  - rewrite JsMap.get_delete_ne in H by exact Hne. split; congruence.
Qed.

Lemma truthyString_false r : truthyString r = false -> r = None \/ r = Some "".
Proof.
  destruct r as [r|]; [|now left]. simpl. intros H.
  apply negb_false_iff, String.eqb_eq in H. right. now subst.
Qed.

(** [detachFromRoom] on a registered session keeps the invariant and leaves
    the session without a room. *)
Lemma Inv_detached rt clientId session w :
  Inv w -> sessions w !! clientId = Some session ->
  Inv (detached rt session w)
  /\ sessions (detached rt session w) = sessions w
  /\ truthyString (roomId (heap (detached rt session w) session)) = false.
Proof.
  intros HI Hc. unfold detached. cbv zeta.
  destruct (roomId (heap w session)) as [current|] eqn:Hroom.
  2:{ split; [exact HI|]. split; [reflexivity|]. now rewrite Hroom. }
  destruct (String.eqb current "") eqn:Hblank.
  { split; [exact HI|]. split; [reflexivity|]. rewrite Hroom. simpl. now rewrite Hblank. }
  apply String.eqb_neq in Hblank.
  destruct (inv_in_room w HI _ _ _ Hc Hroom) as (room & Hfound & Hmember).
  rewrite Hfound. destruct (inv_registered w HI _ _ Hc) as [Hlt Hid]. rewrite Hid.
  split; [|split; [reflexivity|simpl; now rewrite store_same]].
  destruct HI as [H1 H2 H3 H4 H5 H6]. constructor; simpl.
  - intros c a Hs. rewrite store_id by reflexivity. now apply H1.
  - intros c1 a1 c2 a2 Hs1 Hs2. rewrite !store_socket by reflexivity. now apply H2.
  - intros r room' Hr. apply lookup_leave_Some in Hr as [(-> & -> & Hne)|[Hne Hr]].
    + split; [|exact Hne]. apply JsMap.NoDup_keys_delete. now apply (H3 current room).
    + now apply (H3 r).
  - intros r room' c a Hr Hm. rewrite store_id by reflexivity.
    apply lookup_leave_Some in Hr as [(-> & -> & Hne)|[Hne Hr]].
    + apply get_delete_Some in Hm as [_ Hm]. now apply (H4 current room).
    + now apply (H4 r room').
  - intros r room' c a Hr0 Hr Hm.
    apply lookup_leave_Some in Hr as [(-> & -> & Hne)|[Hne Hr]].
    + apply get_delete_Some in Hm as [Hcne Hm].
      destruct (H5 current room c a Hr0 Hfound Hm) as [Hs Hroom'].
      split; [exact Hs|]. rewrite store_other; [exact Hroom'|].
      intros ->. apply Hcne. now rewrite <- (proj2 (H1 _ _ Hs)).
    + destruct (H5 r room' c a Hr0 Hr Hm) as [Hs Hroom'].
      split; [exact Hs|]. rewrite store_other; [exact Hroom'|].
      intros ->. congruence.
  - intros c a r Hs. destruct (decide (a = session)) as [->|Hane].
    { rewrite store_same. discriminate. }
    rewrite store_other by exact Hane. intros Hroom'.
    destruct (H6 c a r Hs Hroom') as (room' & Hr & Hm).
    assert (Hcne : c <> clientId) by (intros ->; congruence).
    destruct (decide (r = current)) as [->|Hrne].
    + assert (room' = room) as -> by congruence.
      assert (Hm' : JsMap.get c (JsMap.delete clientId room) = Some a).
      { rewrite JsMap.get_delete_ne by congruence. exact Hm. }
      exists (JsMap.delete clientId room). split; [|exact Hm'].
      rewrite lookup_leave_eq. destruct (JsMap.delete clientId room); [discriminate|reflexivity].
    + exists room'. split; [|exact Hm]. now rewrite lookup_leave_ne.
Qed.

(** [attachToRoom] on a registered session that is in no room, or in the
    room of the empty code, keeps the invariant. *)
Lemma Inv_attached clientId session room_id w :
  Inv w -> sessions w !! clientId = Some session ->
  truthyString (roomId (heap w session)) = false ->
  Inv (attached session room_id w).
Proof.
  intros HI Hc Hout. unfold attached. cbv zeta.
  destruct (inv_registered w HI _ _ Hc) as [Hlt Hid]. rewrite Hid.
  set (n := toUpperCase (trim room_id)).
  assert (Hold : forall room, activeRooms w !! n = Some room ->
                              default JsMap.empty (activeRooms w !! n) = room).
  { intros room ->. reflexivity. }
  assert (Hnone : activeRooms w !! n = None -> default JsMap.empty (activeRooms w !! n) = []).
  { intros ->. reflexivity. }
  destruct HI as [H1 H2 H3 H4 H5 H6]. constructor; simpl.
  - intros c a Hs. rewrite store_id by reflexivity. now apply H1.
  - intros c1 a1 c2 a2 Hs1 Hs2. rewrite !store_socket by reflexivity. now apply H2.
  - intros r room' Hr. destruct (decide (r = n)) as [->|Hne].
    + rewrite lookup_insert_eq in Hr. injection Hr as <-.
      split; [|apply JsMap.set_nonempty]. apply JsMap.NoDup_keys_set.
      destruct (activeRooms w !! n) as [room|] eqn:E; simpl; [now apply (H3 n)|constructor].
    + rewrite lookup_insert_ne in Hr by congruence. now apply (H3 r).
  - intros r room' c a Hr Hm. rewrite store_id by reflexivity.
    destruct (decide (r = n)) as [->|Hne].
    + rewrite lookup_insert_eq in Hr. injection Hr as <-.
      destruct (String.eqb_spec clientId c) as [->|Hcne].
      * rewrite JsMap.get_set_eq in Hm. injection Hm as <-. now split.
      * rewrite JsMap.get_set_ne in Hm by exact Hcne.
        destruct (activeRooms w !! n) as [room|] eqn:E; simpl in Hm; [|discriminate].
        now apply (H4 n room).
    + rewrite lookup_insert_ne in Hr by congruence. now apply (H4 r room').
  - intros r room' c a Hr0 Hr Hm. destruct (decide (r = n)) as [->|Hne].
    + rewrite lookup_insert_eq in Hr. injection Hr as <-.
      destruct (String.eqb_spec clientId c) as [->|Hcne].
      * rewrite JsMap.get_set_eq in Hm. injection Hm as <-. rewrite store_same. now split.
      * rewrite JsMap.get_set_ne in Hm by exact Hcne.
        destruct (activeRooms w !! n) as [room|] eqn:E; simpl in Hm; [|discriminate].
        destruct (H5 n room c a Hr0 E Hm) as [Hs Hroom'].
        split; [exact Hs|]. rewrite store_other; [exact Hroom'|].
        intros ->. apply Hcne. pose proof (proj2 (H1 _ _ Hs)). congruence.
    + rewrite lookup_insert_ne in Hr by congruence.
      destruct (H5 r room' c a Hr0 Hr Hm) as [Hs Hroom'].
      split; [exact Hs|]. rewrite store_other; [exact Hroom'|].
      intros ->. rewrite Hroom' in Hout. simpl in Hout.
      apply negb_false_iff, String.eqb_eq in Hout. contradiction.
  - intros c a r Hs. destruct (decide (a = session)) as [->|Hane].
    + rewrite store_same. simpl. intros [= <-].
      assert (c = clientId) as -> by (rewrite <- Hid; symmetry; now apply (H1 c session)).
      eexists. rewrite lookup_insert_eq. split; [reflexivity|]. apply JsMap.get_set_eq.
    + rewrite store_other by exact Hane. intros Hroom'.
      destruct (H6 c a r Hs Hroom') as (room' & Hr & Hm).
      assert (Hcne : clientId <> c) by (intros ->; congruence).
      destruct (decide (r = n)) as [->|Hrne].
      * rewrite Hr. simpl. eexists. rewrite lookup_insert_eq. split; [reflexivity|].
        now rewrite JsMap.get_set_ne.
      * exists room'. split; [|exact Hm]. rewrite lookup_insert_ne; congruence.
Qed.

Lemma Inv_prepared rt clientId session message w :
  Inv w -> sessions w !! clientId = Some session ->
  Inv (prepared rt session message w)
  /\ sessions (prepared rt session message w) = sessions w
  /\ truthyString (roomId (heap (prepared rt session message w) session)) = false.
Proof.
  intros HI Hc. unfold prepared. cbv zeta.
  set (w1 := if truthyString (roomId (heap w session)) then detached rt session w else w).
  assert (H1 : Inv w1 /\ sessions w1 = sessions w
                /\ truthyString (roomId (heap w1 session)) = false).
  { subst w1. destruct (truthyString (roomId (heap w session))) eqn:E.
    - now apply (Inv_detached rt clientId).
    - split; [exact HI|]. split; [reflexivity|exact E]. }
  destruct H1 as (HI1 & Hs1 & Hout1). split; [|split].
  - apply (Inv_write session (set_displayName (trimmedOrNull (property message "displayName"))))
      in HI1; try reflexivity.
    apply (Inv_write session (set_role (roleOf (property message "role")))) in HI1;
      try reflexivity.
    revert HI1. now apply Inv_same.
  - exact Hs1.
  - simpl. rewrite !store_roomId by reflexivity. exact Hout1.
Qed.

Lemma Inv_joined rt clientId session message room_id w :
  Inv w -> sessions w !! clientId = Some session ->
  Inv (joined rt session message room_id w).
Proof.
  intros HI Hc. unfold joined. cbv zeta. apply Inv_emit.
  destruct (Inv_prepared rt clientId session message w HI Hc) as (HI' & Hs & Hout).
  apply (Inv_attached clientId); [exact HI'| |exact Hout]. now rewrite Hs.
Qed.

Lemma Inv_received rt clientId data w : Inv w -> Inv (received rt clientId data w).
Proof.
  intros HI. unfold received.
  destruct (sessions w !! clientId) as [session|] eqn:Hc; [|exact HI].
  destruct data as [payload|]; [|exact HI].
  destruct (negb (truthy payload) || _); [exact HI|].
  destruct (strict_eq_string (property payload "type") "join").
  { destruct (property payload "roomId"); try exact HI.
    destruct (String.eqb s ""); [exact HI|]. now apply (Inv_joined rt clientId). }
  destruct (strict_eq_string (property payload "type") "signal"); [now apply Inv_emit|].
  destruct (strict_eq_string (property payload "type") "chat"); [now apply Inv_emit|].
  exact HI.
Qed.

Lemma Inv_closed rt clientId w : Inv w -> Inv (closed rt clientId w).
Proof.
  intros HI. unfold closed.
  destruct (sessions w !! clientId) as [session|] eqn:Hc; [|exact HI].
  destruct (Inv_detached rt clientId session w HI Hc) as (HI' & Hs & Hout).
  apply (Inv_unregistered clientId session); [exact HI'| |exact Hout]. now rewrite Hs.
Qed.

Lemma Inv_after rt ev w : Inv w -> admissible w ev -> Inv (after rt ev w).
Proof.
  intros HI Hadm. destruct ev as [clientId ws|clientId data|clientId|clientId]; simpl.
  - destruct Hadm as [Hfresh Hws]. apply Inv_emit. now apply Inv_registered.
  - now apply Inv_received.
  - now apply Inv_closed.
  - now apply Inv_closed.
Qed.

Lemma state_of_handle rt ev w : state_of (handle rt ev w) = after rt ev w.
Proof. now rewrite handle_run. Qed.

(** Every reachable world satisfies the invariant. *)
Lemma reachable_Inv w : reachable w -> Inv w.
Proof.
  induction 1 as [|w rt ev Hreach IH Hadm].
  - exact Inv_initial.
  - rewrite state_of_handle. now apply Inv_after.
Qed.

(** ** Runs of events on concrete worlds *)

(** [admissible], decided. *)
Definition admissibleb (w : World) (ev : Event) : bool :=
  match ev with
  | Open clientId ws =>
      bool_decide (sessions w !! clientId = None)
      && forallb (fun entry : string * Ref => negb (Nat.eqb (socket (heap w (snd entry))) ws))
           (map_to_list (sessions w))
  | _ => true
  end.

Fixpoint admissible_run (evs : list (Runtime * Event)) (w : World) : bool :=
  match evs with
  | [] => true
  | (rt, ev) :: rest => admissibleb w ev && admissible_run rest (state_of (handle rt ev w))
  end.

Lemma admissibleb_sound w ev : admissibleb w ev = true -> admissible w ev.
Proof.
  destruct ev as [clientId ws| | |]; simpl; try easy.
  intros H. apply andb_true_iff in H as [Hfresh Hws]. split.
  - now apply bool_decide_eq_true in Hfresh.
  - intros c a Hc. rewrite forallb_forall in Hws.
    specialize (Hws (c, a)). simpl in Hws.
    assert (Hin : In (c, a) (map_to_list (sessions w))).
    { apply list_elem_of_In. now apply elem_of_map_to_list. }
    apply Hws in Hin. now apply negb_true_iff, Nat.eqb_neq in Hin.
Qed.

Lemma run_reachable evs : forall w,
  reachable w -> admissible_run evs w = true -> reachable (run evs w).
Proof.
  induction evs as [|[rt ev] rest IH]; intros w Hw Hadm; simpl in *; [exact Hw|].
  apply andb_true_iff in Hadm as [Hev Hrest].
  apply IH; [|exact Hrest]. apply reachable_step; [exact Hw|]. now apply admissibleb_sound.
Qed.

Ltac by_running :=
  cbv zeta;
  repeat match goal with |- _ /\ _ => split end;
  first [ apply run_reachable; [exact reachable_initial|vm_compute; reflexivity]
        | vm_compute; reflexivity ].

(** A runtime in which every socket is open and no [send] throws. *)
Definition calm : Runtime :=
  {| readyState := fun _ => OPEN; sendThrows := fun _ => false; makeId := "fresh"; now := 7 |}.

Definition joinFrame (room_id : string) : Frame :=
  Some (JObject [("type", JString "join"); ("roomId", JString room_id)]).

Definition signalFrame (target : string) : Frame :=
  Some (JObject [("type", JString "signal"); ("targetClientId", JString target);
                 ("payload", JString "offer")]).

Definition chatFrame (text : string) (messageId : JsValue) : Frame :=
  Some (JObject [("type", JString "chat"); ("text", JString text); ("messageId", messageId)]).

(** ** A room id of white space only

    [handleJoinMessage] accepts the room id " ": it is a string and it is
    truthy.  [attachToRoom] trims it, so the session enters a room under the
    code "" and its [roomId] becomes "", which every later test
    [!session.roomId] reads as "in no room".  [joinRoom] of the ledger
    refuses such an id ([roomIdRaw.trim().length === 0]). *)

(** C1, at a failing input.  A connection joins " " and closes: the session
    is no longer registered and still is a member of the room "".  A
    connection joins " " and then "B": the session is a member of both. *)
Theorem blank_room_code_breaks_directory :
  let closing := [(calm, Open "a" 1); (calm, Message "a" (joinFrame " ")); (calm, Close "a")] in
  let moving := [(calm, Open "a" 1); (calm, Message "a" (joinFrame " "));
                 (calm, Message "a" (joinFrame "B"))] in
  (reachable (run closing initial)
   /\ activeRooms (run closing initial) !! "" = Some [("a", 0%nat)]
   /\ sessions (run closing initial) !! "a" = None)
  /\ (reachable (run moving initial)
      /\ sessions (run moving initial) !! "a" = Some 0%nat
      /\ activeRooms (run moving initial) !! "" = Some [("a", 0%nat)]
      /\ activeRooms (run moving initial) !! "B" = Some [("a", 0%nat)]).
Proof. by_running. Qed.

(** C5, at a failing input.  Two connections join " "; the first then joins
    "LOBBY".  Its [roomId] is "LOBBY" and "LOBBY" holds it, but the room ""
    still holds it as well, and the other member was sent no [user-left]. *)
Theorem join_from_blank_room_keeps_membership :
  let before := [(calm, Open "a" 1); (calm, Open "b" 2); (calm, Message "a" (joinFrame " "));
                 (calm, Message "b" (joinFrame " "))] in
  let w := run before initial in
  let w' := state_of (onMessage calm "a" (joinFrame "lobby") w) in
  reachable w
  /\ roomId (heap w 0%nat) = Some ""
  /\ roomId (heap w' 0%nat) = Some "LOBBY"
  /\ activeRooms w' !! "LOBBY" = Some [("a", 0%nat)]
  /\ activeRooms w' !! "" = Some [("a", 0%nat); ("b", 1%nat)]
  /\ wire w' = wire w ++ [(1%nat, RoomStateEvent [])].
Proof. by_running. Qed.

(** C7, at a failing input.  Two connections join " ": each is a member of
    the room "" and has the room id "".  A signal from one to the other,
    a current member of the sender's room, is not delivered. *)
Theorem signal_in_blank_room_is_dropped :
  let before := [(calm, Open "a" 1); (calm, Open "b" 2); (calm, Message "a" (joinFrame " "));
                 (calm, Message "b" (joinFrame " "))] in
  let w := run before initial in
  reachable w
  /\ roomId (heap w 0%nat) = Some ""
  /\ activeRooms w !! "" = Some [("a", 0%nat); ("b", 1%nat)]
  /\ accepts calm (socket (heap w 1%nat)) = true
  /\ onMessage calm "a" (signalFrame "b") w = Ret tt w.
Proof. by_running. Qed.

(** C6, at a failing input.  Two connections join " ": both are members of
    the room "", both have the room id "", and the socket of the second is
    open.  The first is then detached in each of the three ways: its
    connection closes, its connection fails, or it joins "lobby".  None of
    them puts a [user-left] on the wire for the member that remains: after
    the close and after the error the wire is what it was, and after the
    join it has gained the [room-state] of the joiner only.  In all three
    the room "" still holds the departing session. *)
Theorem user_left_is_not_sent_from_blank_room :
  let before := [(calm, Open "a" 1); (calm, Open "b" 2); (calm, Message "a" (joinFrame " "));
                 (calm, Message "b" (joinFrame " "))] in
  let w := run before initial in
  let after_close := state_of (onClose calm "a" w) in
  let after_error := state_of (onError calm "a" w) in
  let after_join := state_of (onMessage calm "a" (joinFrame "lobby") w) in
  reachable w
  /\ roomId (heap w 0%nat) = Some ""
  /\ activeRooms w !! "" = Some [("a", 0%nat); ("b", 1%nat)]
  /\ sessions w !! "b" = Some 1%nat
  /\ accepts calm (socket (heap w 1%nat)) = true
  /\ detachFromRoom calm 0%nat w = Ret tt w
  /\ (sessions after_close !! "a" = None
      /\ activeRooms after_close !! "" = Some [("a", 0%nat); ("b", 1%nat)]
      /\ wire after_close = wire w)
  /\ (sessions after_error !! "a" = None
      /\ activeRooms after_error !! "" = Some [("a", 0%nat); ("b", 1%nat)]
      /\ wire after_error = wire w)
  /\ (roomId (heap after_join 0%nat) = Some "LOBBY"
      /\ activeRooms after_join !! "" = Some [("a", 0%nat); ("b", 1%nat)]
      /\ wire after_join = wire w ++ [(1%nat, RoomStateEvent [])]).
Proof. by_running. Qed.

(** ** Facts about frames and members *)

Lemma deliveries_filter rt h payload targets :
  deliveries rt h payload targets
  = map (fun m => (socket (h m), payload))
        (List.filter (fun m => accepts rt (socket (h m))) targets).
Proof.
  unfold deliveries, frame. induction targets as [|m rest IH]; [reflexivity|].
  simpl. rewrite IH. now destruct (accepts rt (socket (h m))).
Qed.

Lemma In_frame rt sock payload f : In f (frame rt sock payload) -> f = (sock, payload).
Proof.
  unfold frame. destruct (accepts rt sock); simpl; [|contradiction].
  intros [<-|[]]. reflexivity.
Qed.

Lemma In_deliveries rt h payload targets f :
  In f (deliveries rt h payload targets) -> snd f = payload.
Proof.
  rewrite deliveries_filter, in_map_iff. intros (m & <- & _). reflexivity.
Qed.

Lemma NoDup_values {V : Type} (key_of : V -> string) (m : JsMap.t V) :
  NoDup (JsMap.keys m) -> (forall k v, In (k, v) m -> key_of v = k) -> NoDup (map snd m).
Proof.
  unfold JsMap.keys. induction m as [|[k v] rest IH]; simpl; intros Hnd Hkey; [constructor|].
  apply NoDup_cons in Hnd as [Hk Hnd]. apply NoDup_cons. split.
  - intros Hin. apply Hk. apply list_elem_of_In in Hin. apply in_map_iff in Hin as ([k' v'] & Hv & Hin).
    simpl in Hv. subst v'. apply list_elem_of_In, in_map_iff. exists (k', v). split; [|exact Hin].
    simpl. rewrite <- (Hkey k v) by now left. symmetry. apply Hkey. now right.
  - apply IH; [exact Hnd|]. intros k' v' Hin. apply Hkey. now right.
Qed.

Lemma In_values_get {V : Type} (v : V) (m : JsMap.t V) :
  NoDup (JsMap.keys m) -> In v (map snd m) <-> exists k, JsMap.get k m = Some v.
Proof.
  intros Hnd. rewrite in_map_iff. split.
  - intros ([k v'] & Hv & Hin). simpl in Hv. subst v'. exists k. now apply JsMap.In_get.
  - intros [k Hget]. exists (k, v). split; [reflexivity|]. now apply JsMap.get_Some_In.
Qed.

(** The members of a room are distinct sessions. *)
Lemma members_NoDup w r (room : JsMap.t Ref) :
  Inv w -> activeRooms w !! r = Some room -> NoDup (map snd room).
Proof.
  intros HI Hr. destruct (inv_rooms w HI r room Hr) as [Hnd _].
  apply (NoDup_values (fun a => id (heap w a))); [exact Hnd|].
  intros k a Hin. apply (inv_member w HI r room k a Hr). now apply JsMap.In_get.
Qed.

(** The members of a room whose code is not empty are the registered
    sessions whose room it is. *)
Lemma members_live w r (room : JsMap.t Ref) m :
  Inv w -> r <> "" -> activeRooms w !! r = Some room ->
  In m (map snd room) <-> exists c, sessions w !! c = Some m /\ roomId (heap w m) = Some r.
Proof.
  intros HI Hne Hr. destruct (inv_rooms w HI r room Hr) as [Hnd _].
  rewrite (In_values_get m room Hnd). split.
  - intros [c Hget]. exists c. now apply (inv_live w HI r room).
  - intros (c & Hs & Hroom). exists c.
    destruct (inv_in_room w HI c m r Hs Hroom) as (room' & Hr' & Hget). congruence.
Qed.

Lemma remaining_spec w r (room : JsMap.t Ref) c a m :
  Inv w -> r <> "" -> sessions w !! c = Some a -> activeRooms w !! r = Some room ->
  In m (map snd (JsMap.delete c room))
  <-> m <> a /\ exists c', sessions w !! c' = Some m /\ roomId (heap w m) = Some r.
Proof.
  intros HI Hne Hc Hr. destruct (inv_rooms w HI r room Hr) as [Hnd _].
  rewrite (In_values_get m _ (JsMap.NoDup_keys_delete c room Hnd)). split.
  - intros [c' Hget]. apply get_delete_Some in Hget as [Hcne Hget].
    destruct (inv_live w HI r room c' m Hne Hr Hget) as [Hs Hroom].
    split; [|now exists c']. intros ->. apply Hcne. now apply (registered_inj w c' c a).
  - intros (Hma & c' & Hs & Hroom).
    destruct (inv_in_room w HI c' m r Hs Hroom) as (room' & Hr' & Hget).
    assert (room' = room) as -> by congruence.
    exists c'. rewrite JsMap.get_delete_ne; [exact Hget|]. intros ->. congruence.
Qed.

(** ** [detachFromRoom] and [user-left] *)

Lemma detached_wire rt w c a r (room : JsMap.t Ref) :
  Inv w -> sessions w !! c = Some a -> roomId (heap w a) = Some r -> r <> "" ->
  activeRooms w !! r = Some room ->
  wire (detached rt a w)
  = wire w ++ map (fun m => (socket (heap w m), UserLeftEvent c))
                  (List.filter (fun m => accepts rt (socket (heap w m)))
                     (map snd (JsMap.delete c room))).
Proof.
  intros HI Hc Hroom Hne Hr. unfold detached. cbv zeta. rewrite Hroom.
  apply String.eqb_neq in Hne. rewrite Hne, Hr.
  rewrite (proj2 (inv_registered w HI c a Hc)). simpl. now rewrite deliveries_filter.
Qed.

Lemma joined_wire rt session message room_id w :
  exists rest,
    wire (joined rt session message room_id w)
    = wire (if truthyString (roomId (heap w session)) then detached rt session w else w) ++ rest
    /\ forall f x, In f rest -> snd f <> UserLeftEvent x.
Proof.
  unfold joined. cbv zeta. eexists. split; [reflexivity|].
  intros f x Hin. apply in_app_or in Hin as [Hin|Hin].
  - apply In_frame in Hin. subst f. discriminate.
  - apply In_deliveries in Hin. rewrite Hin. discriminate.
Qed.

(** The [user-left] of a room with a code.  In a reachable world take a
    registered session.  When its room id is [null] or empty,
    [detachFromRoom] detaches nothing and sends nothing.
    When its room code is [r], not empty, [detachFromRoom] detaches it: it
    was a member of the room under [r], and [detachFromRoom], [onClose],
    [onError] and a join (which detaches first) put on the wire one
    [user-left] with its identity for each remaining member whose socket
    accepts it, and nothing else before the frames of the join itself.  The
    remaining members are distinct sessions, they are the other registered
    sessions of the room, the departing session is not among them and no
    [user-left] goes to its socket; when none remains there is no
    [user-left]. *)
Theorem user_left_on_detach rt w c a :
  reachable w -> sessions w !! c = Some a ->
  (truthyString (roomId (heap w a)) = false -> detachFromRoom rt a w = Ret tt w)
  /\ (forall r, roomId (heap w a) = Some r -> r <> "" ->
      exists room : JsMap.t Ref,
        activeRooms w !! r = Some room /\ JsMap.get c room = Some a /\
        let remaining := map snd (JsMap.delete c room) in
        let notice := map (fun m => (socket (heap w m), UserLeftEvent c))
                          (List.filter (fun m => accepts rt (socket (heap w m))) remaining) in
        wire (state_of (detachFromRoom rt a w)) = wire w ++ notice
        /\ wire (state_of (onClose rt c w)) = wire w ++ notice
        /\ wire (state_of (onError rt c w)) = wire w ++ notice
        /\ (forall props room_id,
              own_property props "type" = JString "join" ->
              own_property props "roomId" = JString room_id -> room_id <> "" ->
              exists rest,
                wire (state_of (onMessage rt c (Some (JObject props)) w)) = (wire w ++ notice) ++ rest
                /\ forall f x, In f rest -> snd f <> UserLeftEvent x)
        /\ NoDup remaining
        /\ ~ In a remaining
        /\ (forall f, In f notice -> fst f <> socket (heap w a))
        /\ (forall m, In m remaining
                      <-> m <> a /\ exists c', sessions w !! c' = Some m
                                               /\ roomId (heap w m) = Some r)
        /\ (remaining = [] -> notice = [])).
Proof.
  intros Hreach Hc. pose proof (reachable_Inv w Hreach) as HI. split.
  { intros Hout. rewrite detachFromRoom_run. f_equal. unfold detached. cbv zeta.
    destruct (truthyString_false _ Hout) as [->| ->]; reflexivity. }
  intros r Hroom Hne.
  destruct (inv_in_room w HI c a r Hc Hroom) as (room & Hr & Hget).
  exists room. split; [exact Hr|]. split; [exact Hget|]. cbv zeta.
  pose proof (detached_wire rt w c a r room HI Hc Hroom Hne Hr) as Hwire.
  assert (Hrem := fun m => remaining_spec w r room c a m HI Hne Hc Hr).
  destruct (inv_rooms w HI r room Hr) as [Hnd _].
  split; [now rewrite detachFromRoom_run|].
  assert (Hclosed : wire (closed rt c w) = wire (detached rt a w)).
  { unfold closed. now rewrite Hc. }
  split; [rewrite onClose_run; simpl; congruence|].
  split; [rewrite onError_run; simpl; congruence|].
  split.
  { intros props room_id Htype Hid Hblank. rewrite onMessage_run. simpl.
    unfold received. rewrite Hc. simpl. rewrite Htype, Hid. simpl.
    apply String.eqb_neq in Hblank. rewrite Hblank.
    destruct (joined_wire rt a (JObject props) room_id w) as (rest & Hjoin & Hrest).
    exists rest. split; [|exact Hrest]. rewrite Hjoin, Hroom. simpl.
    apply String.eqb_neq in Hne. rewrite Hne. simpl. now rewrite Hwire. }
  split.
  { apply (NoDup_values (fun a => id (heap w a))).
    - now apply JsMap.NoDup_keys_delete.
    - intros k m Hin. apply JsMap.In_delete in Hin as [Hin _].
      apply (inv_member w HI r room k m Hr). now apply JsMap.In_get. }
  split; [intros Hin; apply Hrem in Hin as [Hin _]; now apply Hin|].
  split.
  { intros f Hin Hsock. apply in_map_iff in Hin as (m & <- & Hin).
    apply filter_In in Hin as [Hin _]. simpl in Hsock.
    apply Hrem in Hin as (Hma & c' & Hs & _).
    apply Hma. assert (c' = c) as -> by now apply (inv_sockets w HI c' m c a). congruence. }
  split; [exact Hrem|].
  now intros ->.
Qed.

Definition den : World :=
  run [(calm, Open "a" 1); (calm, Open "b" 2); (calm, Message "a" (joinFrame "den"));
       (calm, Message "b" (joinFrame " Den "))] initial.

Lemma den_reachable : reachable den.
Proof. by_running. Qed.

Lemma user_left_on_detach_witness :
  exists room : JsMap.t Ref,
    activeRooms den !! "DEN" = Some room /\ JsMap.get "b" room = Some 1%nat /\
    let remaining := map snd (JsMap.delete "b" room) in
    let notice := map (fun m => (socket (heap den m), UserLeftEvent "b"))
                      (List.filter (fun m => accepts calm (socket (heap den m))) remaining) in
    wire (state_of (detachFromRoom calm 1%nat den)) = wire den ++ notice
    /\ wire (state_of (onClose calm "b" den)) = wire den ++ notice
    /\ wire (state_of (onError calm "b" den)) = wire den ++ notice
    /\ (forall props room_id,
          own_property props "type" = JString "join" ->
          own_property props "roomId" = JString room_id -> room_id <> "" ->
          exists rest,
            wire (state_of (onMessage calm "b" (Some (JObject props)) den))
            = (wire den ++ notice) ++ rest
            /\ forall f x, In f rest -> snd f <> UserLeftEvent x)
    /\ NoDup remaining
    /\ ~ In 1%nat remaining
    /\ (forall f, In f notice -> fst f <> socket (heap den 1%nat))
    /\ (forall m, In m remaining
                  <-> m <> 1%nat
                      /\ exists c', sessions den !! c' = Some m /\ roomId (heap den m) = Some "DEN")
    /\ (remaining = [] -> notice = []).
Proof.
  destruct (user_left_on_detach calm den "b" 1%nat den_reachable eq_refl) as [_ H].
  apply (H "DEN"); [vm_compute; reflexivity|discriminate].
Defined.

(** The scenario of the specification: X joins as host, Y joins as guest, Y
    disconnects. *)
Example scenario_of_the_specification :
  let join displayName role :=
    Some (JObject [("type", JString "join"); ("roomId", JString "AB23CD");
                   ("displayName", JString displayName); ("role", JString role)]) in
  wire (run [(calm, Open "X" 10); (calm, Message "X" (join "Alex" "host"));
             (calm, Open "Y" 11); (calm, Message "Y" (join "Sam" "guest"));
             (calm, Close "Y")] initial)
  = [(10%nat, WelcomeEvent "X");
     (10%nat, RoomStateEvent []);
     (11%nat, WelcomeEvent "Y");
     (11%nat, RoomStateEvent [{| ps_clientId := "X"; ps_displayName := Some "Alex";
                                 ps_role := host |}]);
     (10%nat, UserJoinedEvent {| ps_clientId := "Y"; ps_displayName := Some "Sam";
                                 ps_role := guest |});
     (10%nat, UserLeftEvent "Y")].
Proof. vm_compute. reflexivity. Qed.

(** ** [handleChatMessage] *)

Lemma strict_eq_string_JString s s' : strict_eq_string (JString s) s' = String.eqb s s'.
Proof. reflexivity. Qed.

(** The message id of a chat event, read off the message. *)
Definition messageIdOf (rt : Runtime) (props : list (string * JsValue)) : string :=
  match own_property props "messageId" with
  | JString supplied => if String.eqb supplied "" then makeId rt else supplied
  | _ => makeId rt
  end.

Lemma chatMessageId_messageIdOf rt props :
  chatMessageId rt (JObject props) = messageIdOf rt props.
Proof.
  unfold chatMessageId, messageIdOf. simpl.
  destruct (own_property props "messageId"); try reflexivity.
  now destruct (String.eqb s "").
Qed.

(** C4, as the code has it.  In a reachable world let a registered session
    send a chat message whose text is a string.  When its room id is [null]
    nothing happens.  When its room code is [r], not empty, the room under
    [r] exists and one chat event goes to every member of that room whose
    socket accepts it, and to nobody else; the members are distinct, the
    sender is one of them, and they are the registered sessions whose room is
    [r].  The message id of the event is the one supplied when that is a
    string that is not empty, and the result of [makeId()] otherwise. *)
Theorem chat_reaches_the_room rt w c a props text :
  reachable w -> sessions w !! c = Some a ->
  own_property props "type" = JString "chat" ->
  own_property props "text" = JString text ->
  (roomId (heap w a) = None -> onMessage rt c (Some (JObject props)) w = Ret tt w)
  /\ (forall r, roomId (heap w a) = Some r -> r <> "" ->
        exists room : JsMap.t Ref,
          activeRooms w !! r = Some room
          /\ onMessage rt c (Some (JObject props)) w
             = Ret tt (emit (map (fun m => (socket (heap w m),
                                            ChatEvent c text (messageIdOf rt props) (now rt)))
                               (List.filter (fun m => accepts rt (socket (heap w m)))
                                  (map snd room))) w)
          /\ In a (map snd room)
          /\ NoDup (map snd room)
          /\ (forall m, In m (map snd room)
                        <-> exists c', sessions w !! c' = Some m /\ roomId (heap w m) = Some r))
  /\ (forall supplied, own_property props "messageId" = JString supplied -> supplied <> "" ->
        messageIdOf rt props = supplied)
  /\ ((forall supplied, own_property props "messageId" = JString supplied -> supplied = "") ->
        messageIdOf rt props = makeId rt).
Proof.
  intros Hreach Hc Htype Htext. pose proof (reachable_Inv w Hreach) as HI.
  assert (Hrun : onMessage rt c (Some (JObject props)) w
                 = Ret tt (emit (chatFrames rt a (JObject props) w) w)).
  { rewrite onMessage_run. unfold received. rewrite Hc. simpl. now rewrite Htype. }
  split; [|split; [|split]].
  - intros Hroom. rewrite Hrun. unfold chatFrames. simpl. rewrite Htext, Hroom. simpl.
    now rewrite emit_nil.
  - intros r Hroom Hne.
    destruct (inv_in_room w HI c a r Hc Hroom) as (room & Hr & Hget).
    exists room. split; [exact Hr|]. split; [|split; [|split]].
    + rewrite Hrun. unfold chatFrames, roomOf. simpl. rewrite Htext, Hroom. simpl.
      apply String.eqb_neq in Hne. rewrite Hne, Hr. simpl.
      rewrite deliveries_filter, chatMessageId_messageIdOf.
      now rewrite (proj2 (inv_registered w HI c a Hc)).
    + apply in_map_iff. exists (c, a). split; [reflexivity|]. now apply JsMap.get_Some_In.
    + now apply (members_NoDup w r).
    + intros m. now apply members_live.
  - intros supplied Hid Hne. unfold messageIdOf. rewrite Hid.
    apply String.eqb_neq in Hne. now rewrite Hne.
  - intros Hnone. unfold messageIdOf.
    destruct (own_property props "messageId"); try reflexivity.
    now rewrite (Hnone s eq_refl).
Qed.

Definition chatProps (messageId : JsValue) : list (string * JsValue) :=
  [("type", JString "chat"); ("text", JString "hi"); ("messageId", messageId)].

Lemma chat_reaches_the_room_witness :
  exists room : JsMap.t Ref,
    activeRooms den !! "DEN" = Some room
    /\ onMessage calm "a" (Some (JObject (chatProps (JString "m-17")))) den
       = Ret tt (emit (map (fun m => (socket (heap den m), ChatEvent "a" "hi" "m-17" (now calm)))
                         (List.filter (fun m => accepts calm (socket (heap den m)))
                            (map snd room))) den)
    /\ In 0%nat (map snd room)
    /\ NoDup (map snd room)
    /\ (forall m, In m (map snd room)
                  <-> exists c', sessions den !! c' = Some m /\ roomId (heap den m) = Some "DEN").
Proof.
  destruct (chat_reaches_the_room calm den "a" 0%nat (chatProps (JString "m-17")) "hi"
              den_reachable eq_refl eq_refl eq_refl) as (_ & H & _).
  apply (H "DEN"); [vm_compute; reflexivity|discriminate].
Defined.

(** C4 as stated fails: a message id that is present and is a string, the
    empty one, is not the message id of the chat event. *)
Lemma chat_empty_messageId_is_replaced :
  reachable den
  /\ roomId (heap den 0%nat) = Some "DEN"
  /\ own_property (chatProps (JString "")) "messageId" = JString ""
  /\ onMessage calm "a" (Some (JObject (chatProps (JString "")))) den
     = Ret tt (emit [(1%nat, ChatEvent "a" "hi" "fresh" 7); (2%nat, ChatEvent "a" "hi" "fresh" 7)] den)
  /\ "fresh" <> "".
Proof.
  split; [exact den_reachable|]. split; [vm_compute; reflexivity|]. split; [reflexivity|].
  split; [vm_compute; reflexivity|discriminate].
Qed.

(** ** Frames that [onMessage] drops *)

(** The reasons for which the frame [data] of the session [session] is
    dropped in the world [w]: the text is not JSON; the value is not an
    object; its [type] is none of the three; or the handler of its type finds
    its precondition false. *)
Inductive Ignored (w : World) (session : Ref) : Frame -> Prop :=
| ignored_unparseable :
    Ignored w session None
| ignored_falsy v :
    truthy v = false -> Ignored w session (Some v)
| ignored_not_an_object v :
    typeof v <> "object" -> Ignored w session (Some v)
| ignored_unknown_type v :
    property v "type" <> JString "join" -> property v "type" <> JString "signal" ->
    property v "type" <> JString "chat" -> Ignored w session (Some v)
| ignored_join_without_room v :
    property v "type" = JString "join" ->
    (forall room_id, property v "roomId" = JString room_id -> room_id = "") ->
    Ignored w session (Some v)
| ignored_signal_without_room v :
    property v "type" = JString "signal" ->
    truthyString (roomId (heap w session)) = false -> Ignored w session (Some v)
| ignored_signal_without_target v :
    property v "type" = JString "signal" ->
    truthy (property v "targetClientId") = false -> Ignored w session (Some v)
| ignored_signal_to_stranger v :
    property v "type" = JString "signal" ->
    getByValue (property v "targetClientId") (roomOf w (roomId (heap w session))) = None ->
    Ignored w session (Some v)
| ignored_chat_without_room v :
    property v "type" = JString "chat" ->
    truthyString (roomId (heap w session)) = false -> Ignored w session (Some v)
| ignored_chat_without_text v :
    property v "type" = JString "chat" ->
    (forall text, property v "text" <> JString text) -> Ignored w session (Some v).

Lemma strict_eq_string_false v s : v <> JString s -> strict_eq_string v s = false.
Proof.
  intros H. destruct v; try reflexivity. simpl. apply String.eqb_neq. congruence.
Qed.

Lemma received_ignored rt c session data w :
  sessions w !! c = Some session -> Ignored w session data -> received rt c data w = w.
Proof.
  intros Hc Hign. unfold received. rewrite Hc.
  destruct Hign as [|v Hv|v Hv|v Hj Hs Hch|v Ht Hroom|v Ht Hroom|v Ht Htarget|v Ht Hget
                    |v Ht Hroom|v Ht Htext]; try reflexivity.
  - now rewrite Hv.
  - apply String.eqb_neq in Hv. rewrite Hv. now rewrite orb_true_r.
  - destruct (negb (truthy v) || _); [reflexivity|].
    now rewrite !strict_eq_string_false.
  - destruct (negb (truthy v) || _); [reflexivity|]. rewrite Ht. simpl.
    destruct (property v "roomId") as [| | | |room_id| |]; try reflexivity.
    now rewrite (Hroom room_id eq_refl).
  - destruct (negb (truthy v) || _); [reflexivity|]. rewrite Ht. simpl.
    unfold signalFrames. cbv zeta. rewrite Hroom. simpl. apply emit_nil.
  - destruct (negb (truthy v) || _); [reflexivity|]. rewrite Ht. simpl.
    unfold signalFrames. cbv zeta. rewrite Htarget, orb_true_r. apply emit_nil.
  - destruct (negb (truthy v) || _); [reflexivity|]. rewrite Ht. simpl.
    unfold signalFrames. cbv zeta. rewrite Hget.
    destruct (negb _ || negb _); apply emit_nil.
  - destruct (negb (truthy v) || _); [reflexivity|]. rewrite Ht. simpl.
    unfold chatFrames. cbv zeta. rewrite Hroom. simpl.
    destruct (property v "text"); apply emit_nil.
  - destruct (negb (truthy v) || _); [reflexivity|]. rewrite Ht. simpl.
    unfold chatFrames. cbv zeta.
    destruct (property v "text") eqn:E; try apply emit_nil. now destruct (Htext s).
Qed.

(** ** The first version of the hub drops what it cannot read *)

Lemma poc_onMessage_returns rt clientId data (w : Poc.World) :
  exists w', Poc.onMessage rt clientId data w = Ret tt w'.
Proof.
  assert (Hsend : forall sock payload w0,
            exists w1, Poc.sendJson rt sock payload w0 = Ret tt w1).
  { intros sock payload w0. unfold Poc.sendJson, Poc.socket_send, try_catch.
    destruct (readyState rt sock); try (eexists; reflexivity).
    destruct (sendThrows rt sock); eexists; reflexivity. }
  assert (Hloop : forall payload clients w0,
            exists w1, for_of clients (fun client => Poc.sendJson rt (Poc.socket client) payload) w0
                       = Ret tt w1).
  { intros payload clients. induction clients as [|client rest IH]; intros w0; simpl.
    - eexists; reflexivity.
    - unfold bind. destruct (Hsend (Poc.socket client) payload w0) as [w1 ->]. apply IH. }
  unfold Poc.onMessage. destruct data as [payload|]; [|eexists; reflexivity].
  unfold bind at 1. unfold try_catch, Poc.JSON_parse, bind, ret.
  destruct (negb (truthy payload) || _ || _); [eexists; reflexivity|].
  destruct (property payload "text"); try (eexists; reflexivity).
  unfold Poc.broadcast, gets. apply Hloop.
Qed.

Lemma poc_onMessage_ignored rt clientId data (w : Poc.World) :
  match data with
  | None => True
  | Some v => truthy v = false \/ property v "type" <> JString "chat"
              \/ forall text, property v "text" <> JString text
  end ->
  Poc.onMessage rt clientId data w = Ret tt w.
Proof.
  unfold Poc.onMessage. destruct data as [v|]; [|reflexivity].
  unfold bind at 1. unfold try_catch, Poc.JSON_parse, bind, ret.
  intros [H|[H|H]].
  - now rewrite H.
  - now rewrite (strict_eq_string_false _ _ H), orb_true_r.
  - destruct (property v "text") eqn:E; try (simpl; now rewrite orb_true_r).
    now destruct (H s).
Qed.

(** C9.  [onMessage] never throws: whatever the world, the runtime and the
    frame, it returns.  When the connection has no session, or the frame is
    [Ignored] (not JSON, not an object, of an unknown type, or refused by the
    precondition of its handler), it returns in the world in which it
    started: no session, no room and no frame on any wire has changed.  (The
    ledger is not in the [World]: no handler of the hub can reach it.)  The
    first version of the hub does the same with a frame that is not JSON, is
    falsy, is not of type "chat" or has no text. *)
Theorem onMessage_drops_silently rt c data :
  (forall w,
     (exists w', onMessage rt c data w = Ret tt w')
     /\ (sessions w !! c = None -> onMessage rt c data w = Ret tt w)
     /\ (forall session, sessions w !! c = Some session -> Ignored w session data ->
           onMessage rt c data w = Ret tt w))
  /\ (forall w : Poc.World,
        (exists w', Poc.onMessage rt c data w = Ret tt w')
        /\ (match data with
            | None => True
            | Some v => truthy v = false \/ property v "type" <> JString "chat"
                        \/ forall text, property v "text" <> JString text
            end -> Poc.onMessage rt c data w = Ret tt w)).
Proof.
  split.
  - intros w. split; [|split].
    + exists (received rt c data w). apply onMessage_run.
    + intros Hc. rewrite onMessage_run. unfold received. now rewrite Hc.
    + intros session Hc Hign. rewrite onMessage_run. f_equal.
      now apply (received_ignored rt c session).
  - intros w. split; [apply poc_onMessage_returns|apply poc_onMessage_ignored].
Qed.

(** ** The directory of the rooms whose code is not empty *)

(** In every reachable world: a session with a room id is a member of the
    room under that id; the members of a room whose code is not empty are
    registered sessions; and a session is a member of at most one such room. *)
Lemma directory_of_named_rooms w :
  reachable w ->
  (forall c a r, sessions w !! c = Some a -> roomId (heap w a) = Some r ->
     exists room : JsMap.t Ref, activeRooms w !! r = Some room /\ JsMap.get c room = Some a)
  /\ (forall r (room : JsMap.t Ref) c a,
        r <> "" -> activeRooms w !! r = Some room -> JsMap.get c room = Some a ->
        sessions w !! c = Some a)
  /\ (forall r1 r2 (room1 room2 : JsMap.t Ref) c1 c2 a,
        r1 <> "" -> r2 <> "" ->
        activeRooms w !! r1 = Some room1 -> JsMap.get c1 room1 = Some a ->
        activeRooms w !! r2 = Some room2 -> JsMap.get c2 room2 = Some a ->
        r1 = r2).
Proof.
  intros Hreach. pose proof (reachable_Inv w Hreach) as HI. split; [|split].
  - exact (inv_in_room w HI).
  - intros r room c a Hne Hr Hget. now apply (inv_live w HI r room).
  - intros r1 r2 room1 room2 c1 c2 a Hne1 Hne2 Hr1 Hget1 Hr2 Hget2.
    destruct (inv_live w HI r1 room1 c1 a Hne1 Hr1 Hget1) as [_ H1].
    destruct (inv_live w HI r2 room2 c2 a Hne2 Hr2 Hget2) as [_ H2]. congruence.
Qed.

Lemma joined_fields rt session message room_id w :
  sessions (joined rt session message room_id w) = sessions w
  /\ roomId (heap (joined rt session message room_id w) session)
     = Some (toUpperCase (trim room_id)).
Proof.
  unfold joined, attached, prepared. cbv zeta. simpl. rewrite store_same. split; [|reflexivity].
  destruct (truthyString (roomId (heap w session))); [|reflexivity].
  unfold detached. cbv zeta. destruct (roomId (heap w session)); [|reflexivity].
  destruct (String.eqb s ""); [reflexivity|]. now destruct (activeRooms w !! s).
Qed.


(** A signal from a session whose room code is [r], not empty: when the
    target is a string that is not empty and names a member of the room under
    [r], one signal event goes to the socket of that member, if it accepts
    it, and the world is otherwise unchanged; when the target does not name a
    member, nothing happens. *)
Lemma signal_in_named_room rt w c a r props :
  reachable w -> sessions w !! c = Some a -> roomId (heap w a) = Some r -> r <> "" ->
  own_property props "type" = JString "signal" ->
  exists room : JsMap.t Ref,
    activeRooms w !! r = Some room
    /\ (forall t b, own_property props "targetClientId" = JString t -> t <> "" ->
          JsMap.get t room = Some b ->
          sessions w !! t = Some b
          /\ onMessage rt c (Some (JObject props)) w
             = Ret tt (emit (frame rt (socket (heap w b))
                               (SignalRelayEvent c (nullish_to_null (own_property props "payload"))))
                            w))
    /\ (getByValue (own_property props "targetClientId") room = None ->
          onMessage rt c (Some (JObject props)) w = Ret tt w).
Proof.
  intros Hreach Hc Hroom Hne Htype. pose proof (reachable_Inv w Hreach) as HI.
  destruct (inv_in_room w HI c a r Hc Hroom) as (room & Hr & Hget).
  exists room. split; [exact Hr|].
  assert (Hrun : onMessage rt c (Some (JObject props)) w
                 = Ret tt (emit (signalFrames rt a (JObject props) w) w)).
  { rewrite onMessage_run. unfold received. rewrite Hc. simpl. now rewrite Htype. }
  assert (Hof : roomOf w (roomId (heap w a)) = room).
  { unfold roomOf. rewrite Hroom. simpl. now rewrite Hr. }
  split.
  - intros t b Ht Htne Hb. split; [now apply (inv_live w HI r room)|].
    rewrite Hrun. unfold signalFrames. cbv zeta. rewrite Hof. simpl. rewrite Ht, Hroom. simpl.
    apply String.eqb_neq in Hne, Htne. rewrite Hne, Htne, Hb. simpl.
    now rewrite (proj2 (inv_registered w HI c a Hc)).
  - intros Hnone. rewrite Hrun. unfold signalFrames. cbv zeta. rewrite Hof. simpl.
    rewrite Hnone. destruct (negb _ || negb _); now rewrite emit_nil.
Qed.

Lemma directory_of_named_rooms_witness :
  (forall c a r, sessions den !! c = Some a -> roomId (heap den a) = Some r ->
     exists room : JsMap.t Ref, activeRooms den !! r = Some room /\ JsMap.get c room = Some a)
  /\ (forall r (room : JsMap.t Ref) c a,
        r <> "" -> activeRooms den !! r = Some room -> JsMap.get c room = Some a ->
        sessions den !! c = Some a)
  /\ (forall r1 r2 (room1 room2 : JsMap.t Ref) c1 c2 a,
        r1 <> "" -> r2 <> "" ->
        activeRooms den !! r1 = Some room1 -> JsMap.get c1 room1 = Some a ->
        activeRooms den !! r2 = Some room2 -> JsMap.get c2 room2 = Some a ->
        r1 = r2).
Proof. apply (directory_of_named_rooms den). exact den_reachable. Defined.


Definition offerProps : list (string * JsValue) :=
  [("type", JString "signal"); ("targetClientId", JString "b"); ("payload", JString "offer")].

Lemma signal_in_named_room_witness :
  exists room : JsMap.t Ref,
    activeRooms den !! "DEN" = Some room
    /\ (forall t b, own_property offerProps "targetClientId" = JString t -> t <> "" ->
          JsMap.get t room = Some b ->
          sessions den !! t = Some b
          /\ onMessage calm "a" (Some (JObject offerProps)) den
             = Ret tt (emit (frame calm (socket (heap den b))
                               (SignalRelayEvent "a"
                                  (nullish_to_null (own_property offerProps "payload"))))
                            den))
    /\ (getByValue (own_property offerProps "targetClientId") room = None ->
          onMessage calm "a" (Some (JObject offerProps)) den = Ret tt den).
Proof.
  apply (signal_in_named_room calm den "a" 0%nat "DEN" offerProps).
  - exact den_reachable.
  - vm_compute. reflexivity.
  - vm_compute. reflexivity.
  - discriminate.
  - reflexivity.
Defined.

(** * More about the hub *)

(** ** The runtime and the wire never reach the state *)

(** Two worlds with the same sessions, session objects and rooms; their
    wires may differ. *)
Definition agree (w1 w2 : World) : Prop :=
  heap w1 = heap w2 /\ next w1 = next w2 /\ sessions w1 = sessions w2
  /\ activeRooms w1 = activeRooms w2.

Lemma agree_refl w : agree w w.
Proof. now repeat split. Qed.

Lemma agree_emit_l frames w1 w2 : agree w1 w2 -> agree (emit frames w1) w2.
Proof. intros H. exact H. Qed.

Lemma agree_emit_r frames w1 w2 : agree w1 w2 -> agree w1 (emit frames w2).
Proof. intros H. exact H. Qed.

Lemma agree_detached rt1 rt2 session w1 w2 :
  agree w1 w2 -> agree (detached rt1 session w1) (detached rt2 session w2).
Proof.
  intros (Hh & Hn & Hs & Hr). unfold detached. cbv zeta. rewrite <- Hh, <- Hr.
  destruct (roomId (heap w1 session)) as [current|]; [|now repeat split].
  destruct (String.eqb current ""); [now repeat split|].
  destruct (activeRooms w1 !! current); unfold agree; simpl; now rewrite Hn, Hs.
Qed.

Lemma agree_attached session room_id w1 w2 :
  agree w1 w2 -> agree (attached session room_id w1) (attached session room_id w2).
Proof.
  intros (Hh & Hn & Hs & Hr). unfold attached, agree. cbv zeta. simpl.
  now rewrite Hh, Hn, Hs, Hr.
Qed.

Lemma agree_prepared rt1 rt2 session message w1 w2 :
  agree w1 w2 -> agree (prepared rt1 session message w1) (prepared rt2 session message w2).
Proof.
  intros H. unfold prepared. cbv zeta.
  assert (Hh : heap w1 = heap w2) by apply H. rewrite <- Hh.
  set (v1 := if truthyString (roomId (heap w1 session)) then detached rt1 session w1 else w1).
  set (v2 := if truthyString (roomId (heap w1 session)) then detached rt2 session w2 else w2).
  assert (Hv : agree v1 v2).
  { subst v1 v2. destruct (truthyString _); [now apply agree_detached|exact H]. }
  destruct Hv as (Hh' & Hn & Hs & Hr). unfold agree. simpl. now rewrite Hh', Hn, Hs, Hr.
Qed.

Lemma agree_joined rt1 rt2 session message room_id w1 w2 :
  agree w1 w2 ->
  agree (joined rt1 session message room_id w1) (joined rt2 session message room_id w2).
Proof.
  intros H. unfold joined. cbv zeta. apply agree_emit_l, agree_emit_r.
  now apply agree_attached, agree_prepared.
Qed.

Lemma agree_received rt1 rt2 clientId data w1 w2 :
  agree w1 w2 -> agree (received rt1 clientId data w1) (received rt2 clientId data w2).
Proof.
  intros H. assert (Hs : sessions w1 = sessions w2) by apply H.
  unfold received. rewrite <- Hs.
  destruct (sessions w1 !! clientId) as [session|]; [|exact H].
  destruct data as [payload|]; [|exact H].
  destruct (negb (truthy payload) || _); [exact H|].
  destruct (strict_eq_string (property payload "type") "join").
  { destruct (property payload "roomId"); try exact H.
    destruct (String.eqb s ""); [exact H|]. now apply agree_joined. }
  destruct (strict_eq_string (property payload "type") "signal").
  { now apply agree_emit_l, agree_emit_r. }
  destruct (strict_eq_string (property payload "type") "chat").
  { now apply agree_emit_l, agree_emit_r. }
  exact H.
Qed.

Lemma agree_closed rt1 rt2 clientId w1 w2 :
  agree w1 w2 -> agree (closed rt1 clientId w1) (closed rt2 clientId w2).
Proof.
  intros H. assert (Hs : sessions w1 = sessions w2) by apply H.
  unfold closed. rewrite <- Hs.
  destruct (sessions w1 !! clientId) as [session|]; [|exact H].
  destruct (agree_detached rt1 rt2 session w1 w2 H) as (Hh & Hn & Hs' & Hr).
  unfold agree. simpl. now rewrite Hh, Hn, Hs', Hr.
Qed.

Lemma agree_after rt1 rt2 ev w1 w2 :
  agree w1 w2 -> agree (after rt1 ev w1) (after rt2 ev w2).
Proof.
  intros H. destruct ev as [clientId ws|clientId data|clientId|clientId]; simpl.
  - apply agree_emit_l, agree_emit_r. destruct H as (Hh & Hn & Hs & Hr).
    unfold agree, registered. simpl. now rewrite Hh, Hn, Hs, Hr.
  - now apply agree_received.
  - now apply agree_closed.
  - now apply agree_closed.
Qed.

(** The events of a run, with the runtimes of another run. *)
Fixpoint sameEvents (evs1 evs2 : list (Runtime * Event)) : Prop :=
  match evs1, evs2 with
  | [], [] => True
  | (_, ev1) :: rest1, (_, ev2) :: rest2 => ev1 = ev2 /\ sameEvents rest1 rest2
  | _, _ => False
  end.

(** Sessions, session objects and rooms depend on the events only.  Two runs
    of the same events end with the same sessions, the same fields in every
    session object and the same rooms, whatever the sockets did (open or
    not, [send] throwing or not), whatever [makeId] and [Date.now] returned,
    and whatever was on the wire: a failed send never changes the state. *)
Theorem state_ignores_the_runtime evs1 : forall evs2 w1 w2,
  sameEvents evs1 evs2 -> agree w1 w2 -> agree (run evs1 w1) (run evs2 w2).
Proof.
  induction evs1 as [|[rt1 ev1] rest1 IH]; intros [|[rt2 ev2] rest2] w1 w2 Hsame Hagree;
    simpl in *; try contradiction; [exact Hagree|].
  destruct Hsame as [<- Hsame]. apply IH; [exact Hsame|].
  rewrite !state_of_handle. now apply agree_after.
Qed.

(** A runtime in which no socket is open. *)
Definition deaf : Runtime :=
  {| readyState := fun _ => CLOSED; sendThrows := fun _ => true; makeId := "other"; now := 0 |}.

Lemma state_ignores_the_runtime_witness :
  agree (run [(calm, Open "a" 1); (calm, Message "a" (joinFrame "den")); (calm, Close "a")] initial)
        (run [(deaf, Open "a" 1); (deaf, Message "a" (joinFrame "den")); (deaf, Close "a")] initial).
Proof.
  apply state_ignores_the_runtime.
  - simpl. tauto.
  - apply agree_refl.
Defined.

(** ** What a join announces *)

Lemma detached_session rt session w :
  id (heap (detached rt session w) session) = id (heap w session)
  /\ socket (heap (detached rt session w) session) = socket (heap w session)
  /\ displayName (heap (detached rt session w) session) = displayName (heap w session)
  /\ role (heap (detached rt session w) session) = role (heap w session).
Proof.
  unfold detached. cbv zeta. destruct (roomId (heap w session)) as [current|]; [|tauto].
  destruct (String.eqb current ""); [tauto|].
  destruct (activeRooms w !! current); simpl; rewrite store_same; tauto.
Qed.

Lemma detached_others rt session w m :
  m <> session -> heap (detached rt session w) m = heap w m.
Proof.
  intros Hm. unfold detached. cbv zeta.
  destruct (roomId (heap w session)) as [current|]; [|reflexivity].
  destruct (String.eqb current ""); [reflexivity|].
  destruct (activeRooms w !! current); simpl; now rewrite store_other.
Qed.

Lemma detached_untouched rt session w :
  truthyString (roomId (heap w session)) = false -> detached rt session w = w.
Proof.
  intros H. unfold detached. cbv zeta.
  destruct (truthyString_false _ H) as [->| ->]; reflexivity.
Qed.

Lemma left_or_stayed rt session w :
  (if truthyString (roomId (heap w session)) then detached rt session w else w)
  = detached rt session w.
Proof.
  destruct (truthyString (roomId (heap w session))) eqn:E; [reflexivity|].
  symmetry. now apply detached_untouched.
Qed.

Lemma joined_session rt session message room_id w :
  heap (joined rt session message room_id w) session
  = {| id := id (heap w session); socket := socket (heap w session);
       roomId := Some (toUpperCase (trim room_id));
       displayName := trimmedOrNull (property message "displayName");
       role := roleOf (property message "role") |}.
Proof.
  unfold joined, attached, prepared. cbv zeta. rewrite left_or_stayed. simpl.
  rewrite !store_same. unfold set_roomId, set_role, set_displayName. simpl.
  destruct (detached_session rt session w) as (-> & -> & _). reflexivity.
Qed.

Lemma joined_others rt session message room_id w m :
  m <> session -> heap (joined rt session message room_id w) m = heap w m.
Proof.
  intros Hm. unfold joined, attached, prepared. cbv zeta. rewrite left_or_stayed. simpl.
  rewrite !store_other by exact Hm. now apply detached_others.
Qed.

Lemma others_delete h self (room : JsMap.t Ref) :
  others h self room = map (fun m => summary (h m)) (map snd (JsMap.delete self room)).
Proof.
  unfold others, JsMap.delete. induction room as [|[k m] rest IH]; [reflexivity|]. simpl.
  destruct (String.eqb k self); simpl; now rewrite IH.
Qed.

Lemma recipients_exclude self (room : JsMap.t Ref) :
  self <> "" -> recipients (Some self) room = map snd (JsMap.delete self room).
Proof.
  intros Hself. unfold recipients, JsMap.delete. f_equal.
  apply String.eqb_neq in Hself. apply filter_ext. intros [k m]. simpl. now rewrite Hself.
Qed.

(** A join to a room whose code is not empty, by a registered session whose
    identity is not empty, in a reachable world.  The session gets the room
    code, the display name of the message, trimmed ([null] when blank or not
    a string) and the role "host" exactly when the message says "host", no
    token asked; the other session objects are untouched.  After what
    [detachFromRoom] sent, the wire receives one [room-state] on the socket
    of the joiner, listing the other members of the room in the order of the
    room with their current names and roles, and then one [user-joined] with
    the joiner's summary for each other member whose socket accepts it.  The
    other members are distinct, they are the other registered sessions whose
    room this is, and none of them has the socket of the joiner. *)
Theorem join_announces rt w c a props room_id :
  reachable w -> sessions w !! c = Some a -> c <> "" ->
  own_property props "type" = JString "join" ->
  own_property props "roomId" = JString room_id -> room_id <> "" ->
  toUpperCase (trim room_id) <> "" ->
  let n := toUpperCase (trim room_id) in
  let w' := state_of (onMessage rt c (Some (JObject props)) w) in
  let me := {| ps_clientId := c;
               ps_displayName := trimmedOrNull (own_property props "displayName");
               ps_role := roleOf (own_property props "role") |} in
  summary (heap w' a) = me
  /\ roomId (heap w' a) = Some n
  /\ socket (heap w' a) = socket (heap w a)
  /\ (forall m, m <> a -> heap w' m = heap w m)
  /\ sessions w' = sessions w
  /\ exists room' : JsMap.t Ref,
       activeRooms w' !! n = Some room' /\ JsMap.get c room' = Some a /\
       let fellows := map snd (JsMap.delete c room') in
       wire w'
       = wire (state_of (detachFromRoom rt a w))
         ++ frame rt (socket (heap w a))
              (RoomStateEvent (map (fun m => summary (heap w m)) fellows))
         ++ map (fun m => (socket (heap w m), UserJoinedEvent me))
              (List.filter (fun m => accepts rt (socket (heap w m))) fellows)
       /\ NoDup fellows
       /\ (forall m, In m fellows
                     <-> m <> a /\ exists c', sessions w' !! c' = Some m
                                              /\ roomId (heap w' m) = Some n)
       /\ (forall m, In m fellows -> socket (heap w m) <> socket (heap w a)).
Proof.
  intros Hreach Hc Hcne Htype Hid Hblank Hn. cbv zeta.
  pose proof (reachable_Inv w Hreach) as HI.
  assert (Hstep : state_of (onMessage rt c (Some (JObject props)) w)
                  = joined rt a (JObject props) room_id w).
  { rewrite onMessage_run. simpl. unfold received. rewrite Hc. simpl. rewrite Htype, Hid. simpl.
    apply String.eqb_neq in Hblank. now rewrite Hblank. }
  assert (Hreach' : reachable (state_of (onMessage rt c (Some (JObject props)) w))).
  { apply (reachable_step w rt (Message c (Some (JObject props)))); easy. }
  rewrite Hstep in *. set (w' := joined rt a (JObject props) room_id w) in *.
  pose proof (reachable_Inv w' Hreach') as HI'.
  destruct (inv_registered w HI c a Hc) as [_ Hida].
  assert (Hme : heap w' a = {| id := c; socket := socket (heap w a);
                               roomId := Some (toUpperCase (trim room_id));
                               displayName := trimmedOrNull (own_property props "displayName");
                               role := roleOf (own_property props "role") |}).
  { subst w'. rewrite joined_session, Hida. reflexivity. }
  assert (Hothers : forall m, m <> a -> heap w' m = heap w m).
  { intros m Hm. subst w'. now apply joined_others. }
  assert (Hs' : sessions w' = sessions w) by (subst w'; apply joined_fields).
  assert (Hwire : wire w'
            = wire (detached rt a w)
              ++ frame rt (socket (heap w' a))
                   (RoomStateEvent (others (heap w') (id (heap w' a))
                                      (roomOf w' (roomId (heap w' a)))))
              ++ deliveries rt (heap w') (UserJoinedEvent (summary (heap w' a)))
                   (recipients (Some (id (heap w' a))) (roomOf w' (roomId (heap w' a))))).
  { subst w'. rewrite <- (left_or_stayed rt a w). reflexivity. }
  clearbody w'.
  assert (Hc' : sessions w' !! c = Some a) by now rewrite Hs'.
  assert (Hroom' : roomId (heap w' a) = Some (toUpperCase (trim room_id))) by now rewrite Hme.
  split; [now rewrite Hme|]. split; [exact Hroom'|]. split; [now rewrite Hme|].
  split; [exact Hothers|]. split; [exact Hs'|].
  destruct (inv_in_room w' HI' c a _ Hc' Hroom') as (room' & Hr' & Hget').
  exists room'. split; [exact Hr'|]. split; [exact Hget'|]. cbv zeta.
  assert (Hrem := fun m => remaining_spec w' _ room' c a m HI' Hn Hc' Hr').
  assert (Hfellow : forall m, In m (map snd (JsMap.delete c room')) -> heap w' m = heap w m).
  { intros m Hin. apply Hothers. now apply Hrem in Hin. }
  split; [|split; [|split]].
  - rewrite detachFromRoom_run. cbn [state_of].
    rewrite Hwire. f_equal.
    assert (Hof : roomOf w' (roomId (heap w' a)) = room').
    { unfold roomOf. rewrite Hroom'. simpl. now rewrite Hr'. }
    rewrite Hof, Hme. cbn [id socket summary displayName role].
    rewrite others_delete, (recipients_exclude c room' Hcne), deliveries_filter.
    f_equal.
    + f_equal. f_equal. apply map_ext_in. intros m Hin. now rewrite (Hfellow m Hin).
    + assert (Hfilter : List.filter (fun m => accepts rt (socket (heap w' m)))
                          (map snd (JsMap.delete c room'))
                        = List.filter (fun m => accepts rt (socket (heap w m)))
                            (map snd (JsMap.delete c room'))).
      { apply filter_ext_in. intros m Hin. now rewrite (Hfellow m Hin). }
      rewrite Hfilter. apply map_ext_in. intros m Hin. apply filter_In in Hin as [Hin _].
      now rewrite (Hfellow m Hin).
  - apply (NoDup_values (fun m => id (heap w' m))).
    + apply JsMap.NoDup_keys_delete. now apply (inv_rooms w' HI' (toUpperCase (trim room_id)) room').
    + intros k m Hin. apply JsMap.In_delete in Hin as [Hin _].
      apply (inv_member w' HI' _ room' k m Hr'). apply JsMap.In_get; [|exact Hin].
      now apply (inv_rooms w' HI' (toUpperCase (trim room_id)) room').
  - exact Hrem.
  - intros m Hin Hsock. pose proof (Hfellow m Hin) as Hsame.
    apply Hrem in Hin as (Hma & c' & Hsm & _). apply Hma.
    assert (c' = c) as ->.
    { apply (inv_sockets w' HI' c' m c a Hsm Hc'). rewrite Hsame, Hme. exact Hsock. }
    congruence.
Qed.

Definition hostJoin : list (string * JsValue) :=
  [("type", JString "join"); ("roomId", JString " den "); ("displayName", JString " Kim ");
   ("role", JString "host"); ("hostToken", JString "not the token")].

Definition lobby : World :=
  run [(calm, Open "a" 1); (calm, Open "b" 2); (calm, Open "c" 3);
       (calm, Message "a" (joinFrame "den")); (calm, Message "b" (joinFrame "den"));
       (calm, Message "c" (joinFrame "hall"))] initial.

Lemma lobby_reachable : reachable lobby.
Proof. by_running. Qed.

Lemma join_announces_witness :
  let w' := state_of (onMessage calm "c" (Some (JObject hostJoin)) lobby) in
  let me := {| ps_clientId := "c"; ps_displayName := Some "Kim"; ps_role := host |} in
  summary (heap w' 2%nat) = me
  /\ roomId (heap w' 2%nat) = Some "DEN"
  /\ wire w'
     = wire lobby
       ++ [(3%nat, RoomStateEvent [{| ps_clientId := "a"; ps_displayName := None; ps_role := guest |};
                                   {| ps_clientId := "b"; ps_displayName := None; ps_role := guest |}]);
           (1%nat, UserJoinedEvent me); (2%nat, UserJoinedEvent me)].
Proof.
  destruct (join_announces calm lobby "c" 2%nat hostJoin " den " lobby_reachable eq_refl)
    as (Hme & Hroom & _); try discriminate; try reflexivity.
  split; [exact Hme|]. split; [exact Hroom|]. vm_compute. reflexivity.
Defined.

(** ** What a close leaves *)

Lemma detached_rooms rt w c a r (room : JsMap.t Ref) :
  Inv w -> sessions w !! c = Some a -> roomId (heap w a) = Some r -> r <> "" ->
  activeRooms w !! r = Some room ->
  activeRooms (detached rt a w) = leave r c room (activeRooms w).
Proof.
  intros HI Hc Hroom Hne Hr. unfold detached. cbv zeta. rewrite Hroom.
  apply String.eqb_neq in Hne. rewrite Hne, Hr.
  now rewrite (proj2 (inv_registered w HI c a Hc)).
Qed.

Lemma detached_sessions rt a w : sessions (detached rt a w) = sessions w.
Proof.
  unfold detached. cbv zeta. destruct (roomId (heap w a)) as [r|]; [|reflexivity].
  destruct (String.eqb r ""); [reflexivity|]. now destruct (activeRooms w !! r).
Qed.

(** The close, or the error, of a registered connection in a reachable
    world.  The session is no longer registered and the other session
    objects are untouched.  When its room code was [r], not empty, the room
    under [r] has lost it and is gone from the directory if it was alone in
    it; every other room is as it was.  In what is left, no room with a code
    that is not empty holds the session, none is empty, and all their
    members are registered. *)
Theorem close_clears_the_session rt w c a :
  reachable w -> sessions w !! c = Some a ->
  let w' := state_of (onClose rt c w) in
  state_of (onError rt c w) = w'
  /\ sessions w' = delete c (sessions w)
  /\ (forall m, m <> a -> heap w' m = heap w m)
  /\ (forall r (room : JsMap.t Ref),
        roomId (heap w a) = Some r -> r <> "" -> activeRooms w !! r = Some room ->
        activeRooms w' !! r
        = match JsMap.delete c room with [] => None | _ :: _ => Some (JsMap.delete c room) end)
  /\ (forall r, roomId (heap w a) <> Some r \/ r = "" ->
        activeRooms w' !! r = activeRooms w !! r)
  /\ (forall r (room : JsMap.t Ref),
        r <> "" -> activeRooms w' !! r = Some room ->
        JsMap.get c room = None /\ room <> []
        /\ forall c' m, JsMap.get c' room = Some m -> sessions w' !! c' = Some m).
Proof.
  intros Hreach Hc. cbv zeta. pose proof (reachable_Inv w Hreach) as HI.
  assert (Hreach' : reachable (state_of (onClose rt c w))).
  { apply (reachable_step w rt (Close c)); easy. }
  rewrite onError_run, onClose_run in *. cbn [state_of] in *.
  pose proof (reachable_Inv _ Hreach') as HI'.
  assert (Hclosed : closed rt c w
                    = with_sessions (delete c (sessions (detached rt a w))) (detached rt a w)).
  { unfold closed. now rewrite Hc. }
  assert (Hs : sessions (closed rt c w) = delete c (sessions w)).
  { rewrite Hclosed. simpl. now rewrite detached_sessions. }
  split; [reflexivity|]. split; [exact Hs|]. split; [|split; [|split]].
  - intros m Hm. rewrite Hclosed. simpl. now apply detached_others.
  - intros r room Hroom Hne Hr. rewrite Hclosed. simpl.
    rewrite (detached_rooms rt w c a r room HI Hc Hroom Hne Hr). apply lookup_leave_eq.
  - intros r Hr. rewrite Hclosed. simpl. unfold detached. cbv zeta.
    destruct (roomId (heap w a)) as [current|] eqn:Hroom; [|reflexivity].
    destruct (String.eqb_spec current "") as [->|Hne]; [reflexivity|].
    destruct (inv_in_room w HI c a current Hc Hroom) as (room & Hfound & _).
    rewrite Hfound. simpl. apply lookup_leave_ne.
    destruct Hr as [Hr| ->]; congruence.
  - intros r room Hne Hr.
    destruct (inv_rooms _ HI' r room Hr) as [_ Hnonempty].
    assert (Hlive : forall c' m, JsMap.get c' room = Some m ->
                                 sessions (closed rt c w) !! c' = Some m).
    { intros c' m Hget. now apply (inv_live _ HI' r room c' m Hne Hr). }
    split; [|split; [exact Hnonempty|exact Hlive]].
    destruct (JsMap.get c room) as [m|] eqn:Hget; [|reflexivity].
    apply Hlive in Hget. rewrite Hs, lookup_delete_eq in Hget. discriminate.
Qed.

Lemma close_clears_the_session_witness :
  let w' := state_of (onClose calm "c" lobby) in
  state_of (onError calm "c" lobby) = w'
  /\ sessions w' = delete "c" (sessions lobby)
  /\ activeRooms w' !! "HALL" = None
  /\ activeRooms w' !! "DEN" = activeRooms lobby !! "DEN".
Proof.
  destruct (close_clears_the_session calm lobby "c" 2%nat lobby_reachable eq_refl)
    as (Herr & Hs & _ & Hown & Hother & _).
  split; [exact Herr|]. split; [exact Hs|]. split.
  - rewrite (Hown "HALL" [("c", 2%nat)]); [reflexivity|reflexivity|discriminate|reflexivity].
  - apply Hother. left. discriminate.
Defined.

(** ** From open to close *)

(** A connection whose identity is not registered opens and then closes,
    having sent nothing.  The new session starts with no room, no display
    name and the role of a guest.  After the close the sessions and the
    rooms are what they were before the open, the session objects that
    existed are untouched, and the only frame is the [welcome] of the
    connection, on its own socket. *)
Theorem open_then_close rt rt' w c ws :
  sessions w !! c = None ->
  let opened := state_of (onOpen rt c ws w) in
  let w' := state_of (onClose rt' c opened) in
  sessions opened = <[c := next w]> (sessions w)
  /\ heap opened (next w)
     = {| id := c; socket := ws; roomId := None; displayName := None; role := guest |}
  /\ sessions w' = sessions w
  /\ activeRooms w' = activeRooms w
  /\ wire w' = wire w ++ frame rt ws (WelcomeEvent c)
  /\ forall m, m <> next w -> heap w' m = heap w m.
Proof.
  intros Hfresh. cbv zeta. rewrite onOpen_run. cbn [state_of]. rewrite onClose_run. cbn [state_of].
  unfold closed. cbn [sessions emit registered]. rewrite lookup_insert_eq.
  unfold detached. cbv zeta. cbn [heap emit registered]. rewrite store_same.
  cbn [roomId sessions activeRooms wire with_sessions heap emit registered].
  split; [reflexivity|]. split; [reflexivity|].
  split; [now rewrite delete_insert_id|]. split; [reflexivity|]. split; [reflexivity|].
  intros m Hm. now apply store_other.
Qed.

Lemma open_then_close_witness :
  let opened := state_of (onOpen calm "z" 9 lobby) in
  let w' := state_of (onClose deaf "z" opened) in
  sessions opened = <["z" := next lobby]> (sessions lobby)
  /\ heap opened (next lobby)
     = {| id := "z"; socket := 9; roomId := None; displayName := None; role := guest |}
  /\ sessions w' = sessions lobby
  /\ activeRooms w' = activeRooms lobby
  /\ wire w' = wire lobby ++ frame calm 9 (WelcomeEvent "z")
  /\ forall m, m <> next lobby -> heap w' m = heap lobby m.
Proof. apply (open_then_close calm deaf lobby "z" 9). vm_compute. reflexivity. Defined.

(** ** Joining the room one is in *)

Lemma set_new {V : Type} k (v : V) (m : JsMap.t V) :
  JsMap.get k m = None -> JsMap.set k v m = m ++ [(k, v)].
Proof.
  induction m as [|[k' v'] rest IH]; simpl; [reflexivity|].
  destruct (String.eqb k' k); [discriminate|]. intros H. now rewrite IH.
Qed.

(** A registered session of a reachable world whose room code is [r], not
    empty, joins a room id that normalizes to [r].  It stays a member of the
    room under [r]: the members are the same, in the same order, except that
    the session is now the last one.  Every other room and the registry are
    as they were. *)
Theorem join_same_room rt w c a r (room : JsMap.t Ref) props room_id :
  reachable w -> sessions w !! c = Some a ->
  roomId (heap w a) = Some r -> r <> "" -> activeRooms w !! r = Some room ->
  own_property props "type" = JString "join" ->
  own_property props "roomId" = JString room_id -> room_id <> "" ->
  toUpperCase (trim room_id) = r ->
  let w' := state_of (onMessage rt c (Some (JObject props)) w) in
  activeRooms w' !! r = Some (JsMap.delete c room ++ [(c, a)])
  /\ (forall r', r' <> r -> activeRooms w' !! r' = activeRooms w !! r')
  /\ sessions w' = sessions w
  /\ roomId (heap w' a) = Some r.
Proof.
  intros Hreach Hc Hroom Hne Hr Htype Hid Hblank Hnorm. cbv zeta.
  pose proof (reachable_Inv w Hreach) as HI.
  assert (Hstep : state_of (onMessage rt c (Some (JObject props)) w)
                  = joined rt a (JObject props) room_id w).
  { rewrite onMessage_run. simpl. unfold received. rewrite Hc. simpl. rewrite Htype, Hid. simpl.
    apply String.eqb_neq in Hblank. now rewrite Hblank. }
  rewrite Hstep.
  destruct (joined_fields rt a (JObject props) room_id w) as [Hs Hroom'].
  assert (Hrooms : activeRooms (joined rt a (JObject props) room_id w)
                   = <[r := JsMap.delete c room ++ [(c, a)]]> (leave r c room (activeRooms w))).
  { unfold joined, attached, prepared. cbv zeta. rewrite left_or_stayed. simpl.
    rewrite !store_same. simpl.
    destruct (detached_session rt a w) as (-> & _).
    rewrite (proj2 (inv_registered w HI c a Hc)), Hnorm.
    rewrite (detached_rooms rt w c a r room HI Hc Hroom Hne Hr).
    f_equal. rewrite lookup_leave_eq.
    assert (Hgone : JsMap.get c (JsMap.delete c room) = None) by apply JsMap.get_delete_eq.
    destruct (JsMap.delete c room) as [|e rest] eqn:E; [reflexivity|].
    simpl default. now apply set_new. }
  split; [|split; [|split]].
  - rewrite Hrooms. apply lookup_insert_eq.
  - intros r' Hr'. rewrite Hrooms, lookup_insert_ne by congruence. now apply lookup_leave_ne.
  - exact Hs.
  - now rewrite Hroom', Hnorm.
Qed.

Lemma join_same_room_witness :
  let w' := state_of (onMessage calm "a" (joinFrame " Den") lobby) in
  activeRooms w' !! "DEN" = Some (JsMap.delete "a" [("a", 0%nat); ("b", 1%nat)] ++ [("a", 0%nat)])
  /\ (forall r', r' <> "DEN" -> activeRooms w' !! r' = activeRooms lobby !! r')
  /\ sessions w' = sessions lobby
  /\ roomId (heap w' 0%nat) = Some "DEN".
Proof.
  apply (join_same_room calm lobby "a" 0%nat "DEN" [("a", 0%nat); ("b", 1%nat)]
           [("type", JString "join"); ("roomId", JString " Den")] " Den").
  - exact lobby_reachable.
  - vm_compute. reflexivity.
  - vm_compute. reflexivity.
  - discriminate.
  - vm_compute. reflexivity.
  - reflexivity.
  - reflexivity.
  - discriminate.
  - reflexivity.
Defined.

(** ** The first version of the hub: a chat goes to everyone *)

Lemma poc_sendJson_run rt sock payload (w : Poc.World) :
  Poc.sendJson rt sock payload w
  = Ret tt (Poc.emit (if accepts rt sock then [(sock, payload)] else []) w).
Proof.
  assert (Hnil : Poc.emit [] w = w).
  { destruct w. unfold Poc.emit. simpl. now rewrite app_nil_r. }
  unfold Poc.sendJson, Poc.socket_send, accepts, try_catch.
  destruct (readyState rt sock); rewrite ?Hnil; try reflexivity.
  destruct (sendThrows rt sock); simpl; now rewrite ?Hnil.
Qed.

Lemma poc_broadcast_run rt payload (clients : list Poc.ClientSession) : forall w : Poc.World,
  for_of clients (fun client => Poc.sendJson rt (Poc.socket client) payload) w
  = Ret tt (Poc.emit (map (fun client => (Poc.socket client, payload))
                        (List.filter (fun client => accepts rt (Poc.socket client)) clients)) w).
Proof.
  induction clients as [|client rest IH]; intros w; simpl.
  - destruct w. unfold ret, Poc.emit. simpl. now rewrite app_nil_r.
  - unfold bind. rewrite poc_sendJson_run, IH.
    destruct (accepts rt (Poc.socket client)); unfold Poc.emit; simpl.
    + now rewrite <- app_assoc.
    + now rewrite app_nil_r.
Qed.

(** In the first version of the hub a chat message with a text goes, once,
    to every session of the registry whose socket accepts it, whoever sent
    it: the sender need not be registered, and there are no rooms.  The
    message id is the one supplied when it is a string that is not empty and
    a new one otherwise; the registry is unchanged. *)
Theorem poc_chat_reaches_everyone rt c props text (w : Poc.World) :
  own_property props "type" = JString "chat" ->
  own_property props "text" = JString text ->
  Poc.onMessage rt c (Some (JObject props)) w
  = Ret tt (Poc.emit
              (map (fun client => (Poc.socket client,
                                   ChatEvent c text (messageIdOf rt props) (now rt)))
                 (List.filter (fun client => accepts rt (Poc.socket client))
                    (JsMap.values (Poc.sessions w)))) w).
Proof.
  intros Htype Htext. unfold Poc.onMessage. unfold bind at 1.
  unfold try_catch, Poc.JSON_parse, bind, ret. simpl. rewrite Htype, Htext. simpl.
  unfold Poc.broadcast, gets, bind. rewrite poc_broadcast_run.
  assert (Hid : match own_property props "messageId" with
                | JString supplied => if negb (String.eqb supplied "") then supplied else makeId rt
                | _ => makeId rt
                end = messageIdOf rt props).
  { unfold messageIdOf. destruct (own_property props "messageId"); try reflexivity.
    now destruct (String.eqb s ""). }
  now rewrite Hid.
Qed.

Definition pocWorld : Poc.World :=
  state_of (Poc.onClose "b"
    (state_of (Poc.onOpen calm "c" 3
      (state_of (Poc.onOpen calm "b" 2
        (state_of (Poc.onOpen calm "a" 1 {| Poc.sessions := []; Poc.wire := [] |}))))))).

Lemma poc_chat_reaches_everyone_witness :
  Poc.onMessage calm "b" (Some (JObject (chatProps (JString "m-1")))) pocWorld
  = Ret tt (Poc.emit [(1%nat, ChatEvent "b" "hi" "m-1" 7); (3%nat, ChatEvent "b" "hi" "m-1" 7)]
              pocWorld).
Proof.
  rewrite (poc_chat_reaches_everyone calm "b" (chatProps (JString "m-1")) "hi" pocWorld eq_refl eq_refl).
  reflexivity.
Defined.

End Index.

(** * The REST routes of [index.ts] *)

Module Rest.

Import MemoryStore.
Local Open Scope js_scope.

(** The bodies that the routes answer with. *)
Inductive Body : Type :=
| RoomCreated (roomId hostToken : string) (createdAt : Z)
| Joined (roomId participantId : string) (role : ParticipantRole) (displayName : option string)
         (joinedAt createdAt : Z) (participants : list RoomParticipant)
| Failed (error message : string)
| Status (service mode : string) (uptime : float) (rooms clients : nat)
| Health (status : string).

Record Response : Type := {
  status : nat;
  body : Body;
}.

(** [c.json(body, status)] *)
Definition json (b : Body) (code : nat) : Response := {| status := code; body := b |}.

(** ["k" in payload], for the names the routes ask for. *)
Definition hasProperty (payload : JsValue) (k : string) : bool :=
  match payload with
  | JObject props => existsb (fun entry => String.eqb (fst entry) k) props
  | _ => false
  end.

(** [payload && typeof payload === "object" && k in payload ? payload[k] ?? null : null] *)
Definition fieldOrNull (payload : JsValue) (k : string) : JsValue :=
  if truthy payload && String.eqb (typeof payload) "object" && hasProperty payload k
  then nullish_to_null (property payload k)
  else JNull.

Definition roleName (role : ParticipantRole) : string :=
  match role with
  | host => "host"
  | guest => "guest"
  end.

(** A [string | null] handed to [joinRoom]. *)
Definition orNull (s : option string) : JsValue :=
  match s with
  | Some s' => JString s'
  | None => JNull
  end.

(** [POST /rooms].  The route reads and forgets the body; [createRoom] is
    called outside of every [try], so what it throws leaves the route. *)
Definition postRooms (env : Env) : M Store Response :=
  result <- createRoom env ;;
  ret (json (RoomCreated (cr_roomId result) (cr_hostToken result) (cr_createdAt result)) 201).

(** [POST /rooms/:roomId/join].  [requestBody] is what [c.req.json()] makes of
    the body, [None] when it throws; [contentLength] is the header. *)
Definition postJoin (roomId : string) (requestBody : option JsValue)
    (contentLength : option string) (env : Env) : M Store Response :=
  match requestBody, truthyString contentLength with
  | None, true =>
      ret (json (Failed "invalid_payload" "Request body must be valid JSON") 400)
  | _, _ =>
      let payload := match requestBody with Some v => v | None => JNull end in
      let rawDisplayName := fieldOrNull payload "displayName" in
      let displayName := trimmedOrNull rawDisplayName in
      let requestedRole := fieldOrNull payload "role" in
      let hostToken := fieldOrNull payload "hostToken" in
      let role := roleOf requestedRole in
      try_catch
        (joinResult <- joinRoom (JString roomId)
                         {| jo_displayName := orNull displayName;
                            jo_role := JString (roleName role);
                            jo_hostToken := match hostToken with
                                            | JString _ => hostToken
                                            | _ => JNull
                                            end |} env ;;
         summary <- getRoomSummary roomId ;;
         ret (json (Joined (jr_roomId joinResult) (jr_participantId joinResult)
                      (jr_role joinResult) (jr_displayName joinResult)
                      (jr_joinedAt joinResult) (rs_createdAt summary)
                      (map copyParticipant (rs_participants summary))) 200))
        (fun error =>
           match error with
           | RoomNotFoundError _ =>
               ret (json (Failed "room_not_found" "Specified room does not exist") 404)
           | InvalidHostTokenError =>
               ret (json (Failed "invalid_host_token" "Host token is invalid for this room") 403)
           | _ => ret (json (Failed "internal_error" "Failed to join room") 500)
           end)
  end.

(** [GET /]: [uptime] is what [process.uptime()] returns; the counts are the
    sizes of the two maps of the hub. *)
Definition getStatus (uptime : float) (w : Index.World) : Response :=
  json (Status "werewolf-signaling" "mesh-mvp" uptime
          (size (Index.activeRooms w)) (size (Index.sessions w))) 200.

(** [GET /healthz] *)
Definition getHealth : Response := json (Health "ok") 200.

(** ** [trim] is idempotent *)

Lemma trimEnd_cons c rest k kept :
  trimEnd rest = String k kept -> trimEnd (String c rest) = String c (String k kept).
Proof. intros H. simpl. now rewrite H. Qed.

Lemma trimEnd_idempotent s : trimEnd (trimEnd s) = trimEnd s.
Proof.
  induction s as [|c rest IH]; [reflexivity|]. simpl.
  destruct (trimEnd rest) as [|k kept] eqn:E.
  - destruct (isWhiteSpace c) eqn:Hc; [reflexivity|]. simpl. now rewrite Hc.
  - now apply trimEnd_cons.
Qed.

Lemma trimStart_head s :
  trimStart s = EmptyString \/ exists c rest, trimStart s = String c rest /\ isWhiteSpace c = false.
Proof.
  induction s as [|c rest IH]; [now left|]. simpl.
  destruct (isWhiteSpace c) eqn:Hc; [exact IH|]. right. now exists c, rest.
Qed.

Lemma trimEnd_head c rest :
  isWhiteSpace c = false -> exists kept, trimEnd (String c rest) = String c kept.
Proof.
  intros Hc. simpl. destruct (trimEnd rest) as [|k kept].
  - rewrite Hc. now exists EmptyString.
  - now exists (String k kept).
Qed.

Lemma trim_idempotent s : trim (trim s) = trim s.
Proof.
  unfold trim. destruct (trimStart_head s) as [->|(c & rest & -> & Hc)]; [reflexivity|].
  destruct (trimEnd_head c rest Hc) as [kept Hkept]. rewrite Hkept.
  cbn [trimStart]. rewrite Hc, <- Hkept. apply trimEnd_idempotent.
Qed.

Lemma trimmedOrNull_orNull v :
  trimmedOrNull (orNull (trimmedOrNull v)) = trimmedOrNull v.
Proof.
  destruct v; try reflexivity. simpl.
  destruct (0 <? String.length (trim s))%nat eqn:E; [|reflexivity].
  simpl. now rewrite trim_idempotent, E.
Qed.

(** ** What [POST /rooms/:roomId/join] answers *)

(** The options that the route hands to [joinRoom]. *)
Definition routeOptions (payload : JsValue) : JoinRoomOptions :=
  {| jo_displayName := orNull (trimmedOrNull (fieldOrNull payload "displayName"));
     jo_role := JString (roleName (roleOf (fieldOrNull payload "role")));
     jo_hostToken := match fieldOrNull payload "hostToken" with
                     | JString _ => fieldOrNull payload "hostToken"
                     | _ => JNull
                     end |}.

(** The route once the body has been read. *)
Definition joinAndAnswer (roomId : string) (payload : JsValue) (env : Env) : M Store Response :=
  try_catch
    (joinResult <- joinRoom (JString roomId) (routeOptions payload) env ;;
     summary <- getRoomSummary roomId ;;
     ret (json (Joined (jr_roomId joinResult) (jr_participantId joinResult)
                  (jr_role joinResult) (jr_displayName joinResult)
                  (jr_joinedAt joinResult) (rs_createdAt summary)
                  (map copyParticipant (rs_participants summary))) 200))
    (fun error =>
       match error with
       | RoomNotFoundError _ =>
           ret (json (Failed "room_not_found" "Specified room does not exist") 404)
       | InvalidHostTokenError =>
           ret (json (Failed "invalid_host_token" "Host token is invalid for this room") 403)
       | _ => ret (json (Failed "internal_error" "Failed to join room") 500)
       end).

Lemma postJoin_unfold roomId requestBody contentLength env :
  postJoin roomId requestBody contentLength env
  = match requestBody, truthyString contentLength with
    | None, true => ret (json (Failed "invalid_payload" "Request body must be valid JSON") 400)
    | _, _ => joinAndAnswer roomId (match requestBody with Some v => v | None => JNull end) env
    end.
Proof. unfold postJoin. destruct requestBody, (truthyString contentLength); reflexivity. Qed.

Lemma roleOf_roleName role : roleOf (JString (roleName role)) = role.
Proof. now destruct role. Qed.

Lemma tokenRejected_route payload room :
  tokenRejected (jo_hostToken (routeOptions payload)) room
  = tokenRejected (fieldOrNull payload "hostToken") room.
Proof.
  unfold routeOptions. simpl. unfold tokenRejected.
  destruct (fieldOrNull payload "hostToken"); simpl; rewrite ?orb_true_r; reflexivity.
Qed.

(** The participant that the route stores. *)
Definition routeParticipant (payload : JsValue) (env : Env) : RoomParticipant :=
  {| rp_participantId := makeId env;
     rp_displayName := trimmedOrNull (fieldOrNull payload "displayName");
     rp_role := roleOf (fieldOrNull payload "role");
     rp_joinedAt := now env |}.

Lemma joinAndAnswer_found (rooms : Store) roomId payload env room :
  trim roomId <> EmptyString -> rooms !! normalizeRoomId roomId = Some room ->
  joinAndAnswer roomId payload env rooms
  = if match roleOf (fieldOrNull payload "role") with
       | host => tokenRejected (fieldOrNull payload "hostToken") room
       | guest => false
       end
    then Ret (json (Failed "invalid_host_token" "Host token is invalid for this room") 403) rooms
    else Ret (json (Joined (normalizeRoomId roomId) (makeId env)
                      (roleOf (fieldOrNull payload "role"))
                      (trimmedOrNull (fieldOrNull payload "displayName"))
                      (now env) (rr_createdAt room)
                      (roster (addParticipant room (routeParticipant payload env)))) 200)
             (<[normalizeRoomId roomId := addParticipant room (routeParticipant payload env)]> rooms).
Proof.
  intros Hraw Hroom. unfold joinAndAnswer, try_catch. unfold bind at 1.
  rewrite (joinRoom_found rooms roomId room (routeOptions payload) env Hraw Hroom).
  rewrite tokenRejected_route.
  assert (Hrole : roleOf (jo_role (routeOptions payload)) = roleOf (fieldOrNull payload "role")).
  { apply roleOf_roleName. }
  assert (Hp : forall role, role = roleOf (fieldOrNull payload "role") ->
            newParticipant (routeOptions payload) env role = routeParticipant payload env).
  { intros role ->. unfold newParticipant, routeParticipant. simpl.
    now rewrite trimmedOrNull_orNull. }
  rewrite Hrole.
  assert (Hok : forall role, role = roleOf (fieldOrNull payload "role") ->
    match
      bind (getRoomSummary roomId)
        (fun summary =>
           ret (json (Joined (jr_roomId (joinResult (normalizeRoomId roomId) (routeOptions payload) env role))
                        (jr_participantId (joinResult (normalizeRoomId roomId) (routeOptions payload) env role))
                        (jr_role (joinResult (normalizeRoomId roomId) (routeOptions payload) env role))
                        (jr_displayName (joinResult (normalizeRoomId roomId) (routeOptions payload) env role))
                        (jr_joinedAt (joinResult (normalizeRoomId roomId) (routeOptions payload) env role))
                        (rs_createdAt summary)
                        (map copyParticipant (rs_participants summary))) 200))
        (<[normalizeRoomId roomId := addParticipant room (newParticipant (routeOptions payload) env role)]> rooms)
    with
    | Ret a st' => Ret a st'
    | Throw e st' =>
        match e with
        | RoomNotFoundError _ =>
            ret (json (Failed "room_not_found" "Specified room does not exist") 404)
        | InvalidHostTokenError =>
            ret (json (Failed "invalid_host_token" "Host token is invalid for this room") 403)
        | _ => ret (json (Failed "internal_error" "Failed to join room") 500)
        end st'
    end
    = Ret (json (Joined (normalizeRoomId roomId) (makeId env)
                   (roleOf (fieldOrNull payload "role"))
                   (trimmedOrNull (fieldOrNull payload "displayName"))
                   (now env) (rr_createdAt room)
                   (roster (addParticipant room (routeParticipant payload env)))) 200)
          (<[normalizeRoomId roomId := addParticipant room (routeParticipant payload env)]> rooms)).
  { intros role Hr. rewrite (Hp role Hr). unfold bind. rewrite getRoomSummary_run, lookup_insert_eq.
    unfold ret. simpl. rewrite trimmedOrNull_orNull. subst role.
    unfold roster. now rewrite (map_ext _ _ copyParticipant_id), map_id. }
  destruct (roleOf (fieldOrNull payload "role")) eqn:E.
  - destruct (tokenRejected (fieldOrNull payload "hostToken") room); [reflexivity|].
    now apply Hok.
  - now apply Hok.
Qed.



(** A host joins with the token, a host with a number for a token is turned
    away, a body that is not JSON is refused when it was announced and read
    as a guest when it was not. *)
Example postJoin_examples :
  let hostBody token :=
    Some (JObject [("displayName", JString "  Alex "); ("role", JString "host");
                   ("hostToken", token)]) in
  status (match postJoin "ab23cd" (hostBody (JString "t1")) (Some "64") exampleEnv exampleStore with
          | Ret response _ => response | Throw _ _ => json (Health "") 0 end) = 200%nat
  /\ postJoin "ab23cd" (hostBody (JNumber PrimFloat.one)) (Some "64") exampleEnv exampleStore
     = Ret (json (Failed "invalid_host_token" "Host token is invalid for this room") 403)
           exampleStore
  /\ postJoin "ab23cd" None (Some "3") exampleEnv exampleStore
     = Ret (json (Failed "invalid_payload" "Request body must be valid JSON") 400) exampleStore
  /\ postJoin "ab23cd" None None exampleEnv exampleStore
     = Ret (json (Joined "AB23CD" "p1" guest None 2000 1000
                    [{| rp_participantId := "p1"; rp_displayName := None; rp_role := guest;
                        rp_joinedAt := 2000 |}]) 200)
           (<["AB23CD" := addParticipant exampleRoom
                            {| rp_participantId := "p1"; rp_displayName := None;
                               rp_role := guest; rp_joinedAt := 2000 |}]> exampleStore)
  /\ postJoin "zz" (hostBody (JString "t1")) None exampleEnv exampleStore
     = Ret (json (Failed "room_not_found" "Specified room does not exist") 404) exampleStore.
Proof. repeat split; vm_compute; reflexivity. Qed.

(** ** What [POST /rooms] answers *)

(** [POST /rooms] answers 201 with a room code that was not in the store,
    and the store then holds an empty room under that code with the token
    and the time of the answer; or [createRoom] throws, the route throws
    with it and the store is unchanged.  After a 201, a [POST] to join that
    room in any casing as host with the token of the answer is answered 200,
    when the token is not empty. *)
Theorem postRooms_answers env (rooms : Store) :
  (exists roomId,
     isRoomCode roomId /\ rooms !! roomId = None
     /\ postRooms env rooms
        = Ret (json (RoomCreated roomId (makeId env) (now env)) 201)
              (<[roomId := freshRoom roomId env]> rooms)
     /\ forall mask env' displayName,
          makeId env <> EmptyString ->
          exists response rooms',
            postJoin (recase mask roomId)
              (Some (JObject [("role", JString "host"); ("hostToken", JString (makeId env));
                              ("displayName", displayName)]))
              None env' (<[roomId := freshRoom roomId env]> rooms)
            = Ret response rooms'
            /\ status response = 200%nat)
  \/ (postRooms env rooms = Throw (Error "Failed to allocate a unique room id") rooms
      /\ forall attempts, (attempts < 20)%nat -> candidate (random env) attempts ∈ dom rooms).
Proof.
  unfold postRooms, bind.
  pose proof (createRoom_run env rooms) as Hrun.
  pose proof (generateRoomId_loop_spec (dom rooms) (random env) 20 0) as Hgen.
  fold (generateRoomId (dom rooms) (random env)) in Hgen.
  destruct (generateRoomId (dom rooms) (random env)) as [e|roomId].
  - right. rewrite Hrun. destruct Hgen as [-> Hall]. split; [reflexivity|exact Hall].
  - left. exists roomId. destruct (createRoom_returns _ _ _ _ Hrun) as ([Hlen Hcode] & Hfresh & _).
    simpl in Hlen, Hcode, Hfresh. rewrite Hrun.
    split; [now split|]. split; [now apply not_elem_of_dom|]. split; [reflexivity|].
    intros mask env' displayName Htoken. rewrite postJoin_unfold.
    assert (Hnorm : normalizeRoomId (recase mask roomId) = roomId).
    { unfold normalizeRoomId.
      rewrite (trim_noWhiteSpace _ (recase_noWhiteSpace roomId mask Hcode)).
      now apply recase_toUpperCase. }
    assert (Hraw : trim (recase mask roomId) <> EmptyString).
    { intros Hempty. unfold normalizeRoomId in Hnorm. rewrite Hempty in Hnorm.
      simpl in Hnorm. rewrite <- Hnorm in Hlen. discriminate Hlen. }
    assert (Hroom : (<[roomId := freshRoom roomId env]> rooms) !! normalizeRoomId (recase mask roomId)
                    = Some (freshRoom roomId env)).
    { rewrite Hnorm. apply lookup_insert_eq. }
    rewrite (joinAndAnswer_found _ _ _ env' _ Hraw Hroom).
    assert (Hok : tokenRejected
                    (fieldOrNull (JObject [("role", JString "host");
                                           ("hostToken", JString (makeId env));
                                           ("displayName", displayName)]) "hostToken")
                    (freshRoom roomId env) = false).
    { apply (tokenRejected_iff _ (freshRoom roomId env) Htoken). reflexivity. }
    rewrite Hok. change (roleOf _) with host at 1. do 2 eexists. split; reflexivity.
Qed.

(** ** What [GET /] counts *)

(** A map is no larger than another when its keys are matched with keys of
    the other, no key of the other serving two. *)
Lemma size_le_matched {A B : Type} (R : string -> string -> Prop) (m1 : gmap string A) :
  forall m2 : gmap string B,
    (forall k, is_Some (m1 !! k) -> exists c, is_Some (m2 !! c) /\ R k c) ->
    (forall k k' c, R k c -> R k' c -> k = k') ->
    size m1 <= size m2.
Proof.
  induction m1 as [|k x m1 Hfresh IH] using map_ind; intros m2 Hmatch Hinj.
  - rewrite map_size_empty. lia.
  - destruct (Hmatch k) as (c & [y Hc] & Hkc); [rewrite lookup_insert_eq; eauto|].
    rewrite (map_size_insert_None _ _ _ Hfresh).
    rewrite <- (insert_delete_id m2 c y Hc).
    rewrite map_size_insert_None by apply lookup_delete_eq.
    apply le_n_S, IH; [|exact Hinj].
    intros k' Hk'. assert (Hne : k' <> k) by (intros ->; rewrite Hfresh in Hk'; now destruct Hk').
    destruct (Hmatch k') as (c' & Hc' & Hkc'); [now rewrite lookup_insert_ne|].
    exists c'. split; [|exact Hkc'].
    rewrite lookup_delete_ne; [exact Hc'|]. intros <-. apply Hne. now apply (Hinj k' k c).
Qed.

Lemma first_member {V : Type} (room : JsMap.t V) :
  room <> [] -> exists c a, JsMap.get c room = Some a.
Proof.
  destruct room as [|[c a] rest]; [congruence|]. intros _. exists c, a. simpl.
  now rewrite String.eqb_refl.
Qed.

(** Whatever the clients have done, [GET /] answers 200 with a number of
    rooms that exceeds the number of clients by one at most, and does not
    exceed it as long as the directory has no room under the empty code. *)
Theorem status_counts uptime w :
  Index.reachable w ->
  exists rooms clients,
    getStatus uptime w = json (Status "werewolf-signaling" "mesh-mvp" uptime rooms clients) 200
    /\ rooms <= S clients
    /\ (Index.activeRooms w !! "" = None -> rooms <= clients).
Proof.
  intros Hreach. pose proof (Index.reachable_Inv w Hreach) as HI.
  exists (size (Index.activeRooms w)), (size (Index.sessions w)).
  split; [reflexivity|].
  assert (Hnamed : size (delete "" (Index.activeRooms w)) <= size (Index.sessions w)).
  { apply (size_le_matched
             (fun r c => exists a, Index.sessions w !! c = Some a
                                   /\ Index.roomId (Index.heap w a) = Some r)).
    - intros r [room Hr]. apply lookup_delete_Some in Hr as [Hne Hr].
      destruct (Index.inv_rooms w HI r room Hr) as [_ Hfull].
      destruct (first_member room Hfull) as (c & a & Hc).
      destruct (Index.inv_live w HI r room c a (not_eq_sym Hne) Hr Hc) as [Hs Hroom].
      exists c. split; [rewrite Hs|]; eauto.
    - intros r r' c (a & Ha & Hr) (a' & Ha' & Hr'). congruence. }
  split.
  - destruct (Index.activeRooms w !! "") as [room|] eqn:Hblank.
    + rewrite <- (insert_delete_id (Index.activeRooms w) "" room Hblank).
      rewrite map_size_insert_None by apply lookup_delete_eq. lia.
    + rewrite delete_id in Hnamed by exact Hblank. lia.
  - intros Hblank. now rewrite delete_id in Hnamed by exact Hblank.
Qed.

Lemma status_counts_witness :
  exists rooms clients,
    getStatus 12.5%float Index.lobby
    = json (Status "werewolf-signaling" "mesh-mvp" 12.5%float rooms clients) 200
    /\ rooms <= S clients
    /\ (Index.activeRooms Index.lobby !! "" = None -> rooms <= clients).
Proof. exact (status_counts 12.5%float Index.lobby Index.lobby_reachable). Defined.

(** A room under the empty code outlives its members: after one client has
    joined the room id [" "] and closed, [GET /] reports one room and no
    client. *)
Example status_counts_a_room_without_clients :
  let w := Index.run [(Index.calm, Index.Open "a" 1);
                      (Index.calm, Index.Message "a" (Index.joinFrame " "));
                      (Index.calm, Index.Close "a")] Index.initial in
  Index.reachable w
  /\ forall uptime,
       getStatus uptime w = json (Status "werewolf-signaling" "mesh-mvp" uptime 1 0) 200.
Proof.
  split.
  - apply Index.run_reachable; [exact Index.reachable_initial|vm_compute; reflexivity].
  - intros uptime. vm_compute. reflexivity.
Qed.

End Rest.
